(** * Merkle certificate ledger: a shallow embedding and its properties

    The development follows [merkle_certificate_blockchain.py]:
    canonical JSON encoding, the Merkle tree (layers, root, inclusion proof,
    verification), the [Block] class with its content hash, and the
    [Blockchain] ledger (pending pool, proof of work, mining, persistence).

    Two library functions are interfaces of the model: the digest
    [hashlib.sha256(x).hexdigest()] and the decimal rendering of a double
    ([float.__repr__]).  All general theorems hold for every implementation
    of the two; the FIPS 180-4 function is defined below as well and is the
    one used whenever a statement is evaluated on concrete data. *)

From Stdlib.Strings Require Import String Ascii Byte.
From Stdlib Require Import ZArith NArith List Lia Bool Permutation.
From Stdlib Require Import DecimalString DecimalZ DecimalPos SpecFloat.
Import ListNotations.
Local Open Scope string_scope.
Local Open Scope list_scope.
Local Open Scope Z_scope.

Set Warnings "-register-all".

(** Python's [+] on strings. *)
Infix "+++" := String.append (right associativity, at level 60).

(* ================================================================== *)
(** ** Python values and primitives *)
(* ================================================================== *)

(** Exceptions the modelled code can raise. *)
Inductive exn : Type :=
| IndexError
| KeyError
| TypeError
| ValueError
| OverflowError
| UnicodeEncodeError.

(** The result of running a piece of code: it returns, it raises, or the
    step budget of an unbounded loop ran out before the loop ended. *)
Inductive outcome (A : Type) : Type :=
| Returns (a : A)
| Raises (e : exn)
| OutOfFuel.

Arguments Returns {A} a.
Arguments Raises {A} e.
Arguments OutOfFuel {A}.

Definition bind {A B : Type} (m : outcome A) (k : A -> outcome B) : outcome B :=
  match m with
  | Returns a => k a
  | Raises e => Raises e
  | OutOfFuel => OutOfFuel
  end.

Notation "x <- m ;; k" := (bind m (fun x => k))
  (at level 61, m at next level, right associativity).

(** A Python [str] is a sequence of code points, the numbers up to
    [0x10FFFF]; the surrogates [0xD800..0xDFFF] are code points like the
    others, and a string may hold them in any place.  [str8] are the
    strings whose code points are all below 256, one per [ascii]: the
    strings that the program makes itself (hex digests, JSON text,
    numerals, the literals of the source).  [bytes] are [list byte]. *)
Definition str := list N.
Definition str8 := string.
Definition bytes := list byte.

(** A [str8] as the [str] that it is. *)
Definition ustr (t : str8) : str := map N_of_ascii (list_ascii_of_string t).

(** A string as a [str8], when all its code points are below 256. *)
Fixpoint to_str8 (s : str) : option str8 :=
  match s with
  | [] => Some EmptyString
  | c :: s' =>
      match to_str8 s' with
      | Some t => if (c <? 256)%N then Some (String (ascii_of_N c) t) else None
      | None => None
      end
  end.

(** [a == b] on strings. *)
Fixpoint str_eqb (a b : str) : bool :=
  match a, b with
  | [], [] => true
  | x :: a', y :: b' => (x =? y)%N && str_eqb a' b'
  | _, _ => false
  end.

(** [a <= b] on strings: by code points, the first difference decides. *)
Fixpoint str_leb (a b : str) : bool :=
  match a, b with
  | [], _ => true
  | _ :: _, [] => false
  | x :: a', y :: b' =>
      if (x <? y)%N then true
      else if (y <? x)%N then false
      else str_leb a' b'
  end.

(** The objects that reach [json.dumps] in this program.  A [dict] keeps its
    items in insertion order, as Python does. *)
Inductive pyobj : Type :=
| PStr (s : str)
| PInt (n : Z)
| PFloat (f : spec_float)
| PList (xs : list pyobj)
| PDict (items : list (str * pyobj)).

(** [l[i]] on a list: a negative index counts from the end, an index out of
    range raises [IndexError] (here [None]). *)
Definition py_getitem {A : Type} (l : list A) (i : Z) : option A :=
  let n := Z.of_nat (length l) in
  if 0 <=? i then nth_error l (Z.to_nat i)
  else if - n <=? i then nth_error l (Z.to_nat (n + i))
  else None.

(** [d[k]] for a string [k]: the value stored under [k] in a dict,
    [KeyError] when there is none; a value that is not a dict has no
    subscript by a string. *)
Fixpoint assoc (k : str) (items : list (str * pyobj)) : option pyobj :=
  match items with
  | [] => None
  | (k', v) :: rest => if str_eqb k' k then Some v else assoc k rest
  end.

Definition dict_getitem (d : pyobj) (k : str) : outcome pyobj :=
  match d with
  | PDict items =>
      match assoc k items with
      | Some v => Returns v
      | None => Raises KeyError
      end
  | _ => Raises TypeError
  end.

(** [v == s] for a string [s]: only a [str] with the same code points. *)
Definition eq_str (v : pyobj) (s : str) : bool :=
  match v with
  | PStr s' => str_eqb s' s
  | _ => false
  end.

(** [c * n] for a one-character string: empty when [n <= 0]. *)
Fixpoint str_repeat (c : ascii) (n : nat) : str8 :=
  match n with
  | O => EmptyString
  | S n' => String c (str_repeat c n')
  end.

Definition str_mul (c : ascii) (n : Z) : str8 := str_repeat c (Z.to_nat n).

(** [s.startswith(p)]. *)
Definition startswith (s p : str8) : bool := String.prefix p s.

(** [s.encode()] on a [str8]: UTF-8.  A code point below 128 is one byte,
    one in 128..255 is the two bytes [110000xx 10xxxxxx]. *)
Definition utf8_char (c : ascii) : bytes :=
  let n := N_of_ascii c in
  if (n <? 128)%N then [byte_of_ascii c]
  else [byte_of_ascii (ascii_of_N (192 + n / 64));
        byte_of_ascii (ascii_of_N (128 + n mod 64))].

Fixpoint encode (s : str8) : bytes :=
  match s with
  | EmptyString => []
  | String c s' => utf8_char c ++ encode s'
  end.

(** [s.encode()] on any string: UTF-8 in one to four bytes; a surrogate
    has no encoding. *)
Definition byte_of_N (n : N) : byte := byte_of_ascii (ascii_of_N n).

Definition utf8_code_point (c : N) : outcome bytes :=
  (if c <? 128 then Returns [byte_of_N c]
   else if c <? 0x800 then
     Returns [byte_of_N (192 + c / 64); byte_of_N (128 + c mod 64)]
   else if (0xD800 <=? c) && (c <=? 0xDFFF) then Raises UnicodeEncodeError
   else if c <? 0x10000 then
     Returns [byte_of_N (224 + c / 4096); byte_of_N (128 + c / 64 mod 64);
              byte_of_N (128 + c mod 64)]
   else
     Returns [byte_of_N (240 + c / 262144); byte_of_N (128 + c / 4096 mod 64);
              byte_of_N (128 + c / 64 mod 64); byte_of_N (128 + c mod 64)])%N.

Fixpoint encode_str (s : str) : outcome bytes :=
  match s with
  | [] => Returns []
  | c :: s' =>
      b <- utf8_code_point c ;;
      bs <- encode_str s' ;;
      Returns (b ++ bs)
  end.

(** [int(f)] on a double: truncation toward zero. *)
Definition py_int (f : spec_float) : outcome Z :=
  match f with
  | S754_zero _ => Returns 0
  | S754_finite s m e =>
      let v := if 0 <=? e then Z.pos m * 2 ^ e else Z.pos m / 2 ^ (- e) in
      Returns (if s then - v else v)
  | S754_infinity _ => Raises OverflowError
  | S754_nan => Raises ValueError
  end.

(** [repr] of an [int]. *)
Definition int_repr (n : Z) : str8 := NilZero.string_of_int (Z.to_int n).

(* ================================================================== *)
(** ** Library interfaces *)
(* ================================================================== *)

(** [hashlib.sha256(x).hexdigest()]: 64 hex digits, a [str8]. *)
Class Hasher : Type := { sha256 : bytes -> str8 }.

(** [float.__repr__], which [json.dumps] uses for a double: digits, a
    sign, a point, an exponent or a name, a [str8]. *)
Class FloatFormat : Type := { float_repr : spec_float -> str8 }.

(* ================================================================== *)
(** ** SHA-256 (FIPS 180-4) on 32-bit words held in [Z] *)
(* ================================================================== *)

Module SHA256.

Definition mask32 (x : Z) : Z := Z.land x 0xFFFFFFFF.
Definition add32 (x y : Z) : Z := mask32 (x + y).
Definition rotr (n x : Z) : Z :=
  Z.lor (Z.shiftr x n) (mask32 (Z.shiftl x (32 - n))).
Definition shr (n x : Z) : Z := Z.shiftr x n.
Definition not32 (x : Z) : Z := Z.lxor x 0xFFFFFFFF.

Definition Ch (x y z : Z) : Z := Z.lxor (Z.land x y) (Z.land (not32 x) z).
Definition Maj (x y z : Z) : Z :=
  Z.lxor (Z.lxor (Z.land x y) (Z.land x z)) (Z.land y z).
Definition bsig0 (x : Z) : Z := Z.lxor (Z.lxor (rotr 2 x) (rotr 13 x)) (rotr 22 x).
Definition bsig1 (x : Z) : Z := Z.lxor (Z.lxor (rotr 6 x) (rotr 11 x)) (rotr 25 x).
Definition ssig0 (x : Z) : Z := Z.lxor (Z.lxor (rotr 7 x) (rotr 18 x)) (shr 3 x).
Definition ssig1 (x : Z) : Z := Z.lxor (Z.lxor (rotr 17 x) (rotr 19 x)) (shr 10 x).

(** The constants are defined as the standard defines them, from the first
    primes: the first 32 bits of the fractional part of the cube root
    (round constants) and of the square root (initial state). *)
Definition is_prime (n : Z) : bool :=
  forallb (fun d => negb (n mod d =? 0) || (n <=? d))
          (map Z.of_nat (seq 2 (Z.to_nat (Z.sqrt n)))).

Definition first_primes (count : nat) : list Z :=
  firstn count (filter is_prime (map Z.of_nat (seq 2 400))).

(** The integer cube root, one binary digit at a time. *)
Definition cube_root (n : Z) : Z :=
  fold_left (fun x bit => let y := x + 2 ^ Z.of_nat bit in
                          if y * y * y <=? n then y else x)
            (rev (seq 0 40)) 0.

Definition frac_cube_root (p : Z) : Z := mask32 (cube_root (p * 2 ^ 96)).
Definition frac_square_root (p : Z) : Z := mask32 (Z.sqrt (p * 2 ^ 64)).

Definition K256 : list Z :=
  Eval vm_compute in map frac_cube_root (first_primes 64).

Definition regs : Type := (Z * Z * Z * Z * Z * Z * Z * Z)%type.

Definition H0 : regs :=
  Eval vm_compute in
    match map frac_square_root (first_primes 8) with
    | [a; b; c; d; e; f; g; h] => (a, b, c, d, e, f, g, h)
    | _ => (0, 0, 0, 0, 0, 0, 0, 0)
    end.

(** The [n] low bytes of [x], most significant first. *)
Definition be_bytes (n : nat) (x : Z) : list Z :=
  map (fun i => Z.land (Z.shiftr x (8 * Z.of_nat i)) 0xFF) (rev (seq 0 n)).

(** Padding: the bit 1, zero bytes up to 56 modulo 64, and the length of
    the message in bits as a 64-bit big-endian number. *)
Definition pad (msg : list Z) : list Z :=
  let len := Z.of_nat (length msg) in
  msg ++ [0x80] ++ repeat 0 (Z.to_nat ((55 - len) mod 64)) ++ be_bytes 8 (8 * len).

Fixpoint words (fuel : nat) (bs : list Z) : list Z :=
  match fuel, bs with
  | S f, b0 :: b1 :: b2 :: b3 :: rest =>
      (Z.shiftl b0 24 + Z.shiftl b1 16 + Z.shiftl b2 8 + b3) :: words f rest
  | _, _ => []
  end.

(** The message schedule, latest word first: [n] more words are added to
    the sixteen of the block. *)
Fixpoint schedule (n : nat) (ws : list Z) : list Z :=
  match n with
  | O => ws
  | S n' =>
      let w := add32 (add32 (ssig1 (nth 1 ws 0)) (nth 6 ws 0))
                     (add32 (ssig0 (nth 14 ws 0)) (nth 15 ws 0)) in
      schedule n' (w :: ws)
  end.

Definition round (s : regs) (kw : Z * Z) : regs :=
  let '(a, b, c, d, e, f, g, h) := s in
  let t1 := add32 (add32 (add32 h (bsig1 e)) (add32 (Ch e f g) (fst kw))) (snd kw) in
  let t2 := add32 (bsig0 a) (Maj a b c) in
  (add32 t1 t2, a, b, c, add32 d t1, e, f, g).

Definition compress (s : regs) (block : list Z) : regs :=
  let w := rev (schedule 48 (rev block)) in
  let '(a, b, c, d, e, f, g, h) := s in
  let '(a', b', c', d', e', f', g', h') := fold_left round (combine K256 w) s in
  (add32 a a', add32 b b', add32 c c', add32 d d',
   add32 e e', add32 f f', add32 g g', add32 h h').

Fixpoint blocks (fuel : nat) (s : regs) (ws : list Z) : regs :=
  match fuel, ws with
  | S f, _ :: _ => blocks f (compress s (firstn 16 ws)) (skipn 16 ws)
  | _, _ => s
  end.

Definition digest (msg : bytes) : regs :=
  let bs := pad (map (fun b => Z.of_N (Byte.to_N b)) msg) in
  let ws := words (length bs) bs in
  blocks (length ws) H0 ws.

Definition hex_digit (x : Z) : ascii :=
  ascii_of_N (Z.to_N (if x <? 10 then 48 + x else 87 + x)).

Definition hex_word (x : Z) : str8 :=
  fold_right
    (fun i acc => String (hex_digit (Z.land (Z.shiftr x (4 * Z.of_nat i)) 0xF)) acc)
    EmptyString (rev (seq 0 8)).

Definition hexdigest (msg : bytes) : str8 :=
  let '(a, b, c, d, e, f, g, h) := digest msg in
  hex_word a +++ hex_word b +++ hex_word c +++ hex_word d +++
  hex_word e +++ hex_word f +++ hex_word g +++ hex_word h.

End SHA256.

(** The hash function of [hashlib]. *)
Definition hashlib_sha256 : Hasher := {| sha256 := SHA256.hexdigest |}.

(** [float.__repr__] on the doubles that are whole numbers of magnitude
    below [10^16] (a clock reading that falls on a whole second): the
    decimal digits followed by [.0]; zero is [0.0] or [-0.0].  The
    examples use no other double, and on other doubles this is not the
    text that Python prints. *)
Definition whole_float_repr : FloatFormat :=
  {| float_repr := fun f =>
       match py_int f with
       | Returns n =>
           match f with
           | S754_zero true => "-0.0"
           | _ => int_repr n +++ ".0"
           end
       | _ => "nan"
       end |}.

(* ================================================================== *)
(** ** Canonical encoding: [json.dumps(obj, sort_keys=True,
       separators=(',', ':')).encode()] *)
(* ================================================================== *)

Definition dquote : ascii := Eval cbv in ascii_of_nat 34.

Definition hex_lower (n : N) : ascii :=
  ascii_of_N (if (n <? 10)%N then 48 + n else 87 + n).

(** [format(n, '04x')] for [n < 0x10000]. *)
Definition hex4 (n : N) : str8 :=
  (String (hex_lower (n / 4096 mod 16))
     (String (hex_lower (n / 256 mod 16))
        (String (hex_lower (n / 16 mod 16))
           (String (hex_lower (n mod 16)) ""))))%N.

(** One code point below [0x10000] in a JSON string with [ensure_ascii]:
    the quote, the backslash and the control characters with a short form
    are written with a backslash, a printable ASCII character stands for
    itself, and every other one is written as [\uXXXX]. *)
Definition esc_unit (n : N) : str8 :=
  if (n =? 34)%N then String "\" (String dquote "")
  else if (n =? 92)%N then "\\"
  else if (n =? 10)%N then "\n"
  else if (n =? 13)%N then "\r"
  else if (n =? 9)%N then "\t"
  else if (n =? 12)%N then "\f"
  else if (n =? 8)%N then "\b"
  else if ((32 <=? n) && (n <=? 126))%N then String (ascii_of_N n) ""
  else "\u" +++ hex4 n.

(** One code point: from [0x10000] on it is written as the two surrogates
    of UTF-16, [\uXXXX\uXXXX]. *)
Definition esc_char (c : N) : str8 :=
  if (c <? 0x10000)%N then esc_unit c
  else
    let n := (c - 0x10000)%N in
    let s1 := N.lor 0xD800 (N.land (N.shiftr n 10) 0x3FF) in
    let s2 := N.lor 0xDC00 (N.land n 0x3FF) in
    "\u" +++ hex4 s1 +++ "\u" +++ hex4 s2.

Fixpoint esc_string (s : str) : str8 :=
  match s with
  | [] => ""
  | c :: s' => esc_char c +++ esc_string s'
  end.

Definition encode_basestring_ascii (s : str) : str8 :=
  String dquote (esc_string s +++ String dquote "").

(** [sorted] on the items of a dict, which compares the keys (the keys of a
    dict are distinct): a stable insertion sort on the code points. *)
Fixpoint insert_item {V : Type} (kv : str * V) (l : list (str * V)) : list (str * V) :=
  match l with
  | [] => [kv]
  | kv' :: l' =>
      if str_leb (fst kv) (fst kv') then kv :: l
      else kv' :: insert_item kv l'
  end.

Definition sort_items {V : Type} (l : list (str * V)) : list (str * V) :=
  fold_right insert_item [] l.

Definition render_item (kv : str * str8) : str8 :=
  encode_basestring_ascii (fst kv) +++ ":" +++ snd kv.

Section Canonical.
Context {float_format : FloatFormat}.

(** The encoder: items of a dict in key order, no white space.  The value
    of every item is rendered before the items are put in order, which
    yields the same text as ordering first, since the order looks at the
    keys only. *)
Fixpoint dumps (o : pyobj) : str8 :=
  match o with
  | PStr s => encode_basestring_ascii s
  | PInt n => int_repr n
  | PFloat f => float_repr f
  | PList xs => "[" +++ String.concat "," (map dumps xs) +++ "]"
  | PDict items =>
      "{" +++ String.concat ","
                (map render_item
                     (sort_items (map (fun kv => (fst kv, dumps (snd kv))) items)))
          +++ "}"
  end.

Definition canonical (obj : pyobj) : bytes := encode (dumps obj).

End Canonical.

(** [json.load] on the text that [json.dump] has written for an object.
    Numbers are read back as they were.  In a string every code point was
    written by [esc_char]; reading [\uXXXX] of a high surrogate that is
    followed at once by [\uXXXX] of a low surrogate gives the one code point
    from [0x10000] on that the two stand for, whether the string held that
    code point or the two surrogates.  The items of an object are put into
    a new dict in their order: a key that comes again (two keys may be read
    back alike) keeps its place and takes the later value. *)
Definition is_high_surrogate (c : N) : bool := ((0xD800 <=? c) && (c <=? 0xDBFF))%N.
Definition is_low_surrogate (c : N) : bool := ((0xDC00 <=? c) && (c <=? 0xDFFF))%N.

Fixpoint merge_surrogates (s : str) : str :=
  match s with
  | [] => []
  | hi :: rest =>
      match rest with
      | lo :: rest' =>
          if is_high_surrogate hi && is_low_surrogate lo
          then (0x10000 + (hi - 0xD800) * 1024 + (lo - 0xDC00))%N
               :: merge_surrogates rest'
          else hi :: merge_surrogates rest
      | [] => [hi]
      end
  end.

Fixpoint dict_setitem (k : str) (v : pyobj) (items : list (str * pyobj))
    : list (str * pyobj) :=
  match items with
  | [] => [(k, v)]
  | (k', v') :: rest =>
      if str_eqb k' k then (k', v) :: rest
      else (k', v') :: dict_setitem k v rest
  end.

Definition dict_of_pairs (pairs : list (str * pyobj)) : list (str * pyobj) :=
  fold_left (fun d kv => dict_setitem (fst kv) (snd kv) d) pairs [].

Fixpoint json_load (written : pyobj) : pyobj :=
  match written with
  | PStr s => PStr (merge_surrogates s)
  | PInt n => PInt n
  | PFloat f => PFloat f
  | PList xs => PList (map json_load xs)
  | PDict items =>
      PDict (dict_of_pairs
               (map (fun kv => (merge_surrogates (fst kv), json_load (snd kv))) items))
  end.

(** Two objects with the same content: dicts hold the same keys with
    values of the same content, in any order (the keys of a dict are
    distinct); lists hold elements of the same content in the same order;
    strings and numbers are the same. *)
Inductive same_content : pyobj -> pyobj -> Prop :=
| same_str (s : str) : same_content (PStr s) (PStr s)
| same_int (n : Z) : same_content (PInt n) (PInt n)
| same_float (f : spec_float) : same_content (PFloat f) (PFloat f)
| same_list (xs ys : list pyobj) :
    same_elements xs ys -> same_content (PList xs) (PList ys)
| same_dict (d1 d1' d2 : list (str * pyobj)) :
    NoDup (map fst d1) -> Permutation d1 d1' -> same_items d1' d2 ->
    same_content (PDict d1) (PDict d2)
with same_elements : list pyobj -> list pyobj -> Prop :=
| same_elements_nil : same_elements [] []
| same_elements_cons (x y : pyobj) (xs ys : list pyobj) :
    same_content x y -> same_elements xs ys ->
    same_elements (x :: xs) (y :: ys)
with same_items : list (str * pyobj) -> list (str * pyobj) -> Prop :=
| same_items_nil : same_items [] []
| same_items_cons (k : str) (v v' : pyobj) (d d' : list (str * pyobj)) :
    same_content v v' -> same_items d d' ->
    same_items ((k, v) :: d) ((k, v') :: d').

Scheme same_content_mut := Induction for same_content Sort Prop
  with same_elements_mut := Induction for same_elements Sort Prop
  with same_items_mut := Induction for same_items Sort Prop.

Combined Scheme same_content_mutind
  from same_content_mut, same_elements_mut, same_items_mut.

(* ================================================================== *)
(** ** The Merkle tree *)
(* ================================================================== *)

Section Merkle.
Context {hasher : Hasher} {float_format : FloatFormat}.

(** [prev + [prev[-1]]] when the length of [prev] is odd. *)
Definition pad_even (layer : list str8) : list str8 :=
  if Nat.odd (length layer) then layer ++ [last layer ""] else layer.

(** The [for i in range(0, len(prev), 2)] loop of [merkle_layers]: the
    digest of [prev[i] + prev[i+1]] for each pair.  The loop runs on a
    layer of even length only, the layer having been padded (see
    [pad_even_is_even]). *)
Fixpoint pair_hashes (prev : list str8) : list str8 :=
  match prev with
  | a :: b :: rest => sha256 (encode (a +++ b)) :: pair_hashes rest
  | _ => []
  end.

Definition next_layer (prev : list str8) : list str8 :=
  pair_hashes (pad_even prev).

(** The [while len(layers[-1]) > 1] loop, [cur] being [layers[-1]]; the
    layers from [cur] on are returned.  [fuel] bounds the number of
    iterations; [merkle_layers] passes enough of it (see
    [merkle_layers_top]). *)
Fixpoint grow_layers (fuel : nat) (cur : list str8) : list (list str8) :=
  match fuel with
  | O => [cur]
  | S fuel' =>
      if (1 <? length cur)%nat then cur :: grow_layers fuel' (next_layer cur)
      else [cur]
  end.

Definition leaf_hashes (items : list pyobj) : list str8 :=
  match map (fun x => sha256 (canonical x)) items with
  | [] => [sha256 []]
  | leaves => leaves
  end.

Definition merkle_layers (items : list pyobj) : list (list str8) :=
  let leaves := leaf_hashes items in
  grow_layers (length leaves) leaves.

Definition merkle_root (items : list pyobj) : str8 :=
  hd "" (last (merkle_layers items) []).

(** The loop of [merkle_proof] over [layers[:-1]]. *)
Fixpoint proof_path (layers : list (list str8)) (idx : Z) : outcome (list (str8 * str8))
    :=
  match layers with
  | [] => Returns []
  | layer :: rest =>
      let l := pad_even layer in
      let sibling_index := Z.lxor idx 1 in
      match py_getitem l sibling_index with
      | None => Raises IndexError
      | Some sibling_hash =>
          let direction := if sibling_index <? idx then "L" else "R" in
          proof <- proof_path rest (idx / 2) ;;
          Returns ((sibling_hash, direction) :: proof)
      end
  end.

Definition merkle_proof (items : list pyobj) (index : Z) : outcome (list (str8 * str8)) :=
  proof_path (removelast (merkle_layers items)) index.

(** One iteration of the loop of [verify_merkle_proof].  The proof comes
    from the caller: its strings are any strings, and [encode] raises on a
    sibling that holds a surrogate. *)
Definition fold_sibling (h : str8) (step : str * str) : outcome str8 :=
  let (sibling_hash, direction) := step in
  if str_eqb direction (ustr "L") then
    b <- encode_str (sibling_hash ++ ustr h) ;; Returns (sha256 b)
  else
    b <- encode_str (ustr h ++ sibling_hash) ;; Returns (sha256 b).

Fixpoint verify_loop (proof : list (str * str)) (h : str8) : outcome str8 :=
  match proof with
  | [] => Returns h
  | step :: rest => h' <- fold_sibling h step ;; verify_loop rest h'
  end.

Definition verify_merkle_proof (leaf : pyobj) (proof : list (str * str)) (root : str)
    : outcome bool :=
  h <- verify_loop proof (sha256 (canonical leaf)) ;;
  Returns (str_eqb (ustr h) root).

(** The bytes that one iteration of [verify_merkle_proof] hashes when the
    step is one of 8-bit strings, which [encode] never refuses (see
    [fold_sibling_ustr]), and the running hash after it. *)
Definition step_input (h : str8) (step : str8 * str8) : bytes :=
  let (sibling_hash, direction) := step in
  if String.eqb direction "L" then encode (sibling_hash +++ h)
  else encode (h +++ sibling_hash).

Definition step_digest (h : str8) (step : str8 * str8) : str8 :=
  sha256 (step_input h step).

End Merkle.

(** A proof as [merkle_proof] returns it, digests and tags of 8-bit
    strings, as the list of pairs of strings that it is. *)
Definition ustr_proof (proof : list (str8 * str8)) : list (str * str) :=
  map (fun step => (ustr (fst step), ustr (snd step))) proof.

(** Two steps of a proof that [verify_merkle_proof] cannot tell apart: the
    same sibling digest, and tags that are both ['L'] or both something
    else. *)
Definition same_side (p p' : str * str) : Prop :=
  fst p = fst p' /\ (snd p = ustr "L" <-> snd p' = ustr "L").

(* ================================================================== *)
(** ** Blocks *)
(* ================================================================== *)

Module Block.

(* The function [merkle_root], which the field of the same name hides
   inside this module. *)
#[local] Abbreviation merkle_tree_root := merkle_root (only parsing).

(** The three digest fields are [str8]: every block that the program
    builds holds there a digest that it has computed, the hash of another
    block, or the literal ["0"].  (A file may hold any string there; see
    [from_dict].) *)
Record t : Type := mk {
  index : Z;
  transactions : list pyobj;
  timestamp : spec_float;
  previous_hash : str8;
  nonce : Z;
  merkle_root : str8;
  hash : str8
}.

Definition set_hash (b : t) (h : str8) : t :=
  mk (index b) (transactions b) (timestamp b) (previous_hash b) (nonce b)
     (merkle_root b) h.

Definition set_nonce (b : t) (n : Z) : t :=
  mk (index b) (transactions b) (timestamp b) (previous_hash b) n
     (merkle_root b) (hash b).

Section WithLibraries.
Context {hasher : Hasher} {float_format : FloatFormat}.

Definition compute_hash (b : t) : str8 :=
  let obj := PDict [ (ustr "index", PInt (index b));
                     (ustr "transactions", PList (transactions b));
                     (ustr "timestamp", PFloat (timestamp b));
                     (ustr "previous_hash", PStr (ustr (previous_hash b)));
                     (ustr "nonce", PInt (nonce b));
                     (ustr "merkle_root", PStr (ustr (merkle_root b))) ] in
  sha256 (canonical obj).

(** [Block(index, transactions, timestamp, previous_hash, nonce)]. *)
Definition new (index : Z) (transactions : list pyobj) (timestamp : spec_float)
    (previous_hash : str8) (nonce : Z) : t :=
  let b := mk index transactions timestamp previous_hash nonce
              (merkle_tree_root transactions) "" in
  set_hash b (compute_hash b).

End WithLibraries.

Definition to_dict (b : t) : pyobj :=
  PDict [ (ustr "index", PInt (index b));
          (ustr "transactions", PList (transactions b));
          (ustr "timestamp", PFloat (timestamp b));
          (ustr "previous_hash", PStr (ustr (previous_hash b)));
          (ustr "nonce", PInt (nonce b));
          (ustr "merkle_root", PStr (ustr (merkle_root b)));
          (ustr "hash", PStr (ustr (hash b))) ].

Definition set_merkle_root (b : t) (r : str8) : t :=
  mk (index b) (transactions b) (timestamp b) (previous_hash b) (nonce b)
     r (hash b).

(** A block with its transactions as [json.load] reads them after
    [json.dump] has written them. *)
Definition reread (b : t) : t :=
  mk (index b) (map json_load (transactions b)) (timestamp b) (previous_hash b)
     (nonce b) (merkle_root b) (hash b).

(** The value of a field as the type that [to_dict] writes there.  A dict
    may hold a value of another type under the key, or a string with a
    code point from 256 on where a digest belongs; Python then stores that
    value in the block as it is, and the blocks of the model have no place
    for it: [None]. *)
Definition as_int (v : pyobj) : option Z :=
  match v with PInt n => Some n | _ => None end.

Definition as_float (v : pyobj) : option spec_float :=
  match v with PFloat f => Some f | _ => None end.

Definition as_str (v : pyobj) : option str8 :=
  match v with PStr s => to_str8 s | _ => None end.

Definition as_list (v : pyobj) : option (list pyobj) :=
  match v with PList xs => Some xs | _ => None end.

(** [d.get(k, default)] on the items of a dict. *)
Definition get_default (k : str) (default : pyobj) (items : list (str * pyobj)) : pyobj :=
  match assoc k items with
  | Some v => v
  | None => default
  end.

Section Loading.
Context {hasher : Hasher} {float_format : FloatFormat}.

(** [Block.from_dict(d)].  The four subscripts come first and raise
    [KeyError] (or [TypeError] when [d] is no dict) in their order; the
    constructor then computes the Merkle root and the hash, and both are
    overwritten by what the dict holds under [merkle_root] and [hash]; the
    default for the hash is computed after the root has been overwritten.
    The result is [None] where a field has a type outside the model (see
    [as_int]). *)
Definition from_dict (d : pyobj) : option (outcome t) :=
  match (i <- dict_getitem d (ustr "index") ;;
         txs <- dict_getitem d (ustr "transactions") ;;
         ts <- dict_getitem d (ustr "timestamp") ;;
         ph <- dict_getitem d (ustr "previous_hash") ;;
         Returns (i, txs, ts, ph)) with
  | Returns (i, txs, ts, ph) =>
      let items := match d with PDict items => items | _ => [] end in
      match as_int i, as_list txs, as_float ts, as_str ph,
            as_int (get_default (ustr "nonce") (PInt 0) items) with
      | Some i, Some txs, Some ts, Some ph, Some n =>
          let b := new i txs ts ph n in
          match as_str (get_default (ustr "merkle_root")
                                    (PStr (ustr (merkle_root b))) items) with
          | Some r =>
              let b := set_merkle_root b r in
              match as_str (get_default (ustr "hash")
                                        (PStr (ustr (compute_hash b))) items) with
              | Some h => Some (Returns (set_hash b h))
              | None => None
              end
          | None => None
          end
      | _, _, _, _, _ => None
      end
  | Raises e => Some (Raises e)
  | OutOfFuel => Some OutOfFuel
  end.

(** [[Block.from_dict(b) for b in data]]: the first dict that raises ends
    the comprehension. *)
Fixpoint from_dicts (data : list pyobj) : option (outcome (list t)) :=
  match data with
  | [] => Some (Returns [])
  | d :: rest =>
      match from_dict d with
      | Some (Returns b) =>
          match from_dicts rest with
          | Some (Returns bs) => Some (Returns (b :: bs))
          | other => other
          end
      | Some (Raises e) => Some (Raises e)
      | Some OutOfFuel => Some OutOfFuel
      | None => None
      end
  end.

End Loading.

End Block.

(* ================================================================== *)
(** ** The ledger *)
(* ================================================================== *)

Definition DIFFICULTY : Z := 3.

Module Blockchain.

(** The object, together with what it keeps on disk: [chain_json] is the
    content of the file [CHAIN_FILE], held as the object that [json.dump]
    has written there ([None] while there is no file); what [json.load]
    reads from the file is [json_load] of it. *)
Record t : Type := mk {
  difficulty : Z;
  unconfirmed_transactions : list pyobj;
  chain : list Block.t;
  chain_json : option pyobj
}.

Definition save_chain (bc : t) : t :=
  mk (difficulty bc) (unconfirmed_transactions bc) (chain bc)
     (Some (PList (map Block.to_dict (chain bc)))).

Definition last_block (bc : t) : outcome Block.t :=
  match py_getitem (chain bc) (-1) with
  | Some b => Returns b
  | None => Raises IndexError
  end.

(** The loop of [add_transaction] over the pending records: [and] does not
    look at the course of a record whose student is another one. *)
Fixpoint pending_duplicate (student_id course : str) (pending : list pyobj) : outcome
    bool :=
  match pending with
  | [] => Returns false
  | t :: rest =>
      sid <- dict_getitem t (ustr "student_id") ;;
      if eq_str sid student_id then
        c <- dict_getitem t (ustr "course") ;;
        if eq_str c course then Returns true
        else pending_duplicate student_id course rest
      else pending_duplicate student_id course rest
  end.

(** [now] is the reading of the clock, [time.time()]. *)
Definition add_transaction (student_id name course grade : str) (now : spec_float)
    (bc : t) : outcome (bool * t) :=
  issued_at <- py_int now ;;
  let tx := PDict [ (ustr "student_id", PStr student_id);
                    (ustr "name", PStr name);
                    (ustr "course", PStr course);
                    (ustr "grade", PStr grade);
                    (ustr "issued_at", PInt issued_at) ] in
  dup <- pending_duplicate student_id course (unconfirmed_transactions bc) ;;
  if (dup : bool) then Returns (false, bc)
  else Returns (true, mk (difficulty bc) (unconfirmed_transactions bc ++ [tx])
                         (chain bc) (chain_json bc)).

Section WithLibraries.
Context {hasher : Hasher} {float_format : FloatFormat}.

Definition create_genesis (now : spec_float) (bc : t) : t :=
  let genesis := Block.new 0 [] now "0" 0 in
  let genesis := Block.set_hash genesis (Block.compute_hash genesis) in
  save_chain (mk (difficulty bc) (unconfirmed_transactions bc) [genesis] (chain_json bc)).

(** [Blockchain(difficulty)] where no chain file exists: [load_chain] then
    creates the genesis block.  (For the constructor with a file see
    [construct].) *)
Definition init (difficulty : Z) (now : spec_float) : t :=
  create_genesis now (mk difficulty [] [] None).

(** The [while] loop of [proof_of_work]; the block is returned as the loop
    leaves it.  Each iteration takes one unit of [fuel]. *)
Fixpoint proof_of_work (fuel : nat) (bc : t) (block : Block.t) : outcome Block.t :=
  let target := str_mul "0" (difficulty bc) in
  if startswith (Block.hash block) target then Returns block
  else
    match fuel with
    | O => OutOfFuel
    | S fuel' =>
        let block := Block.set_nonce block (Block.nonce block + 1) in
        let block := Block.set_hash block (Block.compute_hash block) in
        proof_of_work fuel' bc block
    end.

(** [mine()]: the pair that is returned ([None] for the block when nothing
    is pending) and the ledger afterwards. *)
Definition mine (fuel : nat) (now : spec_float) (bc : t)
    : outcome ((bool * option Block.t) * t) :=
  match unconfirmed_transactions bc with
  | [] => Returns ((false, None), bc)
  | _ :: _ =>
      last <- last_block bc ;;
      let new_block := Block.new (Block.index last + 1) (unconfirmed_transactions bc)
                                 now (Block.hash last) 0 in
      new_block <- proof_of_work fuel bc new_block ;;
      let bc := mk (difficulty bc) [] (chain bc ++ [new_block]) (chain_json bc) in
      Returns ((true, Some new_block), save_chain bc)
  end.

(** What a [for] loop over a value visits: the elements of a list, the
    keys of a dict, the characters of a string; a number is not
    iterable. *)
Definition chars (s : str) : list pyobj := map (fun c => PStr [c]) s.

Definition py_iter (v : pyobj) : outcome (list pyobj) :=
  match v with
  | PList xs => Returns xs
  | PDict items => Returns (map (fun kv => PStr (fst kv)) items)
  | PStr s => Returns (chars s)
  | PInt _ | PFloat _ => Raises TypeError
  end.

(** [load_chain()], the file holding a JSON value when it exists: the
    blocks are read back, and the genesis block is created when there is
    no file or no block in it.  [None] as for [Block.from_dict]. *)
Definition load_chain (now : spec_float) (bc : t) : option (outcome t) :=
  match chain_json bc with
  | Some written =>
      match py_iter (json_load written) with
      | Returns elements =>
          match Block.from_dicts elements with
          | Some (Returns blocks) =>
              let bc := mk (difficulty bc) (unconfirmed_transactions bc) blocks
                           (chain_json bc) in
              Some (Returns (match blocks with
                             | [] => create_genesis now bc
                             | _ :: _ => bc
                             end))
          | Some (Raises e) => Some (Raises e)
          | Some OutOfFuel => Some OutOfFuel
          | None => None
          end
      | Raises e => Some (Raises e)
      | OutOfFuel => Some OutOfFuel
      end
  | None => Some (Returns (create_genesis now bc))
  end.

(** [Blockchain(difficulty)] with the file as it is: [file] is its content,
    [None] when it does not exist. *)
Definition construct (difficulty : Z) (now : spec_float) (file : option pyobj)
    : option (outcome t) :=
  load_chain now (mk difficulty [] [] file).

End WithLibraries.

(** The inner loop of [find_certificate_location]: the position of the
    first transaction of the block, counted from [i], with the pair. *)
Fixpoint find_in_block (student_id course : str) (txs : list pyobj) (i : Z)
    : outcome (option Z) :=
  match txs with
  | [] => Returns None
  | tx :: rest =>
      sid <- dict_getitem tx (ustr "student_id") ;;
      if eq_str sid student_id then
        c <- dict_getitem tx (ustr "course") ;;
        if eq_str c course then Returns (Some i)
        else find_in_block student_id course rest (i + 1)
      else find_in_block student_id course rest (i + 1)
  end.

(** The outer loop, over the blocks of a chain. *)
Fixpoint find_in_chain (student_id course : str) (blocks : list Block.t)
    : outcome (Z * Z) :=
  match blocks with
  | [] => Returns (-1, -1)
  | b :: rest =>
      found <- find_in_block student_id course (Block.transactions b) 0 ;;
      match found with
      | Some i => Returns (Block.index b, i)
      | None => find_in_chain student_id course rest
      end
  end.

Definition find_certificate_location (student_id course : str) (bc : t)
    : outcome (Z * Z) :=
  find_in_chain student_id course (chain bc).

(** [get_block_by_index(index)]; Python's [None] is [None]. *)
Fixpoint first_with_index (index : Z) (blocks : list Block.t) : option Block.t :=
  match blocks with
  | [] => None
  | b :: rest => if Block.index b =? index then Some b else first_with_index index rest
  end.

Definition get_block_by_index (index : Z) (bc : t) : option Block.t :=
  first_with_index index (chain bc).

End Blockchain.

(* ================================================================== *)
(** ** The menu: generating a proof (choice 4) *)
(* ================================================================== *)

(** The object that choice 4 of the menu writes to a file. *)
Record proof_object : Type := mk_proof_object {
  po_block_index : Z;
  po_tx_index : Z;
  po_transaction : pyobj;
  po_merkle_root : str8;
  po_proof : list (str8 * str8)
}.

(** How choice 4 ends when no exception escapes: with the message that
    the certificate is not in the chain, or with a proof object written to
    the file of the given name.  [BlockIsNone] stands for the one exception
    that is none of [exn]: the [AttributeError] of [block.transactions]
    when [get_block_by_index] has returned [None]. *)
Inductive choice_4_result : Type :=
| NotInChain
| ProofSaved (fname : str8) (obj : proof_object)
| BlockIsNone.

Section Menu.
Context {hasher : Hasher} {float_format : FloatFormat}.

(** Choice 4 on the two strings read from the console (after [strip()]);
    printing is left out. *)
Definition menu_choice_4 (sid course : str) (bc : Blockchain.t)
    : outcome choice_4_result :=
  loc <- Blockchain.find_certificate_location sid course bc ;;
  let (b_index, tx_index) := (loc : Z * Z) in
  if b_index =? -1 then Returns NotInChain
  else
    match Blockchain.get_block_by_index b_index bc with
    | None => Returns BlockIsNone
    | Some block =>
        proof <- merkle_proof (Block.transactions block) tx_index ;;
        match py_getitem (Block.transactions block) tx_index with
        | Some tx =>
            Returns
              (ProofSaved
                 ("merkle_proof_b" +++ int_repr (Block.index block) +++ "_t"
                    +++ int_repr tx_index +++ ".json")
                 (mk_proof_object (Block.index block) tx_index tx
                                  (Block.merkle_root block) proof))
        | None => Raises IndexError
        end
    end.

End Menu.

(* ================================================================== *)
(** ** Notions used in the statements about the ledger *)
(* ================================================================== *)

(** A pending record carries the pair ([student_id], [course]). *)
Definition same_pair (student_id course : str) (t : pyobj) : Prop :=
  dict_getitem t (ustr "student_id") = Returns (PStr student_id) /\
  dict_getitem t (ustr "course") = Returns (PStr course).

(** Every block but the first names the hash of the block before it. *)
Definition linked (chain : list Block.t) : Prop :=
  forall (k : nat) (b prev : Block.t),
    (1 <= k)%nat ->
    nth_error chain k = Some b ->
    nth_error chain (k - 1) = Some prev ->
    Block.previous_hash b = Block.hash prev.

Section Reachable.
Context {hasher : Hasher} {float_format : FloatFormat}.

(** The ledgers that exist after the constructor has created the genesis
    block and any number of calls of [add_transaction] and [mine] have
    returned. *)
Inductive reachable : Blockchain.t -> Prop :=
| reach_init (difficulty : Z) (now : spec_float) :
    reachable (Blockchain.init difficulty now)
| reach_add (bc bc' : Blockchain.t) (student_id name course grade : str)
    (now : spec_float) (ok : bool) :
    reachable bc ->
    Blockchain.add_transaction student_id name course grade now bc = Returns (ok, bc') ->
    reachable bc'
| reach_mine (bc bc' : Blockchain.t) (fuel : nat) (now : spec_float)
    (res : bool * option Block.t) :
    reachable bc ->
    Blockchain.mine fuel now bc = Returns (res, bc') ->
    reachable bc'.

(** A block after [n] more turns of the loop of [proof_of_work]. *)
Definition bump (b : Block.t) (n : Z) : Block.t :=
  let b' := Block.set_nonce b (Block.nonce b + n) in
  Block.set_hash b' (Block.compute_hash b').

(** The block that [mine] hands to [proof_of_work], with the nonce set to
    [n] and the hash recomputed: the block after [n] turns of the loop. *)
Definition candidate (last : Block.t) (bc : Blockchain.t) (now : spec_float) (n : Z)
    : Block.t :=
  let b := Block.set_nonce
             (Block.new (Block.index last + 1) (Blockchain.unconfirmed_transactions bc)
                        now (Block.hash last) 0) n in
  Block.set_hash b (Block.compute_hash b).

End Reachable.

(* ================================================================== *)
(** ** Notions used in the statement of tamper sensitivity *)
(* ================================================================== *)

Section Tamper.
Context {hasher : Hasher} {float_format : FloatFormat}.







End Tamper.

(** The code units of UTF-16 that [esc_char] writes for a code point, and
    for a string. *)
Definition utf16_units (c : N) : list N :=
  if (c <? 0x10000)%N then [c]
  else
    let n := (c - 0x10000)%N in
    [N.lor 0xD800 (N.land (N.shiftr n 10) 0x3FF); N.lor 0xDC00 (N.land n 0x3FF)].

Definition utf16 (s : str) : list N := flat_map utf16_units s.

Fixpoint esc_units (units : list N) : str8 :=
  match units with
  | [] => ""
  | n :: rest => esc_unit n +++ esc_units rest
  end.

(** The code points that stand for a character: all but the surrogates,
    up to [0x10FFFF].  A string of such code points is what decoding a
    text gives. *)
Definition is_scalar (c : N) : bool :=
  ((c <? 0xD800) || ((0xE000 <=? c) && (c <=? 0x10FFFF)))%N.

Definition scalar_str (s : str) : Prop := forallb is_scalar s = true.


(** Reading back the first code unit of an escaped string, and the first
    code point of the UTF-8 bytes of a [str8]: the inverses that show what
    the encodings keep. *)
Definition hex_value (c : ascii) : N :=
  let n := N_of_ascii c in if (n <? 58)%N then n - 48 else n - 87.

Definition unesc_head (s : str8) : option (N * str8) :=
  match s with
  | EmptyString => None
  | String c rest =>
      if Ascii.eqb c dquote then None
      else if Ascii.eqb c "\" then
        match rest with
        | EmptyString => None
        | String x rest' =>
            if Ascii.eqb x dquote then Some (34%N, rest')
            else if Ascii.eqb x "\" then Some (92%N, rest')
            else if Ascii.eqb x "n" then Some (10%N, rest')
            else if Ascii.eqb x "r" then Some (13%N, rest')
            else if Ascii.eqb x "t" then Some (9%N, rest')
            else if Ascii.eqb x "f" then Some (12%N, rest')
            else if Ascii.eqb x "b" then Some (8%N, rest')
            else
              match rest' with
              | String a (String b (String h (String l rest''))) =>
                  Some ((4096 * hex_value a + 256 * hex_value b
                         + 16 * hex_value h + hex_value l)%N, rest'')
              | _ => None
              end
        end
      else Some (N_of_ascii c, rest)
  end.

(** A string that holds no comma, as the digits of an integer. *)
Definition no_comma (s : str8) : Prop :=
  forall a b, s <> a +++ String "," b.

(** A key of a dict in the canonical text, with its colon. *)
Definition json_key (k : str8) : str8 := String dquote (k +++ String dquote ":").

Definition utf8_head (bs : bytes) : option (ascii * bytes) :=
  match bs with
  | [] => None
  | b :: rest =>
      let n := Byte.to_N b in
      if (n <? 128)%N then Some (ascii_of_byte b, rest)
      else
        match rest with
        | [] => None
        | b' :: rest' =>
            Some (ascii_of_N ((n - 192) * 64 + (Byte.to_N b' - 128)), rest')
        end
  end.

(* ================================================================== *)
(** ** Certificates and sample data *)
(* ================================================================== *)

(** A certificate as [add_transaction] builds it. *)
Definition certificate (student_id name course grade : str) (issued_at : Z) : pyobj :=
  PDict [ (ustr "student_id", PStr student_id);
          (ustr "name", PStr name);
          (ustr "course", PStr course);
          (ustr "grade", PStr grade);
          (ustr "issued_at", PInt issued_at) ].

(** The records that [add_transaction] puts into the pool. *)
Definition is_certificate (t : pyobj) : Prop :=
  exists student_id name course grade issued_at,
    t = certificate student_id name course grade issued_at.

(** The pair by which [add_transaction] tells records apart, as the two
    subscripts give it. *)
Definition cert_key (t : pyobj) : outcome pyobj * outcome pyobj :=
  (dict_getitem t (ustr "student_id"), dict_getitem t (ustr "course")).

(** No two records of the list have the same pair. *)
Definition distinct_pairs (txs : list pyobj) : Prop := NoDup (map cert_key txs).

Section BlockInvariant.
Context {hasher : Hasher} {float_format : FloatFormat}.

(** What holds of the block at position [k] of a chain that the ledger has
    built itself with the given difficulty. *)
Definition block_ok (difficulty : Z) (k : nat) (b : Block.t) : Prop :=
  Block.index b = Z.of_nat k /\
  Block.merkle_root b = merkle_root (Block.transactions b) /\
  Block.hash b = Block.compute_hash b /\
  0 <= Block.nonce b /\
  Forall is_certificate (Block.transactions b) /\
  distinct_pairs (Block.transactions b) /\
  (k = 0%nat ->
   Block.transactions b = [] /\ Block.nonce b = 0 /\ Block.previous_hash b = "0") /\
  ((1 <= k)%nat ->
   Block.transactions b <> [] /\
   startswith (Block.hash b) (str_mul "0" difficulty) = true).

End BlockInvariant.

(** The same certificate, its fields put in another order. *)
Definition certificate_reordered (student_id name course grade : str) (issued_at : Z)
    : pyobj :=
  PDict [ (ustr "issued_at", PInt issued_at);
          (ustr "grade", PStr grade);
          (ustr "student_id", PStr student_id);
          (ustr "course", PStr course);
          (ustr "name", PStr name) ].

Definition cert_alice : pyobj :=
  certificate (ustr "S1") (ustr "Alice") (ustr "Math") (ustr "A") 1700000000.
Definition cert_bob : pyobj :=
  certificate (ustr "S2") (ustr "Bob") (ustr "Math") (ustr "B") 1700000001.
Definition cert_carol : pyobj :=
  certificate (ustr "S3") (ustr "Carol") (ustr "Physics") (ustr "C") 1700000002.

Definition three_certs : list pyobj := [cert_alice; cert_bob; cert_carol].

(** A name of one character from [0x10000] on, the name made of the two
    surrogates that stand for that character in UTF-16, and a certificate
    with each. *)
Definition emoji_name : str := [0x1F600%N].
Definition emoji_pair_name : str := [0xD83D%N; 0xDE00%N].

Definition cert_emoji : pyobj :=
  certificate (ustr "S4") emoji_name (ustr "Math") (ustr "A") 1700000003.
Definition cert_emoji_pair : pyobj :=
  certificate (ustr "S4") emoji_pair_name (ustr "Math") (ustr "A") 1700000003.

(** A clock reading on a whole second. *)
Definition clock (seconds : positive) : spec_float := S754_finite false seconds 0.

(** A fresh ledger of the default difficulty with Alice's and Bob's
    certificates pending. *)
Definition two_pending : outcome Blockchain.t :=
  let bc := Blockchain.init (hasher := hashlib_sha256) (float_format := whole_float_repr)
              DIFFICULTY (clock 1700000000) in
  r <- Blockchain.add_transaction (ustr "S1") (ustr "Alice") (ustr "Math") (ustr "A")
         (clock 1700000000) bc ;;
  r <- Blockchain.add_transaction (ustr "S2") (ustr "Bob") (ustr "Math") (ustr "B")
         (clock 1700000001) (snd r) ;;
  Returns (snd r).

(** The ledger of [two_pending], and the ledger with Alice's certificate
    alone. *)
Definition pool_ledger : Blockchain.t :=
  match two_pending with
  | Returns bc => bc
  | _ => Blockchain.mk DIFFICULTY [] [] None
  end.

Definition alice_ledger : Blockchain.t :=
  Blockchain.mk DIFFICULTY [cert_alice]
    (Blockchain.chain pool_ledger) (Blockchain.chain_json pool_ledger).

(** The clock reading at which the examples mine. *)
Definition mining_time : spec_float := clock 1700001885.

(** The proof that Alice's certificate is the first of the two sample
    certificates, the root of the two, and the digest of Bob's certificate
    with its first character changed from [c] to [d]. *)
Definition alice_proof : list (str8 * str8) :=
  [ ("c3eb063b4fd5a09cad98ef0cefb087624119bb8dca2fd3b9bd16a49903b55e89", "R") ].

Definition alice_bob_root : str8 :=
  "6c7e88ce6ccfe831068cf2ad83716c9cb117e2fe7942a814786b3e8ddbcf84fd".


(** The ledger after the two sample certificates have been mined at
    [mining_time], and a ledger of difficulty 0 with Alice's certificate
    pending. *)
Definition mined_ledger : Blockchain.t :=
  match Blockchain.mine (hasher := hashlib_sha256) (float_format := whole_float_repr)
          5 mining_time pool_ledger with
  | Returns (_, bc) => bc
  | _ => pool_ledger
  end.

Definition free_ledger : Blockchain.t :=
  Blockchain.mk 0 [cert_alice]
    (Blockchain.chain pool_ledger) (Blockchain.chain_json pool_ledger).

(** A ledger of difficulty 0 in which a certificate with the name of two
    surrogates has been mined. *)
Definition pair_ledger : Blockchain.t :=
  let bc := Blockchain.init (hasher := hashlib_sha256) (float_format := whole_float_repr)
              0 (clock 1700000000) in
  match (r <- Blockchain.add_transaction (ustr "S4") emoji_pair_name (ustr "Math")
                (ustr "A") (clock 1700000003) bc ;;
         Blockchain.mine (hasher := hashlib_sha256) (float_format := whole_float_repr)
           0 mining_time (snd r)) with
  | Returns (_, mined) => mined
  | _ => bc
  end.
(* ================================================================== *)
(** * Properties *)
(* ================================================================== *)

(** ** The library models on known values *)

(** The digests of the empty message and of ["abc"] (FIPS 180-4 test
    vectors), and of a message that is longer than one block. *)
Example sha256_empty :
  sha256 (Hasher := hashlib_sha256) []
  = "e3b0c44298fc1c149afbf4c8996fb92427ae41e4649b934ca495991b7852b855".
Proof. vm_compute. reflexivity. Qed.

Example sha256_abc :
  sha256 (Hasher := hashlib_sha256) (encode "abc")
  = "ba7816bf8f01cfea414140de5dae2223b00361a396177a9cb410ff61f20015ad".
Proof. vm_compute. reflexivity. Qed.

Example sha256_two_blocks :
  sha256 (Hasher := hashlib_sha256)
    (encode "abcdbcdecdefdefgefghfghighijhijkijkljklmklmnlmnomnopnopq")
  = "248d6a61d20638b8e5c026930c3e6039a33ce45964ff2167f6ecedd419db06c1".
Proof. vm_compute. reflexivity. Qed.

(** The canonical text of a certificate: keys in order, no blanks. *)
Example canonical_certificate :
  dumps (float_format := whole_float_repr)
    (certificate (ustr "S1") (ustr "Alice") (ustr "Math") (ustr "A") 1700000000)
  = "{" +++ String dquote "course" +++ String dquote ":"
        +++ String dquote "Math" +++ String dquote ","
        +++ String dquote "grade" +++ String dquote ":"
        +++ String dquote "A" +++ String dquote ","
        +++ String dquote "issued_at" +++ String dquote ":1700000000,"
        +++ String dquote "name" +++ String dquote ":"
        +++ String dquote "Alice" +++ String dquote ","
        +++ String dquote "student_id" +++ String dquote ":"
        +++ String dquote "S1" +++ String dquote "}".
Proof. vm_compute. reflexivity. Qed.

(** Boolean comparisons in the context, as propositions for [lia]. *)
Ltac prop_of_bool :=
  repeat match goal with
  | H : (_ <=? _) = true |- _ => apply Z.leb_le in H
  | H : (_ <=? _) = false |- _ => apply Z.leb_gt in H
  | H : (_ <? _) = true |- _ => apply Z.ltb_lt in H
  | H : (_ <? _) = false |- _ => apply Z.ltb_ge in H
  | H : (_ <=? _)%nat = true |- _ => apply Nat.leb_le in H
  | H : (_ <=? _)%nat = false |- _ => apply Nat.leb_gt in H
  | H : (_ <? _)%nat = true |- _ => apply Nat.ltb_lt in H
  | H : (_ <? _)%nat = false |- _ => apply Nat.ltb_ge in H
  end.

Ltac blia := prop_of_bool; lia.

(** ** Arithmetic of the proof index *)

Lemma lxor_one (z : Z) :
  Z.lxor z 1 = if Z.even z then z + 1 else z - 1.
Proof.
  assert (Hev : forall k, Z.lxor (2 * k) 1 = 2 * k + 1).
  { intro k. symmetry. apply Z.add_nocarry_lxor.
    change 1 with (Z.ones 1). rewrite Z.land_ones by lia.
    change (2 ^ 1) with 2. rewrite Z.mul_comm. apply Z.mod_mul. lia. }
  destruct (Z.even z) eqn:E.
  - apply Z.even_spec in E. destruct E as [k ->]. apply Hev.
  - assert (O : Z.odd z = true) by (rewrite <- Z.negb_even, E; reflexivity).
    apply Z.odd_spec in O. destruct O as [k ->].
    transitivity (Z.lxor (Z.lxor (2 * k) 1) 1); [ now rewrite Hev | ].
    rewrite Z.lxor_assoc, Z.lxor_nilpotent, Z.lxor_0_r. lia.
Qed.

Lemma half_double (k : nat) : (2 * k / 2 = k)%nat.
Proof. rewrite (Nat.mul_comm 2 k). apply Nat.div_mul. lia. Qed.

Lemma half_double_succ (k : nat) : ((2 * k + 1) / 2 = k)%nat.
Proof.
  rewrite (Nat.mul_comm 2 k), Nat.add_comm, Nat.div_add by lia. reflexivity.
Qed.

Lemma even_of_nat (n : nat) : Z.even (Z.of_nat n) = Nat.even n.
Proof.
  destruct (Nat.even n) eqn:E.
  - apply Nat.even_spec in E. destruct E as [k ->].
    rewrite Nat2Z.inj_mul. apply Z.even_spec. exists (Z.of_nat k). reflexivity.
  - assert (O : Nat.odd n = true) by (rewrite <- Nat.negb_even, E; reflexivity).
    apply Nat.odd_spec in O. destruct O as [k ->].
    rewrite <- Z.negb_odd. apply negb_false_iff. apply Z.odd_spec.
    exists (Z.of_nat k). lia.
Qed.

(** ** Python indexing *)

Lemma py_getitem_nat {A : Type} (l : list A) (i : nat) :
  py_getitem l (Z.of_nat i) = nth_error l i.
Proof.
  unfold py_getitem.
  destruct (0 <=? Z.of_nat i) eqn:E; [ now rewrite Nat2Z.id | blia ].
Qed.

Lemma py_getitem_in_range {A : Type} (l : list A) (i : Z) :
  - Z.of_nat (length l) <= i < Z.of_nat (length l) ->
  exists x, py_getitem l i = Some x.
Proof.
  intros Hi. unfold py_getitem.
  destruct (0 <=? i) eqn:E0.
  - destruct (nth_error l (Z.to_nat i)) eqn:E; [ eauto | ].
    apply nth_error_None in E. blia.
  - destruct (- Z.of_nat (length l) <=? i) eqn:E1; [ | blia ].
    destruct (nth_error l (Z.to_nat (Z.of_nat (length l) + i))) eqn:E; [ eauto | ].
    apply nth_error_None in E. blia.
Qed.

Lemma py_getitem_out_of_range {A : Type} (l : list A) (i : Z) :
  i < - Z.of_nat (length l) \/ Z.of_nat (length l) <= i ->
  py_getitem l i = None.
Proof.
  intros Hi. unfold py_getitem.
  destruct (0 <=? i) eqn:E0.
  - apply nth_error_None. blia.
  - destruct (- Z.of_nat (length l) <=? i) eqn:E1; [ blia | reflexivity ].
Qed.

(** ** Layers *)

Lemma list_pair_ind {A : Type} (P : list A -> Prop) :
  P [] -> (forall a, P [a]) -> (forall a b l, P l -> P (a :: b :: l)) ->
  forall l, P l.
Proof.
  intros H0 H1 H2.
  assert (forall l, P l /\ forall a, P (a :: l)) as Hboth.
  { induction l as [|b l [IH1 IH2]]; split; auto. }
  intro l. apply Hboth.
Qed.

Section MerkleFacts.
Context {hasher : Hasher} {float_format : FloatFormat}.

Lemma pad_even_length (l : list str8) :
  length (pad_even l) = (length l + (if Nat.odd (length l) then 1 else 0))%nat.
Proof.
  unfold pad_even. destruct (Nat.odd (length l)).
  - rewrite length_app. reflexivity.
  - lia.
Qed.

Lemma pad_even_is_even (l : list str8) : Nat.even (length (pad_even l)) = true.
Proof.
  rewrite pad_even_length. destruct (Nat.odd (length l)) eqn:E.
  - rewrite Nat.add_1_r, Nat.even_succ. exact E.
  - rewrite Nat.add_0_r, <- Nat.negb_odd, E. reflexivity.
Qed.

Lemma pad_even_nth (l : list str8) (i : nat) :
  (i < length l)%nat -> nth i (pad_even l) "" = nth i l "".
Proof.
  intro Hi. unfold pad_even. destruct (Nat.odd (length l)); [ | reflexivity ].
  now rewrite app_nth1.
Qed.

Lemma pair_hashes_length (l : list str8) :
  length (pair_hashes l) = (length l / 2)%nat.
Proof.
  induction l as [ | a | a b l IH ] using list_pair_ind; try reflexivity.
  cbn [pair_hashes length]. rewrite IH.
  change (S (S (length l))) with (1 * 2 + length l)%nat.
  rewrite Nat.div_add_l by lia. reflexivity.
Qed.

Lemma pair_hashes_nth (l : list str8) (k : nat) :
  (2 * k + 1 < length l)%nat ->
  nth k (pair_hashes l) "" =
  sha256 (encode (nth (2 * k) l "" +++ nth (2 * k + 1) l "")).
Proof.
  revert k. induction l as [ | a | a b l IH ] using list_pair_ind; intros k Hk.
  - cbn in Hk. lia.
  - cbn in Hk. lia.
  - destruct k as [|k].
    + reflexivity.
    + cbn [pair_hashes nth]. rewrite IH by (cbn [length] in Hk; lia).
      replace (2 * S k)%nat with (S (S (2 * k))) by lia.
      replace (S (S (2 * k)) + 1)%nat with (S (S (2 * k + 1))) by lia.
      reflexivity.
Qed.

Lemma even_length_half (n : nat) :
  Nat.even n = true -> (2 * (n / 2) = n)%nat.
Proof.
  intro E. apply Nat.even_spec in E. destruct E as [k ->].
  now rewrite half_double.
Qed.

Lemma next_layer_length (l : list str8) :
  (2 * length (next_layer l) = length (pad_even l))%nat.
Proof.
  unfold next_layer. rewrite pair_hashes_length.
  apply even_length_half, pad_even_is_even.
Qed.

Lemma next_layer_shrinks (l : list str8) :
  (1 < length l)%nat ->
  (1 <= length (next_layer l) < length l)%nat.
Proof.
  intro Hl. pose proof (next_layer_length l) as E.
  rewrite pad_even_length in E. destruct (Nat.odd (length l)); lia.
Qed.

(** The sibling of position [i] in the padded layer and the side it is
    on: what one iteration of [merkle_proof] records. *)
Lemma sibling_step (cur : list str8) (i : nat) :
  (i < length cur)%nat ->
  exists s,
    py_getitem (pad_even cur) (Z.lxor (Z.of_nat i) 1) = Some s /\
    step_digest (nth i cur "")
      (s, if Z.lxor (Z.of_nat i) 1 <? Z.of_nat i then "L" else "R")
    = nth (i / 2) (next_layer cur) "".
Proof.
  intro Hi.
  pose proof (pad_even_is_even cur) as Hev.
  pose proof (pad_even_length cur) as Hlen.
  assert (Hle : (length cur <= length (pad_even cur))%nat)
    by (rewrite Hlen; lia).
  rewrite lxor_one, even_of_nat.
  destruct (Nat.even i) eqn:Ei.
  - (* the sibling is on the right *)
    apply Nat.even_spec in Ei. destruct Ei as [k ->].
    assert (Hk : (2 * k + 1 < length (pad_even cur))%nat).
    { apply Nat.even_spec in Hev. destruct Hev as [m Hm]. lia. }
    exists (nth (2 * k + 1) (pad_even cur) "").
    replace (Z.of_nat (2 * k) + 1) with (Z.of_nat (2 * k + 1)) by lia.
    rewrite py_getitem_nat. split.
    + apply nth_error_nth'. exact Hk.
    + destruct (Z.of_nat (2 * k + 1) <? Z.of_nat (2 * k)) eqn:E; [ blia | ].
      cbn [step_digest step_input]. change ("R" =? "L")%string with false. cbv iota.
      unfold next_layer. rewrite half_double.
      rewrite pair_hashes_nth by exact Hk.
      rewrite (pad_even_nth cur (2 * k)) by lia.
      reflexivity.
  - (* the sibling is on the left *)
    assert (O : Nat.odd i = true) by (rewrite <- Nat.negb_even, Ei; reflexivity).
    apply Nat.odd_spec in O. destruct O as [k ->].
    exists (nth (2 * k) (pad_even cur) "").
    replace (Z.of_nat (2 * k + 1) - 1) with (Z.of_nat (2 * k)) by lia.
    rewrite py_getitem_nat. split.
    + apply nth_error_nth'. lia.
    + destruct (Z.of_nat (2 * k) <? Z.of_nat (2 * k + 1)) eqn:E; [ | blia ].
      cbn [step_digest step_input]. change ("L" =? "L")%string with true. cbv iota.
      unfold next_layer. rewrite half_double_succ.
      rewrite pair_hashes_nth by lia.
      rewrite (pad_even_nth cur (2 * k + 1)) by lia.
      reflexivity.
Qed.

Lemma grow_layers_nonempty (fuel : nat) (cur : list str8) :
  grow_layers fuel cur <> [].
Proof.
  destruct fuel; cbn [grow_layers]; [ easy | ].
  destruct (1 <? length cur)%nat; easy.
Qed.

Lemma grow_layers_step (fuel : nat) (cur : list str8) :
  (1 < length cur)%nat ->
  grow_layers (S fuel) cur = cur :: grow_layers fuel (next_layer cur).
Proof.
  intro Hl. cbn [grow_layers].
  destruct (1 <? length cur)%nat eqn:E; [ reflexivity | blia ].
Qed.

Lemma grow_layers_stop (fuel : nat) (cur : list str8) :
  (length cur <= 1)%nat -> grow_layers fuel cur = [cur].
Proof.
  intro Hl. destruct fuel; cbn [grow_layers]; [ reflexivity | ].
  destruct (1 <? length cur)%nat eqn:E; [ blia | reflexivity ].
Qed.

(** With fuel for every halving, the result does not depend on the fuel:
    the loop has ended by itself. *)
Lemma grow_layers_enough (f1 f2 : nat) (cur : list str8) :
  (length cur <= S f1)%nat -> (length cur <= S f2)%nat ->
  grow_layers f1 cur = grow_layers f2 cur.
Proof.
  revert f2 cur. induction f1 as [|f1 IH]; intros f2 cur H1 H2.
  - rewrite (grow_layers_stop f2) by lia. reflexivity.
  - destruct (Nat.le_gt_cases (length cur) 1) as [Hs|Hl].
    + now rewrite !grow_layers_stop by lia.
    + destruct f2 as [|f2]; [ lia | ].
      rewrite !grow_layers_step by lia. f_equal.
      pose proof (next_layer_shrinks cur Hl). apply IH; lia.
Qed.

Lemma grow_layers_top (fuel : nat) (cur : list str8) :
  (1 <= length cur <= S fuel)%nat ->
  length (last (grow_layers fuel cur) []) = 1%nat.
Proof.
  revert cur. induction fuel as [|fuel IH]; intros cur Hl.
  - cbn. lia.
  - destruct (Nat.le_gt_cases (length cur) 1) as [Hs|Hg].
    + rewrite grow_layers_stop by lia. cbn. lia.
    + rewrite grow_layers_step by lia.
      pose proof (next_layer_shrinks cur Hg).
      cbn [last]. destruct (grow_layers fuel (next_layer cur)) eqn:E.
      * now apply grow_layers_nonempty in E.
      * rewrite <- E. apply IH. lia.
Qed.

Lemma leaf_hashes_length (items : list pyobj) :
  length (leaf_hashes items) = Nat.max 1 (length items).
Proof.
  unfold leaf_hashes. destruct items as [|x items]; [ reflexivity | ].
  cbn [map length]. rewrite length_map. lia.
Qed.

Lemma leaf_hashes_nonempty (items : list pyobj) :
  items <> [] -> leaf_hashes items = map (fun x => sha256 (canonical x)) items.
Proof.
  destruct items; [ congruence | reflexivity ].
Qed.

(** [merkle_layers] ends with a layer of exactly one digest, the root: the
    [while] loop has run to its end. *)
Lemma merkle_layers_top (items : list pyobj) :
  last (merkle_layers items) [] = [merkle_root items].
Proof.
  unfold merkle_root.
  assert (Hl : length (last (merkle_layers items) []) = 1%nat).
  { unfold merkle_layers. apply grow_layers_top.
    rewrite leaf_hashes_length. lia. }
  destruct (last (merkle_layers items) []) as [|r [|? ?]];
    cbn [length] in Hl; try discriminate.
  reflexivity.
Qed.

(** The heart of the round trip, for the loop started at any layer. *)
Lemma proof_path_folds (fuel : nat) (cur : list str8) (i : nat) :
  (i < length cur)%nat -> (length cur <= S fuel)%nat ->
  exists proof,
    proof_path (removelast (grow_layers fuel cur)) (Z.of_nat i) = Returns proof /\
    fold_left step_digest proof (nth i cur "")
    = hd "" (last (grow_layers fuel cur) []).
Proof.
  revert cur i. induction fuel as [|fuel IH]; intros cur i Hi Hl.
  - exists []. rewrite grow_layers_stop by lia.
    split; [ reflexivity | ].
    destruct cur as [|a cur]; cbn [length] in *; [ lia | ].
    destruct i; [ reflexivity | lia ].
  - destruct (Nat.le_gt_cases (length cur) 1) as [Hs|Hg].
    + exists []. rewrite grow_layers_stop by lia.
    split; [ reflexivity | ].
    destruct cur as [|a cur]; cbn [length] in *; [ lia | ].
    destruct i; [ reflexivity | lia ].
    + rewrite grow_layers_step by lia.
      pose proof (next_layer_shrinks cur Hg) as Hn.
      pose proof (next_layer_length cur) as Hn2.
      pose proof (pad_even_length cur) as Hp.
      assert (Hi2 : (i / 2 < length (next_layer cur))%nat).
      { apply Nat.Div0.div_lt_upper_bound.
        destruct (Nat.odd (length cur)); lia. }
      destruct (IH (next_layer cur) (i / 2)%nat Hi2 ltac:(lia))
        as (proof & Hpath & Hfold).
      destruct (sibling_step cur i Hi) as (s & Hs & Hstep).
      destruct (grow_layers fuel (next_layer cur)) as [|l ls] eqn:E.
      { now apply grow_layers_nonempty in E. }
      rewrite <- E in *.
      exists ((s, if Z.lxor (Z.of_nat i) 1 <? Z.of_nat i then "L" else "R") :: proof).
      split.
      * replace (removelast (cur :: grow_layers fuel (next_layer cur)))
          with (cur :: removelast (grow_layers fuel (next_layer cur)))
          by (rewrite E; reflexivity).
        cbn [proof_path]. rewrite Hs.
        replace (Z.of_nat i / 2) with (Z.of_nat (i / 2))
          by (rewrite Nat2Z.inj_div; reflexivity).
        rewrite Hpath. reflexivity.
      * cbn [fold_left]. rewrite Hstep, Hfold.
        rewrite E. cbn [last]. destruct ls; reflexivity.
Qed.

End MerkleFacts.

(** ** Strings of 8-bit code points among all strings *)

Lemma str_eqb_eq (a b : str) : str_eqb a b = true <-> a = b.
Proof.
  revert b. induction a as [|x a IH]; intros [|y b]; cbn [str_eqb];
    try (split; [ discriminate | discriminate ]);
    [ split; reflexivity | ].
  rewrite andb_true_iff, N.eqb_eq, IH.
  split; [ intros [-> ->]; reflexivity | intros [= -> ->]; auto ].
Qed.

Lemma str_eqb_refl (a : str) : str_eqb a a = true.
Proof. now apply str_eqb_eq. Qed.

Lemma str_eqb_neq (a b : str) : str_eqb a b = false <-> a <> b.
Proof.
  rewrite <- str_eqb_eq. destruct (str_eqb a b); split; congruence.
Qed.

Lemma ustr_app (a b : str8) : ustr (a +++ b) = ustr a ++ ustr b.
Proof.
  unfold ustr. induction a as [|c a IH]; cbn; [ reflexivity | now rewrite IH ].
Qed.

Lemma ustr_inj (a b : str8) : ustr a = ustr b -> a = b.
Proof.
  unfold ustr. revert b. induction a as [|c a IH]; intros [|c' b] E; cbn in E;
    try discriminate; [ reflexivity | ].
  injection E as Ec E. apply (f_equal ascii_of_N) in Ec.
  rewrite !ascii_N_embedding in Ec. subst c'. f_equal. now apply IH.
Qed.

Lemma str_eqb_ustr (a b : str8) : str_eqb (ustr a) (ustr b) = String.eqb a b.
Proof.
  destruct (String.eqb_spec a b) as [->|Hne].
  - apply str_eqb_refl.
  - apply str_eqb_neq. intro E. now apply ustr_inj in E.
Qed.

Lemma to_str8_ustr (t : str8) : to_str8 (ustr t) = Some t.
Proof.
  unfold ustr. induction t as [|c t IH]; cbn [list_ascii_of_string map to_str8];
    [ reflexivity | ].
  rewrite IH. pose proof (N_ascii_bounded c) as Hc.
  destruct (N.ltb_spec (N_of_ascii c) 256) as [_|Hge]; [ | lia ].
  now rewrite ascii_N_embedding.
Qed.

(** [encode] is what [s.encode()] gives on 8-bit strings. *)
Lemma utf8_code_point_ascii (c : ascii) :
  utf8_code_point (N_of_ascii c) = Returns (utf8_char c).
Proof.
  destruct c as [[] [] [] [] [] [] [] []]; reflexivity.
Qed.

Lemma encode_str_ustr (t : str8) : encode_str (ustr t) = Returns (encode t).
Proof.
  unfold ustr. induction t as [|c t IH]; cbn [list_ascii_of_string map encode_str encode];
    [ reflexivity | ].
  rewrite utf8_code_point_ascii, IH. reflexivity.
Qed.


Section StepsOfStrings.
Context {hasher : Hasher} {float_format : FloatFormat}.

(** On a step of 8-bit strings the loop of [verify_merkle_proof] hashes
    [step_input] and raises nothing. *)
Lemma fold_sibling_ustr (h : str8) (step : str8 * str8) :
  fold_sibling h (ustr (fst step), ustr (snd step)) = Returns (step_digest h step).
Proof.
  destruct step as [s d]. unfold step_digest, step_input.
  cbn [fst snd fold_sibling]. rewrite str_eqb_ustr.
  destruct (String.eqb d "L");
    rewrite <- ustr_app, encode_str_ustr; reflexivity.
Qed.

Lemma verify_loop_ustr (proof : list (str8 * str8)) (h : str8) :
  verify_loop (ustr_proof proof) h = Returns (fold_left step_digest proof h).
Proof.
  revert h. induction proof as [|step proof IH]; intro h;
    cbn [ustr_proof map verify_loop fold_left]; [ reflexivity | ].
  rewrite fold_sibling_ustr. cbn [bind]. apply IH.
Qed.

Lemma verify_ustr_proof (leaf : pyobj) (proof : list (str8 * str8)) (root : str) :
  verify_merkle_proof leaf (ustr_proof proof) root
  = Returns (str_eqb (ustr (fold_left step_digest proof (sha256 (canonical leaf))))
                     root).
Proof.
  unfold verify_merkle_proof. rewrite verify_loop_ustr. reflexivity.
Qed.

End StepsOfStrings.

(** ** Round trip of inclusion proofs *)

Section MerkleTheorems.
Context {hasher : Hasher} {float_format : FloatFormat}.

Lemma merkle_layers_cons (items : list pyobj) :
  (2 <= length items)%nat ->
  merkle_layers items =
  leaf_hashes items ::
    grow_layers (length items - 1) (next_layer (leaf_hashes items)).
Proof.
  intro Hn. unfold merkle_layers.
  rewrite leaf_hashes_length.
  replace (Nat.max 1 (length items)) with (S (length items - 1)) by lia.
  apply grow_layers_step. rewrite leaf_hashes_length. lia.
Qed.

Lemma merkle_layers_single (items : list pyobj) :
  (length items <= 1)%nat -> merkle_layers items = [leaf_hashes items].
Proof.
  intro Hn. unfold merkle_layers. apply grow_layers_stop.
  rewrite leaf_hashes_length. lia.
Qed.

Lemma removelast_cons_grow (cur : list str8) (fuel : nat) (nxt : list str8) :
  removelast (cur :: grow_layers fuel nxt) = cur :: removelast (grow_layers fuel nxt).
Proof.
  destruct (grow_layers fuel nxt) eqn:E; [ | reflexivity ].
  now apply grow_layers_nonempty in E.
Qed.

Lemma last_cons_grow (cur : list str8) (fuel : nat) (nxt : list str8) :
  last (cur :: grow_layers fuel nxt) [] = last (grow_layers fuel nxt) [].
Proof.
  destruct (grow_layers fuel nxt) eqn:E; [ | reflexivity ].
  now apply grow_layers_nonempty in E.
Qed.

(** C1. For a non-empty sequence of records and an index [0 <= index <
    len(records)], [merkle_proof] returns a proof, and
    [verify_merkle_proof] accepts the record at that index with this proof
    against [merkle_root(records)]. *)
Theorem merkle_round_trip (items : list pyobj) (index : Z) :
  0 <= index < Z.of_nat (length items) ->
  exists leaf proof,
    py_getitem items index = Some leaf /\
    merkle_proof items index = Returns proof /\
    verify_merkle_proof leaf (ustr_proof proof) (ustr (merkle_root items))
    = Returns true.
Proof.
  intros Hi.
  assert (Hne : items <> []) by (destruct items; cbn in Hi; [ lia | easy ]).
  set (i := Z.to_nat index).
  assert (Hidx : index = Z.of_nat i) by (unfold i; lia).
  assert (Hlt : (i < length items)%nat) by lia.
  destruct (nth_error items i) as [leaf|] eqn:Hleaf.
  2:{ apply nth_error_None in Hleaf. lia. }
  pose proof (leaf_hashes_nonempty items Hne) as Hleaves.
  assert (Hlen : length (leaf_hashes items) = length items)
    by (rewrite Hleaves; apply length_map).
  destruct (proof_path_folds (length (leaf_hashes items)) (leaf_hashes items) i)
    as (proof & Hpath & Hfold); [ lia | lia | ].
  exists leaf, proof. split; [ | split ].
  - rewrite Hidx. rewrite py_getitem_nat. exact Hleaf.
  - unfold merkle_proof, merkle_layers. rewrite Hidx. exact Hpath.
  - rewrite verify_ustr_proof. f_equal. apply str_eqb_eq. f_equal.
    unfold merkle_root, merkle_layers.
    rewrite <- Hfold. f_equal.
    rewrite Hleaves. symmetry.
    apply nth_error_nth. rewrite nth_error_map, Hleaf. reflexivity.
Qed.

(** ** The padding rule *)

Lemma pair_hashes_pad_odd (l : list str8) :
  Nat.odd (length l) = true ->
  next_layer l = pair_hashes (l ++ [last l ""]).
Proof.
  intro Ho. unfold next_layer, pad_even. now rewrite Ho.
Qed.

Lemma next_layer_even (l : list str8) :
  Nat.even (length l) = true -> next_layer l = pair_hashes l.
Proof.
  intro He. unfold next_layer, pad_even.
  now rewrite <- Nat.negb_even, He.
Qed.

Lemma py_getitem_last {A : Type} (l : list A) (x d : A) :
  py_getitem l (-1) = Some x -> last l d = x /\ l <> [].
Proof.
  unfold py_getitem. cbn [Z.leb Z.compare].
  destruct (- Z.of_nat (length l) <=? -1) eqn:E; [ | discriminate ].
  intro Hn. prop_of_bool.
  assert (Hl : l <> []) by (destruct l; cbn in E; [ lia | easy ]).
  split; [ | exact Hl ].
  destruct (exists_last Hl) as (l' & y & ->).
  rewrite last_last. rewrite length_app in Hn. cbn [length] in Hn.
  replace (Z.to_nat (Z.of_nat (length l' + 1) + -1)) with (length l') in Hn by lia.
  rewrite nth_error_app2, Nat.sub_diag in Hn by lia. cbn in Hn. congruence.
Qed.

(** C3 (as amended). For a sequence of records of odd length at least 3,
    the root is the root of the sequence with its final record appended
    once more; and in the loop of [merkle_layers] a layer of odd length
    with more than one digest is followed by the pairing of that layer
    with its last digest appended.  A single record is not padded: the
    loop does not run on it, its digest is the only layer and the root,
    while the root of the record listed twice is the digest of that digest
    written twice. *)
Theorem odd_length_padding :
  (forall (items : list pyobj) (final : pyobj),
     Nat.odd (length items) = true ->
     (3 <= length items)%nat ->
     py_getitem items (-1) = Some final ->
     merkle_root items = merkle_root (items ++ [final])) /\
  (forall (fuel : nat) (layer : list str8),
     Nat.odd (length layer) = true ->
     (1 < length layer)%nat ->
     grow_layers (S fuel) layer
     = layer :: grow_layers fuel (pair_hashes (layer ++ [last layer ""]))) /\
  (forall record : pyobj,
     merkle_layers [record] = [[sha256 (canonical record)]] /\
     merkle_root [record] = sha256 (canonical record) /\
     merkle_root ([record] ++ [record])
     = sha256 (encode (sha256 (canonical record) +++ sha256 (canonical record)))).
Proof.
  split; [ | split ].
  - intros items final Ho Hn Hlast.
    destruct (py_getitem_last items final (PList []) Hlast) as [Hl Hne].
    pose proof (leaf_hashes_nonempty items Hne) as Hleaves.
    assert (Hne' : items ++ [final] <> []) by (destruct items; easy).
    pose proof (leaf_hashes_nonempty _ Hne') as Hleaves'.
    assert (Hlen : length (leaf_hashes items) = length items)
      by (rewrite Hleaves; apply length_map).
    assert (Hpad : leaf_hashes (items ++ [final])
                   = leaf_hashes items ++ [last (leaf_hashes items) ""]).
    { rewrite Hleaves', Hleaves, map_app. cbn [map]. f_equal. f_equal.
      destruct (exists_last Hne) as (l' & y & ->).
      rewrite last_last in Hl. subst y.
      rewrite map_app. cbn [map]. now rewrite last_last. }
    assert (Hnext : next_layer (leaf_hashes (items ++ [final]))
                    = next_layer (leaf_hashes items)).
    { rewrite (pair_hashes_pad_odd (leaf_hashes items)) by now rewrite Hlen.
      rewrite <- Hpad. apply next_layer_even.
      rewrite Hpad, length_app, Hlen. cbn [length].
      rewrite Nat.add_1_r, Nat.even_succ. exact Ho. }
    unfold merkle_root.
    rewrite (merkle_layers_cons items) by lia.
    rewrite (merkle_layers_cons (items ++ [final]))
      by (rewrite length_app; cbn [length]; lia).
    rewrite !last_cons_grow, Hnext. do 2 f_equal.
    pose proof (next_layer_shrinks (leaf_hashes items) ltac:(lia)) as Hs.
    rewrite length_app. cbn [length].
    apply grow_layers_enough; lia.
  - intros fuel layer Ho Hl.
    rewrite grow_layers_step by exact Hl.
    now rewrite pair_hashes_pad_odd.
  - intro record. split; [ reflexivity | split; reflexivity ].
Qed.

(** ** Indices out of range *)

Lemma lxor_one_range (M idx : Z) :
  Z.even M = true ->
  (- M <= Z.lxor idx 1 < M <-> - M <= idx < M).
Proof.
  intro HM. apply Z.even_spec in HM. destruct HM as [K ->].
  rewrite lxor_one. destruct (Z.even idx) eqn:E.
  - apply Z.even_spec in E. destruct E as [k ->]. lia.
  - assert (O : Z.odd idx = true) by (rewrite <- Z.negb_even, E; reflexivity).
    apply Z.odd_spec in O. destruct O as [k ->]. lia.
Qed.

Lemma pad_even_length_Z (l : list str8) :
  Z.of_nat (length (pad_even l))
  = Z.of_nat (length l) + Z.of_nat (length l) mod 2.
Proof.
  rewrite pad_even_length.
  destruct (Nat.odd (length l)) eqn:E.
  - apply Nat.odd_spec in E. destruct E as [k Hk]. rewrite Hk.
    Z.div_mod_to_equations. lia.
  - assert (Ev : Nat.even (length l) = true)
      by (rewrite <- Nat.negb_odd, E; reflexivity).
    apply Nat.even_spec in Ev. destruct Ev as [k Hk]. rewrite Hk.
    Z.div_mod_to_equations. lia.
Qed.

Lemma pad_even_length_even_Z (l : list str8) :
  Z.even (Z.of_nat (length (pad_even l))) = true.
Proof. rewrite even_of_nat. apply pad_even_is_even. Qed.

(** Inside the padded layer, on either side of zero, the loop of
    [merkle_proof] never leaves the layers above. *)
Lemma proof_path_total (fuel : nat) (cur : list str8) (idx : Z) :
  - Z.of_nat (length (pad_even cur)) <= idx < Z.of_nat (length (pad_even cur)) ->
  exists proof, proof_path (removelast (grow_layers fuel cur)) idx = Returns proof.
Proof.
  revert cur idx. induction fuel as [|fuel IH]; intros cur idx Hi.
  - exists []. reflexivity.
  - destruct (Nat.le_gt_cases (length cur) 1) as [Hs|Hg].
    + exists []. now rewrite grow_layers_stop by lia.
    + rewrite grow_layers_step by lia. rewrite removelast_cons_grow.
      cbn [proof_path].
      destruct (py_getitem_in_range (pad_even cur) (Z.lxor idx 1)) as [s Hs].
      { apply lxor_one_range; [ apply pad_even_length_even_Z | exact Hi ]. }
      rewrite Hs.
      destruct (IH (next_layer cur) (idx / 2)) as [proof Hp].
      { pose proof (next_layer_length cur) as Hn.
        pose proof (pad_even_length (next_layer cur)) as Hp.
        assert (Hge : (length (next_layer cur) <= length (pad_even (next_layer cur)))%nat)
          by lia.
        assert (E2 : Z.of_nat (length (pad_even cur))
                     = 2 * Z.of_nat (length (next_layer cur))) by lia.
        rewrite E2 in Hi.
        assert (- Z.of_nat (length (next_layer cur)) <= idx / 2
                < Z.of_nat (length (next_layer cur))).
        { split.
          - apply Z.div_le_lower_bound; lia.
          - apply Z.div_lt_upper_bound; lia. }
        lia. }
      rewrite Hp. eexists. reflexivity.
Qed.

(** C9 (as amended).  [merkle_proof] checks no index.  With [n] records
    and [m = n + n mod 2], the length of the leaf layer padded to an even
    one, it raises [IndexError] exactly when [n >= 2] and the index lies
    outside [-m <= index < m]; in every other case it returns a proof: for
    at most one record with any index at all (the proof is empty), for an
    odd [n] also with the index [n], and with negative indices down to
    [-m]. *)
Theorem merkle_proof_index_check (items : list pyobj) (index : Z) :
  let n := Z.of_nat (length items) in
  let m := n + n mod 2 in
  (merkle_proof items index = Raises IndexError <->
   2 <= n /\ (index < - m \/ m <= index)) /\
  (merkle_proof items index <> Raises IndexError ->
   exists proof, merkle_proof items index = Returns proof) /\
  (n <= 1 -> merkle_proof items index = Returns []).
Proof.
  intros n m.
  assert (Hsmall : n <= 1 -> merkle_proof items index = Returns []).
  { intro Hn. unfold merkle_proof.
    rewrite merkle_layers_single by lia. reflexivity. }
  destruct (Z.le_gt_cases n 1) as [Hn|Hn].
  - rewrite (Hsmall Hn).
    split; [ split; [ discriminate | intros [? _]; lia ] | ].
    split; [ intros _; eexists; reflexivity | reflexivity ].
  - assert (Hlen : length (leaf_hashes items) = length items)
      by (rewrite leaf_hashes_length; lia).
    assert (Hm : Z.of_nat (length (pad_even (leaf_hashes items))) = m)
      by (rewrite pad_even_length_Z, Hlen; reflexivity).
    assert (Hev : Z.even m = true)
      by (rewrite <- Hm; apply pad_even_length_even_Z).
    pose proof (lxor_one_range m index Hev) as Hrange.
    unfold merkle_proof. rewrite merkle_layers_cons by lia.
    rewrite removelast_cons_grow. cbn [proof_path].
    destruct (Z.lt_ge_cases index (- m)) as [Hlo|Hlo];
      [ | destruct (Z.le_gt_cases m index) as [Hhi|Hhi] ].
    1,2: rewrite py_getitem_out_of_range by (rewrite Hm; lia);
      (split; [ split; [ intros _; lia | reflexivity ] | ]);
      (split; [ intros Hc; now contradiction Hc | lia ]).
    destruct (py_getitem_in_range (pad_even (leaf_hashes items)) (Z.lxor index 1))
      as [s Hs]; [ rewrite Hm; lia | ].
    rewrite Hs.
    destruct (proof_path_total (length items - 1)
                (next_layer (leaf_hashes items)) (index / 2)) as [proof Hp].
    { pose proof (next_layer_length (leaf_hashes items)) as Hnl.
      pose proof (pad_even_length (next_layer (leaf_hashes items))) as Hpl.
      assert (E2 : m = 2 * Z.of_nat (length (next_layer (leaf_hashes items))))
        by lia.
      assert (- Z.of_nat (length (next_layer (leaf_hashes items))) <= index / 2
              < Z.of_nat (length (next_layer (leaf_hashes items)))).
      { split.
        - apply Z.div_le_lower_bound; lia.
        - apply Z.div_lt_upper_bound; lia. }
      lia. }
    rewrite Hp. cbn [bind].
    split; [ split; [ discriminate | intros [_ ?]; lia ] | ].
    split; [ intros _; eexists; reflexivity | lia ].
Qed.

(** ** Side tags *)

Lemma fold_sibling_not_L (h : str8) (s d : str) :
  d <> ustr "L" ->
  fold_sibling h (s, d) = (b <- encode_str (ustr h ++ s) ;; Returns (sha256 b)).
Proof.
  intro Hd. cbn [fold_sibling].
  destruct (str_eqb d (ustr "L")) eqn:E; [ | reflexivity ].
  apply str_eqb_eq in E. contradiction.
Qed.

Lemma fold_sibling_same_side (h : str8) (p p' : str * str) :
  same_side p p' -> fold_sibling h p' = fold_sibling h p.
Proof.
  destruct p as [s d], p' as [s' d']. intros [Hs Hd]. cbn in Hs, Hd. subst s'.
  cbn [fold_sibling].
  destruct (str_eqb d (ustr "L")) eqn:E, (str_eqb d' (ustr "L")) eqn:E';
    try reflexivity.
  - apply str_eqb_eq in E. apply str_eqb_neq in E'. tauto.
  - apply str_eqb_eq in E'. apply str_eqb_neq in E. tauto.
Qed.

(** C10. [verify_merkle_proof] never looks at a side tag beyond comparing it
    with ['L']: a step tagged with any other string is the step tagged
    ['R']; a proof in which tags other than ['L'] are replaced by other
    strings that are not ['L'] gets the same verdict; and a proof with a
    tag outside [{'L', 'R'}] can be accepted. *)
Theorem side_tags_unchecked :
  (forall h s d,
     d <> ustr "L" -> fold_sibling h (s, d) = fold_sibling h (s, ustr "R")) /\
  (forall leaf proof proof' root,
     Forall2 same_side proof proof' ->
     verify_merkle_proof leaf proof' root = verify_merkle_proof leaf proof root) /\
  (forall a b d,
     d <> ustr "L" ->
     verify_merkle_proof a [(ustr (sha256 (canonical b)), d)]
       (ustr (merkle_root [a; b])) = Returns true).
Proof.
  split; [ | split ].
  - intros h s d Hd. rewrite !fold_sibling_not_L; [ reflexivity | discriminate | exact
      Hd ].
  - intros leaf proof proof' root Hall. unfold verify_merkle_proof. f_equal.
    generalize (sha256 (canonical leaf)) as h.
    induction Hall as [|p p' l l' Hp _ IH]; intro h; [ reflexivity | ].
    cbn [verify_loop]. rewrite (fold_sibling_same_side h p p' Hp).
    destruct (fold_sibling h p) as [h'| |]; cbn [bind]; [ apply IH | reflexivity .. ].
  - intros a b d Hd. unfold verify_merkle_proof. cbn [verify_loop].
    rewrite fold_sibling_not_L by exact Hd.
    rewrite <- ustr_app, encode_str_ustr. cbn [bind].
    f_equal. apply str_eqb_refl.
Qed.

End MerkleTheorems.

(** ** The Merkle theorems on the sample certificates, with SHA-256 *)

(** The three sample certificates: the proof for the last one, which is
    paired with its own copy, is returned and accepted. *)
Lemma merkle_round_trip_witness :
  0 <= 2 < Z.of_nat (length three_certs) /\
  exists leaf proof,
    py_getitem three_certs 2 = Some leaf /\
    @merkle_proof hashlib_sha256 whole_float_repr three_certs 2 = Returns proof /\
    @verify_merkle_proof hashlib_sha256 whole_float_repr leaf (ustr_proof proof)
      (ustr (@merkle_root hashlib_sha256 whole_float_repr three_certs))
    = Returns true.
Proof.
  assert (Hi : 0 <= 2 < Z.of_nat (length three_certs)) by (cbn; lia).
  split; [ exact Hi | ].
  exact (@merkle_round_trip hashlib_sha256 whole_float_repr three_certs 2 Hi).
Defined.

(** A single certificate has odd length, and its root is not the root of
    the certificate listed twice. *)
Lemma odd_length_padding_counterexample :
  Nat.odd (length [cert_alice]) = true /\
  py_getitem [cert_alice] (-1) = Some cert_alice /\
  @merkle_root hashlib_sha256 whole_float_repr [cert_alice]
  <> @merkle_root hashlib_sha256 whole_float_repr ([cert_alice] ++ [cert_alice]).
Proof.
  split; [ reflexivity | split; [ reflexivity | ] ].
  vm_compute. discriminate.
Qed.

Lemma odd_length_padding_witness :
  @merkle_root hashlib_sha256 whole_float_repr three_certs
  = @merkle_root hashlib_sha256 whole_float_repr (three_certs ++ [cert_carol]).
Proof.
  apply (proj1 (@odd_length_padding hashlib_sha256 whole_float_repr)).
  - reflexivity.
  - cbn. lia.
  - reflexivity.
Defined.

(** Indices out of range for which a proof is returned: 3 of three
    records, -1 of three records, and 7 of one record. *)
Lemma merkle_proof_index_counterexample :
  ~ (0 <= 3 < Z.of_nat (length three_certs)) /\
  (exists proof,
     @merkle_proof hashlib_sha256 whole_float_repr three_certs 3 = Returns proof) /\
  (exists proof,
     @merkle_proof hashlib_sha256 whole_float_repr three_certs (-1) = Returns proof) /\
  @merkle_proof hashlib_sha256 whole_float_repr [cert_alice] 7 = Returns [].
Proof.
  split; [ cbn; lia | ].
  split; [ eexists; vm_compute; reflexivity | ].
  split; [ eexists; vm_compute; reflexivity | reflexivity ].
Qed.

Lemma merkle_proof_index_check_witness :
  @merkle_proof hashlib_sha256 whole_float_repr three_certs 4 = Raises IndexError.
Proof.
  apply (proj1 (@merkle_proof_index_check hashlib_sha256 whole_float_repr three_certs 4)).
  cbn. lia.
Defined.

Lemma side_tags_unchecked_witness :
  @verify_merkle_proof hashlib_sha256 whole_float_repr cert_alice
    [(ustr (@sha256 hashlib_sha256 (@canonical whole_float_repr cert_bob)), ustr "X")]
    (ustr (@merkle_root hashlib_sha256 whole_float_repr [cert_alice; cert_bob]))
  = Returns true.
Proof.
  apply (proj2 (proj2 (@side_tags_unchecked hashlib_sha256 whole_float_repr))).
  discriminate.
Defined.

(* ================================================================== *)
(** ** Proof of work *)
(* ================================================================== *)

Section LedgerTheorems.
Context {hasher : Hasher} {float_format : FloatFormat}.

Import Blockchain.

(** The digest of a block does not read its [hash] field, and the nonce is
    the only field the loop writes beside it. *)
Lemma compute_hash_set_hash (b : Block.t) (h : str8) :
  Block.compute_hash (Block.set_hash b h) = Block.compute_hash b.
Proof. reflexivity. Qed.

Ltac block_fields :=
  unfold Block.set_nonce, Block.set_hash in *;
  cbn [Block.index Block.transactions Block.timestamp Block.previous_hash
       Block.nonce Block.merkle_root Block.hash] in *.

Lemma bump_bump (b : Block.t) (n m : Z) : bump (bump b n) m = bump b (n + m).
Proof.
  unfold bump. destruct b. block_fields. rewrite Z.add_assoc. reflexivity.
Qed.

Lemma bump_zero (b : Block.t) :
  Block.hash b = Block.compute_hash b -> bump b 0 = b.
Proof.
  intro Hh. unfold bump. destruct b. block_fields.
  rewrite Z.add_0_r, <- Hh. reflexivity.
Qed.

Lemma proof_of_work_unfold (fuel : nat) (bc : t) (b : Block.t) :
  proof_of_work fuel bc b =
  if startswith (Block.hash b) (str_mul "0" (difficulty bc)) then Returns b
  else match fuel with
       | O => OutOfFuel
       | S fuel' => proof_of_work fuel' bc (bump b 1)
       end.
Proof. destruct fuel; reflexivity. Qed.

(** What the loop returns is the block after some number of turns, none
    of which was needed before: the first nonce that meets the target. *)
Lemma proof_of_work_returns (fuel : nat) (bc : t) (b b' : Block.t) :
  Block.hash b = Block.compute_hash b ->
  proof_of_work fuel bc b = Returns b' ->
  exists n : nat,
    (n <= fuel)%nat /\ b' = bump b (Z.of_nat n) /\
    startswith (Block.hash b') (str_mul "0" (difficulty bc)) = true /\
    forall k : nat, (k < n)%nat ->
      startswith (Block.hash (bump b (Z.of_nat k))) (str_mul "0" (difficulty bc)) = false.
Proof.
  revert b. induction fuel as [|fuel IH]; intros b Hh Hr;
    rewrite proof_of_work_unfold in Hr;
    destruct (startswith (Block.hash b) (str_mul "0" (difficulty bc))) eqn:E;
    try discriminate.
  1,2: injection Hr as <-; exists 0%nat;
    (split; [ lia | split; [ now rewrite bump_zero | split; [ exact E | lia ] ] ]).
  destruct (IH (bump b 1) (eq_refl _) Hr) as (n & Hn & -> & Hst & Hmin).
  exists (S n). split; [ lia | ]. split; [ | split ].
  - rewrite bump_bump. f_equal. lia.
  - exact Hst.
  - intros [|k] Hk.
    + cbn [Z.of_nat]. now rewrite bump_zero.
    + specialize (Hmin k ltac:(lia)). rewrite bump_bump in Hmin.
      replace (Z.of_nat (S k)) with (1 + Z.of_nat k) by lia. exact Hmin.
Qed.

Lemma proof_of_work_no_exception (fuel : nat) (bc : t) (b : Block.t) (e : exn) :
  proof_of_work fuel bc b <> Raises e.
Proof.
  revert b. induction fuel as [|fuel IH]; intro b;
    rewrite proof_of_work_unfold;
    destruct (startswith (Block.hash b) (str_mul "0" (difficulty bc)));
    try discriminate.
  apply IH.
Qed.

(** The loop ends as soon as the fuel reaches a nonce that meets the
    target. *)
Lemma proof_of_work_terminates (fuel n : nat) (bc : t) (b : Block.t) :
  Block.hash b = Block.compute_hash b ->
  startswith (Block.hash (bump b (Z.of_nat n))) (str_mul "0" (difficulty bc)) = true ->
  (n <= fuel)%nat ->
  exists b', proof_of_work fuel bc b = Returns b'.
Proof.
  revert n b. induction fuel as [|fuel IH]; intros n b Hh Hn Hle;
    rewrite proof_of_work_unfold;
    destruct (startswith (Block.hash b) (str_mul "0" (difficulty bc))) eqn:E;
    try (eexists; reflexivity).
  - assert (n = 0%nat) as -> by lia. cbn [Z.of_nat] in Hn.
    rewrite bump_zero in Hn by exact Hh. congruence.
  - destruct n as [|n].
    + cbn [Z.of_nat] in Hn. rewrite bump_zero in Hn by exact Hh. congruence.
    + apply (IH n); [ reflexivity | | lia ].
      rewrite bump_bump. replace (1 + Z.of_nat n) with (Z.of_nat (S n)) by lia.
      exact Hn.
Qed.

Lemma new_hash_fresh (index : Z) (txs : list pyobj) (now : spec_float)
    (prev : str8) (nonce : Z) :
  Block.hash (Block.new index txs now prev nonce)
  = Block.compute_hash (Block.new index txs now prev nonce).
Proof. reflexivity. Qed.

Lemma bump_fields (b : Block.t) (n : Z) :
  Block.index (bump b n) = Block.index b /\
  Block.transactions (bump b n) = Block.transactions b /\
  Block.timestamp (bump b n) = Block.timestamp b /\
  Block.previous_hash (bump b n) = Block.previous_hash b /\
  Block.merkle_root (bump b n) = Block.merkle_root b /\
  Block.nonce (bump b n) = Block.nonce b + n /\
  Block.hash (bump b n) = Block.compute_hash (bump b n).
Proof. destruct b. unfold bump. block_fields. repeat split. Qed.

Lemma candidate_bump (last : Block.t) (bc : t) (now : spec_float) (n : Z) :
  candidate last bc now n
  = bump (Block.new (Block.index last + 1) (unconfirmed_transactions bc)
                    now (Block.hash last) 0) n.
Proof. reflexivity. Qed.

(* ================================================================== *)
(** ** Mining *)
(* ================================================================== *)

Lemma mine_empty (fuel : nat) (now : spec_float) (bc : t) :
  unconfirmed_transactions bc = [] ->
  mine fuel now bc = Returns ((false, None), bc).
Proof. intro Hp. unfold mine. now rewrite Hp. Qed.

(** [mine] on a ledger with pending records and a last block: the call of
    [proof_of_work] decides. *)
Lemma mine_pending (fuel : nat) (now : spec_float) (bc : t) (last : Block.t) :
  unconfirmed_transactions bc <> [] ->
  last_block bc = Returns last ->
  mine fuel now bc =
  (new_block <- proof_of_work fuel bc (candidate last bc now 0) ;;
   Returns ((true, Some new_block),
            save_chain (mk (difficulty bc) [] (chain bc ++ [new_block]) (chain_json
                bc)))).
Proof.
  intros Hp Hl. unfold mine. rewrite Hl.
  destruct (unconfirmed_transactions bc) eqn:E; [ congruence | ].
  cbn [bind]. rewrite candidate_bump, bump_zero by reflexivity.
  rewrite E. reflexivity.
Qed.

(** All that a returning call of [mine] with pending records does. *)
Lemma mine_success (fuel : nat) (now : spec_float) (bc bc' : t) (last : Block.t)
    (res : bool * option Block.t) :
  unconfirmed_transactions bc <> [] ->
  last_block bc = Returns last ->
  mine fuel now bc = Returns (res, bc') ->
  exists (n : nat),
    (n <= fuel)%nat /\
    res = (true, Some (candidate last bc now (Z.of_nat n))) /\
    startswith (Block.hash (candidate last bc now (Z.of_nat n)))
               (str_mul "0" (difficulty bc)) = true /\
    bc' = save_chain (mk (difficulty bc) []
                         (chain bc ++ [candidate last bc now (Z.of_nat n)])
                         (chain_json bc)).
Proof.
  intros Hp Hl Hm. rewrite (mine_pending fuel now bc last Hp Hl) in Hm.
  destruct (proof_of_work fuel bc (candidate last bc now 0)) as [b| |] eqn:E;
    try discriminate.
  cbn [bind] in Hm. injection Hm as <- <-.
  rewrite candidate_bump, bump_zero in E by reflexivity.
  apply proof_of_work_returns in E; [ | reflexivity ].
  destruct E as (n & Hn & -> & Hst & _).
  exists n. rewrite candidate_bump. auto.
Qed.

Lemma last_block_some (bc : t) :
  chain bc <> [] -> exists last, last_block bc = Returns last.
Proof.
  intro Hc. unfold last_block.
  destruct (py_getitem_in_range (chain bc) (-1)) as [b Hb].
  { destruct (chain bc); [ congruence | cbn [length]; lia ]. }
  rewrite Hb. eauto.
Qed.

Lemma last_block_last (bc : t) (last : Block.t) :
  last_block bc = Returns last ->
  exists front, chain bc = front ++ [last].
Proof.
  unfold last_block.
  destruct (py_getitem (chain bc) (-1)) as [b|] eqn:E; [ | discriminate ].
  intro Hb. injection Hb as ->.
  destruct (py_getitem_last (chain bc) last last E) as [Hl Hne].
  destruct (exists_last Hne) as (front & y & Hc).
  rewrite Hc, last_last in Hl. subst y. eauto.
Qed.

(** C4. When [mine()] succeeds, the hash of the block it returns starts
    with ['0' * difficulty] (with ["000"] for the default difficulty 3), and
    the digest of the canonical encoding of its stored fields [index],
    [transactions], [timestamp], [previous_hash], [nonce] and [merkle_root]
    is the stored hash. *)
Theorem mining_validity (fuel : nat) (now : spec_float) (bc bc' : t) (blk : Block.t) :
  mine fuel now bc = Returns ((true, Some blk), bc') ->
  startswith (Block.hash blk) (str_mul "0" (difficulty bc)) = true /\
  (difficulty bc = DIFFICULTY -> startswith (Block.hash blk) "000" = true) /\
  Block.compute_hash blk = Block.hash blk /\
  sha256 (canonical (PDict [ (ustr "index", PInt (Block.index blk));
                             (ustr "transactions", PList (Block.transactions blk));
                             (ustr "timestamp", PFloat (Block.timestamp blk));
                             (ustr "previous_hash", PStr (ustr (Block.previous_hash
                                 blk)));
                             (ustr "nonce", PInt (Block.nonce blk));
                             (ustr "merkle_root", PStr (ustr (Block.merkle_root blk))) ]))
  = Block.hash blk.
Proof.
  intro Hm.
  assert (Hp : unconfirmed_transactions bc <> []).
  { intro Hp. rewrite mine_empty in Hm by exact Hp. discriminate. }
  destruct (last_block bc) as [last|e|] eqn:Hl.
  2,3: unfold mine in Hm; rewrite Hl in Hm;
    destruct (unconfirmed_transactions bc); discriminate.
  destruct (mine_success fuel now bc bc' last _ Hp Hl Hm) as (n & _ & Hres & Hst & _).
  injection Hres as ->.
  split; [ exact Hst | ]. split; [ | split ].
  - intro Hd. rewrite Hd in Hst. exact Hst.
  - reflexivity.
  - reflexivity.
Qed.

(** C5. The contract of [mine()] on a ledger whose chain has a last block.
    With an empty pool it returns failure and no block and leaves the
    ledger, the file included, as it was; it returns failure in no other
    case.  With pending records, a call that returns has appended exactly
    one block, with [index = last.index + 1], [previous_hash = last.hash],
    the pending records in order as transactions (and their Merkle root),
    and the clock reading as timestamp, has emptied the pool and has
    written the chain to the file; it raises no exception, and it does
    return once the fuel reaches a nonce that meets the target. *)
Theorem mine_contract (fuel : nat) (now : spec_float) (bc : t) (last : Block.t) :
  last_block bc = Returns last ->
  (unconfirmed_transactions bc = [] ->
   mine fuel now bc = Returns ((false, None), bc)) /\
  (forall r bc', mine fuel now bc = Returns ((false, r), bc') ->
     unconfirmed_transactions bc = [] /\ r = None /\ bc' = bc) /\
  (unconfirmed_transactions bc <> [] ->
   forall res bc', mine fuel now bc = Returns (res, bc') ->
     exists blk,
       res = (true, Some blk) /\
       chain bc' = chain bc ++ [blk] /\
       Block.index blk = Block.index last + 1 /\
       Block.previous_hash blk = Block.hash last /\
       Block.transactions blk = unconfirmed_transactions bc /\
       Block.timestamp blk = now /\
       Block.merkle_root blk = merkle_root (unconfirmed_transactions bc) /\
       unconfirmed_transactions bc' = [] /\
       difficulty bc' = difficulty bc /\
       chain_json bc' = Some (PList (map Block.to_dict (chain bc ++ [blk])))) /\
  (forall e, mine fuel now bc <> Raises e) /\
  (unconfirmed_transactions bc <> [] ->
   forall n : nat,
     startswith (Block.hash (candidate last bc now (Z.of_nat n)))
                (str_mul "0" (difficulty bc)) = true ->
     (n <= fuel)%nat ->
     exists blk bc', mine fuel now bc = Returns ((true, Some blk), bc')).
Proof.
  intro Hl. split; [ | split; [ | split; [ | split ] ] ].
  - apply mine_empty.
  - intros r bc' Hm.
    destruct (unconfirmed_transactions bc) as [|x p] eqn:Hp.
    + rewrite mine_empty in Hm by exact Hp. now injection Hm as <- <-.
    + assert (Hne : unconfirmed_transactions bc <> []) by (rewrite Hp; easy).
      destruct (mine_success fuel now bc bc' last _ Hne Hl Hm) as (n & _ & Hres & _).
      discriminate.
  - intros Hp res bc' Hm.
    destruct (mine_success fuel now bc bc' last _ Hp Hl Hm)
      as (n & _ & -> & _ & ->).
    eexists. split; [ reflexivity | ]. cbn. repeat split.
  - intros e Hm.
    destruct (unconfirmed_transactions bc) as [|x p] eqn:Hp.
    + rewrite mine_empty in Hm by exact Hp. discriminate.
    + assert (Hne : unconfirmed_transactions bc <> []) by (rewrite Hp; easy).
      rewrite (mine_pending fuel now bc last Hne Hl) in Hm.
      destruct (proof_of_work fuel bc (candidate last bc now 0)) eqn:E;
        try discriminate.
      cbn [bind] in Hm. injection Hm as ->.
      now apply proof_of_work_no_exception in E.
  - intros Hp n Hn Hle.
    rewrite (mine_pending fuel now bc last Hp Hl).
    rewrite candidate_bump in Hn.
    destruct (proof_of_work_terminates fuel n bc _ (new_hash_fresh _ _ _ _ _) Hn Hle)
      as [b' Hb].
    rewrite candidate_bump, bump_zero by reflexivity.
    rewrite Hb. cbn [bind]. eauto.
Qed.

End LedgerTheorems.

(* ================================================================== *)
(** ** Chain linkage *)
(* ================================================================== *)

Section ChainTheorems.
Context {hasher : Hasher} {float_format : FloatFormat}.

Import Blockchain.

Lemma linked_single (g : Block.t) : linked [g].
Proof.
  intros k b prev Hk Hb _. destruct k as [|k]; [ lia | ].
  cbn in Hb. destruct k; discriminate.
Qed.

Lemma linked_snoc (front : list Block.t) (last b : Block.t) :
  linked (front ++ [last]) ->
  Block.previous_hash b = Block.hash last ->
  linked ((front ++ [last]) ++ [b]).
Proof.
  intros Hlk Hb k b0 prev Hk Hb0 Hprev.
  assert (Hlen : length (front ++ [last]) = S (length front))
    by (rewrite length_app; cbn; lia).
  destruct (Nat.lt_ge_cases k (length (front ++ [last]))) as [Hlt|Hge].
  - rewrite nth_error_app1 in Hb0 by exact Hlt.
    rewrite nth_error_app1 in Hprev by lia.
    exact (Hlk k b0 prev Hk Hb0 Hprev).
  - rewrite nth_error_app2 in Hb0 by exact Hge.
    destruct (k - length (front ++ [last]))%nat as [|j] eqn:Ej.
    + cbn in Hb0. injection Hb0 as <-.
      assert (k - 1 = length front)%nat as Hk1 by lia.
      rewrite Hk1, nth_error_app1 in Hprev by lia.
      rewrite nth_error_app2, Nat.sub_diag in Hprev by lia.
      cbn in Hprev. injection Hprev as <-. exact Hb.
    + cbn in Hb0. destruct j; discriminate.
Qed.

Lemma add_transaction_frame (student_id name course grade : str) (now : spec_float)
    (bc bc' : t) (ok : bool) :
  add_transaction student_id name course grade now bc = Returns (ok, bc') ->
  chain bc' = chain bc /\ difficulty bc' = difficulty bc /\
  chain_json bc' = chain_json bc.
Proof.
  unfold add_transaction. destruct (py_int now); try discriminate. cbn [bind].
  destruct (pending_duplicate student_id course (unconfirmed_transactions bc))
    as [[|]| |]; try discriminate; cbn [bind];
    intro Hr; injection Hr as <- <-; auto.
Qed.

(** The chain of a reachable ledger starts with a genesis block and is
    linked. *)
Lemma reachable_chain (bc : t) :
  reachable bc ->
  linked (chain bc) /\
  exists genesis rest,
    chain bc = genesis :: rest /\ Block.previous_hash genesis = "0".
Proof.
  induction 1 as [ d now
                 | bc bc' sid name course grade now ok _ IH Hadd
                 | bc bc' fuel now res _ IH Hmine ].
  - split; [ apply linked_single | ]. eexists. exists []. split; reflexivity.
  - destruct (add_transaction_frame _ _ _ _ _ _ _ _ Hadd) as (-> & _ & _).
    exact IH.
  - destruct IH as (Hlk & g & rest & Hc & Hg).
    destruct (unconfirmed_transactions bc) as [|x p] eqn:Hp.
    + rewrite mine_empty in Hmine by exact Hp. injection Hmine as _ <-.
      split; [ exact Hlk | ]. eauto.
    + assert (Hne : unconfirmed_transactions bc <> []) by (rewrite Hp; easy).
      destruct (last_block_some bc) as [last Hl]; [ rewrite Hc; easy | ].
      destruct (mine_success fuel now bc bc' last res Hne Hl Hmine)
        as (n & _ & _ & _ & ->).
      cbn [save_chain chain].
      destruct (last_block_last bc last Hl) as [front Hf].
      split.
      * rewrite Hf. apply linked_snoc; [ now rewrite <- Hf | reflexivity ].
      * rewrite Hc. exists g, (rest ++ [candidate last bc now (Z.of_nat n)]).
        split; [ reflexivity | exact Hg ].
Qed.

(** C6. In every ledger reached from the creation of the genesis block by
    calls of [add_transaction] and [mine], each block [chain[k]] with
    [1 <= k < N] names the hash of [chain[k-1]] as its [previous_hash], and
    the genesis block [chain[0]] has [previous_hash] ["0"]. *)
Theorem chain_linkage (bc : t) :
  reachable bc ->
  (forall (k : nat) (b prev : Block.t),
     (1 <= k < length (chain bc))%nat ->
     nth_error (chain bc) k = Some b ->
     nth_error (chain bc) (k - 1) = Some prev ->
     Block.previous_hash b = Block.hash prev) /\
  (forall k : nat, (1 <= k < length (chain bc))%nat ->
     exists b prev, nth_error (chain bc) k = Some b /\
                    nth_error (chain bc) (k - 1) = Some prev) /\
  (exists genesis,
     nth_error (chain bc) 0 = Some genesis /\ Block.previous_hash genesis = "0").
Proof.
  intro Hr. destruct (reachable_chain bc Hr) as (Hlk & g & rest & Hc & Hg).
  split; [ | split ].
  - intros k b prev [Hk _]. apply Hlk. exact Hk.
  - intros k Hk.
    destruct (nth_error (chain bc) k) as [b|] eqn:Eb.
    2:{ apply nth_error_None in Eb. lia. }
    destruct (nth_error (chain bc) (k - 1)) as [p|] eqn:Ep.
    2:{ apply nth_error_None in Ep. lia. }
    eauto.
  - exists g. rewrite Hc. split; [ reflexivity | exact Hg ].
Qed.

(* ================================================================== *)
(** ** Duplicate rejection *)
(* ================================================================== *)

Lemma eq_str_true (v : pyobj) (s : str) : eq_str v s = true <-> v = PStr s.
Proof.
  destruct v; cbn; try (split; [ discriminate | discriminate ]).
  rewrite str_eqb_eq. split; [ now intros -> | now intros [= ->] ].
Qed.

Lemma pending_duplicate_spec (student_id course : str) (pending : list pyobj)
    (dup : bool) :
  pending_duplicate student_id course pending = Returns dup ->
  (dup = true <-> Exists (same_pair student_id course) pending).
Proof.
  induction pending as [|t rest IH]; cbn [pending_duplicate].
  - intros [= <-]. split; [ discriminate | intro Hex; inversion Hex ].
  - destruct (dict_getitem t (ustr "student_id")) as [sid| |] eqn:Es; try discriminate.
    cbn [bind].
    assert (Htail : Exists (same_pair student_id course) (t :: rest) ->
                    same_pair student_id course t \/
                    Exists (same_pair student_id course) rest)
      by (intro Hex; inversion Hex; auto).
    destruct (eq_str sid student_id) eqn:E1.
    + destruct (dict_getitem t (ustr "course")) as [c| |] eqn:Ec; try discriminate.
      cbn [bind]. destruct (eq_str c course) eqn:E2.
      * intros [= <-]. split; [ intros _ | reflexivity ].
        apply Exists_cons_hd. apply eq_str_true in E1, E2. subst.
        split; assumption.
      * intro Hr. rewrite (IH Hr). split; [ apply Exists_cons_tl | ].
        intro Hex. destruct (Htail Hex) as [[_ Hc]|Ht]; [ | exact Ht ].
        rewrite Ec in Hc. injection Hc as ->.
        cbn [eq_str] in E2. rewrite str_eqb_refl in E2. discriminate.
    + intro Hr. rewrite (IH Hr). split; [ apply Exists_cons_tl | ].
      intro Hex. destruct (Htail Hex) as [[Hs _]|Ht]; [ | exact Ht ].
      rewrite Es in Hs. injection Hs as ->.
      cbn [eq_str] in E1. rewrite str_eqb_refl in E1. discriminate.
Qed.

(** The two subscripts of the duplicate check on a certificate. *)
Lemma certificate_student_id (s n c g : str) (i : Z) :
  dict_getitem (certificate s n c g i) (ustr "student_id") = Returns (PStr s).
Proof. reflexivity. Qed.

Lemma certificate_course (s n c g : str) (i : Z) :
  dict_getitem (certificate s n c g i) (ustr "course") = Returns (PStr c).
Proof. reflexivity. Qed.

Lemma pending_duplicate_total (student_id course : str) (pending : list pyobj) :
  Forall is_certificate pending ->
  exists dup, pending_duplicate student_id course pending = Returns dup.
Proof.
  induction 1 as [|t rest (s & n & c & g & i & ->) _ [dup IH]];
    cbn [pending_duplicate].
  - eexists. reflexivity.
  - rewrite certificate_student_id, certificate_course. cbn [bind eq_str].
    destruct (str_eqb s student_id); [ destruct (str_eqb c course) | ];
      eauto.
Qed.

Lemma same_pair_certificate (student_id course s n c g : str) (i : Z) :
  same_pair student_id course (certificate s n c g i) <->
  s = student_id /\ c = course.
Proof.
  unfold same_pair. rewrite certificate_student_id, certificate_course. split.
  - intros [[= ->] [= ->]]. auto.
  - intros [-> ->]. auto.
Qed.

Lemma exists_same_pair (student_id course : str) (pending : list pyobj) :
  Forall is_certificate pending ->
  (Exists (same_pair student_id course) pending <->
   exists name grade issued_at,
     In (certificate student_id name course grade issued_at) pending).
Proof.
  intro Hall. rewrite Exists_exists. split.
  - intros (t & Hin & Hsp).
    rewrite Forall_forall in Hall.
    destruct (Hall t Hin) as (s & n & c & g & i & ->).
    apply same_pair_certificate in Hsp. destruct Hsp as [-> ->]. eauto.
  - intros (n & g & i & Hin). eexists. split; [ exact Hin | ].
    now apply same_pair_certificate.
Qed.

(** The pool of a reachable ledger holds certificates only. *)
Lemma reachable_pending (bc : t) :
  reachable bc -> Forall is_certificate (unconfirmed_transactions bc).
Proof.
  induction 1 as [ d now
                 | bc bc' sid name course grade now ok _ IH Hadd
                 | bc bc' fuel now res Hr IH Hmine ].
  - constructor.
  - unfold add_transaction in Hadd.
    destruct (py_int now) as [i| |]; try discriminate. cbn [bind] in Hadd.
    destruct (pending_duplicate sid course (unconfirmed_transactions bc))
      as [[|]| |]; try discriminate; cbn [bind] in Hadd;
      injection Hadd as _ <-; [ exact IH | ].
    cbn [unconfirmed_transactions]. apply Forall_app. split; [ exact IH | ].
    constructor; [ | constructor ].
    exists sid, name, course, grade, i. reflexivity.
  - destruct (unconfirmed_transactions bc) as [|x p] eqn:Hp.
    + rewrite mine_empty in Hmine by exact Hp. injection Hmine as _ <-.
      rewrite Hp. constructor.
    + assert (Hne : unconfirmed_transactions bc <> []) by (rewrite Hp; easy).
      destruct (reachable_chain bc Hr) as (_ & g & rest & Hc & _).
      destruct (last_block_some bc) as [last Hl]; [ rewrite Hc; easy | ].
      destruct (mine_success fuel now bc bc' last res Hne Hl Hmine)
        as (n & _ & _ & _ & ->).
      constructor.
Qed.

(** C7. [add_transaction] on a pool of certificates, at a clock reading
    [int()] accepts: the call returns; it returns [False] exactly when a
    pending certificate has the same [student_id] and [course] (whatever
    its name and grade), and then the ledger is unchanged; otherwise it
    returns [True] and the new certificate is the last of the pool.  Only
    the pool is searched: once [mine] has moved the pool into a block, the
    same pair is accepted again. *)
Theorem duplicate_rejection (student_id name course grade : str)
    (now : spec_float) (issued_at : Z) (bc : t) :
  py_int now = Returns issued_at ->
  Forall is_certificate (unconfirmed_transactions bc) ->
  (exists ok bc',
     add_transaction student_id name course grade now bc = Returns (ok, bc') /\
     (ok = false <->
      exists name' grade' issued_at',
        In (certificate student_id name' course grade' issued_at')
           (unconfirmed_transactions bc)) /\
     (ok = false -> bc' = bc) /\
     (ok = true ->
      unconfirmed_transactions bc'
      = unconfirmed_transactions bc
        ++ [certificate student_id name course grade issued_at] /\
      chain bc' = chain bc /\ difficulty bc' = difficulty bc /\
      chain_json bc' = chain_json bc)) /\
  (forall fuel now' blk mined,
     mine fuel now' bc = Returns ((true, Some blk), mined) ->
     Block.transactions blk = unconfirmed_transactions bc /\
     In blk (chain mined) /\
     exists bc',
       add_transaction student_id name course grade now mined = Returns (true, bc') /\
       unconfirmed_transactions bc'
       = [certificate student_id name course grade issued_at]).
Proof.
  intros Hnow Hall. split.
  - destruct (pending_duplicate_total student_id course _ Hall) as [dup Hd].
    pose proof (pending_duplicate_spec _ _ _ _ Hd) as Hspec.
    rewrite (exists_same_pair _ _ _ Hall) in Hspec.
    unfold add_transaction. rewrite Hnow. cbn [bind]. rewrite Hd. cbn [bind].
    destruct dup.
    + eexists. eexists. split; [ reflexivity | ].
      split; [ | split ]; [ | reflexivity | discriminate ].
      split; [ intros _; now apply Hspec | reflexivity ].
    + eexists. eexists. split; [ reflexivity | ].
      split; [ | split ]; [ | discriminate | intros _; cbn; auto ].
      split; [ discriminate | ]. intro Hex. apply Hspec in Hex. discriminate.
  - intros fuel now' blk mined Hm.
    assert (Hp : unconfirmed_transactions bc <> []).
    { intro Hp. rewrite mine_empty in Hm by exact Hp. discriminate. }
    destruct (last_block bc) as [last|e|] eqn:Hl.
    2,3: unfold mine in Hm; rewrite Hl in Hm;
      destruct (unconfirmed_transactions bc); discriminate.
    destruct (mine_success fuel now' bc mined last _ Hp Hl Hm)
      as (n & _ & Hres & _ & ->).
    injection Hres as ->.
    split; [ reflexivity | ]. split.
    + cbn [save_chain chain]. apply in_or_app. right. now left.
    + unfold add_transaction. rewrite Hnow. cbn. eexists. split; reflexivity.
Qed.

End ChainTheorems.

(* ================================================================== *)
(** ** The canonical encoding does not depend on the order of fields *)
(* ================================================================== *)

(** The order of strings by code points is total, antisymmetric and
    transitive. *)
Lemma str_leb_total (a b : str) : str_leb a b = true \/ str_leb b a = true.
Proof.
  revert b. induction a as [|x a IH]; intros [|y b]; cbn [str_leb]; auto.
  destruct (N.ltb_spec x y), (N.ltb_spec y x); auto; lia.
Qed.

Lemma str_leb_antisym (a b : str) :
  str_leb a b = true -> str_leb b a = true -> a = b.
Proof.
  revert b. induction a as [|x a IH]; intros [|y b]; cbn [str_leb];
    try discriminate; [ reflexivity | ].
  destruct (N.ltb_spec x y), (N.ltb_spec y x); try discriminate; try lia.
  intros H1 H2. assert (x = y) by lia. subst y. f_equal. now apply IH.
Qed.

Lemma str_leb_trans (a b c : str) :
  str_leb a b = true -> str_leb b c = true -> str_leb a c = true.
Proof.
  revert b c. induction a as [|x a IH]; intros [|y b] [|z c]; cbn [str_leb];
    try discriminate; try reflexivity.
  destruct (N.ltb_spec x y), (N.ltb_spec y x), (N.ltb_spec y z), (N.ltb_spec z y),
           (N.ltb_spec x z), (N.ltb_spec z x);
    try discriminate; try reflexivity; try lia.
  apply IH.
Qed.

Section SortItems.
Context {V : Type}.

(** Two items with different keys can be inserted in either order. *)
Lemma insert_item_comm (a b : str * V) (l : list (str * V)) :
  fst a <> fst b ->
  insert_item a (insert_item b l) = insert_item b (insert_item a l).
Proof.
  intro Hab.
  assert (Hexcl : str_leb (fst a) (fst b) = true ->
                  str_leb (fst b) (fst a) = true -> False).
  { intros H1 H2. apply Hab. now apply str_leb_antisym. }
  induction l as [|x l IH]; cbn [insert_item].
  - destruct (str_leb (fst a) (fst b)) eqn:E1,
             (str_leb (fst b) (fst a)) eqn:E2; try reflexivity.
    + now destruct Hexcl.
    + destruct (str_leb_total (fst a) (fst b)); congruence.
  - destruct (str_leb (fst b) (fst x)) eqn:Ebx,
             (str_leb (fst a) (fst x)) eqn:Eax; cbn [insert_item];
      rewrite ?Ebx, ?Eax.
    + destruct (str_leb (fst a) (fst b)) eqn:E1,
               (str_leb (fst b) (fst a)) eqn:E2; try reflexivity.
      * now destruct Hexcl.
      * destruct (str_leb_total (fst a) (fst b)); congruence.
    + destruct (str_leb (fst a) (fst b)) eqn:E1; [ | reflexivity ].
      pose proof (str_leb_trans _ _ _ E1 Ebx). congruence.
    + destruct (str_leb (fst b) (fst a)) eqn:E2; [ | reflexivity ].
      pose proof (str_leb_trans _ _ _ E2 Eax). congruence.
    + now rewrite IH.
Qed.

(** [sorted] yields one list for all orders of the same items. *)
Lemma sort_items_permutation (l l' : list (str * V)) :
  Permutation l l' -> NoDup (map fst l) -> sort_items l = sort_items l'.
Proof.
  induction 1 as [ | x l l' Hp IH | x y l | l l' l'' Hp1 IH1 Hp2 IH2 ];
    intro Hnd; cbn [sort_items fold_right].
  - reflexivity.
  - fold (sort_items l). fold (sort_items l'). f_equal. apply IH.
    cbn in Hnd. now inversion Hnd.
  - fold (sort_items l). apply insert_item_comm.
    cbn in Hnd. inversion Hnd as [|? ? Hin _]. subst.
    intro E. apply Hin. left. now symmetry.
  - rewrite IH1 by exact Hnd. apply IH2.
    eapply Permutation_NoDup; [ | exact Hnd ]. now apply Permutation_map.
Qed.

End SortItems.

Section CanonicalTheorems.
Context {hasher : Hasher} {float_format : FloatFormat}.

Lemma dumps_same_content :
  (forall a b, same_content a b -> dumps a = dumps b) /\
  (forall xs ys, same_elements xs ys -> map dumps xs = map dumps ys) /\
  (forall d d', same_items d d' ->
     map (fun kv => (fst kv, dumps (snd kv))) d
     = map (fun kv => (fst kv, dumps (snd kv))) d').
Proof.
  apply same_content_mutind; intros; cbn [dumps map fst snd];
    try reflexivity; try congruence.
  rewrite (sort_items_permutation
             (map (fun kv => (fst kv, dumps (snd kv))) d1)
             (map (fun kv => (fst kv, dumps (snd kv))) d1')).
  - congruence.
  - now apply Permutation_map.
  - now rewrite map_map.
Qed.

(** C8. The canonical bytes are a function of the content: objects of the
    same content, whatever the order in which the fields of their dicts
    were inserted, at any depth, have the same encoding; in particular a
    dict and any reordering of its items; hence the Merkle root of
    sequences of records of the same content is the same, and (the
    functions being functions of their arguments) so is the root of the
    same records computed again. *)
Theorem canonical_determinism :
  (forall a b, same_content a b -> canonical a = canonical b) /\
  (forall d d',
     NoDup (map fst d) -> Permutation d d' ->
     canonical (PDict d) = canonical (PDict d')) /\
  (forall items items',
     Forall2 same_content items items' ->
     merkle_layers items = merkle_layers items' /\
     merkle_root items = merkle_root items').
Proof.
  destruct dumps_same_content as (Hd & _ & _).
  split; [ | split ].
  - intros a b Hab. unfold canonical. now rewrite (Hd a b Hab).
  - intros d d' Hnd Hp. unfold canonical. cbn [dumps].
    rewrite (sort_items_permutation
               (map (fun kv => (fst kv, dumps (snd kv))) d)
               (map (fun kv => (fst kv, dumps (snd kv))) d')).
    + reflexivity.
    + now apply Permutation_map.
    + now rewrite map_map.
  - intros items items' Hall.
    assert (Hl : leaf_hashes items = leaf_hashes items').
    { unfold leaf_hashes.
      replace (map (fun x => sha256 (canonical x)) items')
        with (map (fun x => sha256 (canonical x)) items); [ reflexivity | ].
      induction Hall as [|a b l l' Hab _ IH]; [ reflexivity | ].
      cbn [map]. unfold canonical at 1 3. rewrite (Hd a b Hab). now rewrite IH. }
    unfold merkle_root, merkle_layers. rewrite Hl. split; reflexivity.
Qed.

End CanonicalTheorems.

(** Alice's certificate with its fields in the order of [add_transaction]
    and in another order: the same bytes and the same root. *)
Lemma canonical_determinism_witness :
  @canonical whole_float_repr (certificate (ustr "S1") (ustr "Alice") (ustr "Math")
      (ustr "A") 1700000000)
  = @canonical whole_float_repr
      (certificate_reordered (ustr "S1") (ustr "Alice") (ustr "Math") (ustr "A")
          1700000000) /\
  @merkle_root hashlib_sha256 whole_float_repr
    [certificate (ustr "S1") (ustr "Alice") (ustr "Math") (ustr "A") 1700000000; cert_bob]
  = @merkle_root hashlib_sha256 whole_float_repr
      [certificate_reordered (ustr "S1") (ustr "Alice") (ustr "Math") (ustr "A")
          1700000000; cert_bob].
Proof.
  pose proof (@canonical_determinism hashlib_sha256 whole_float_repr)
    as (_ & Hperm & Hroot).
  assert (Hnd : NoDup (map fst [ (ustr "student_id", PStr (ustr "S1")); (ustr "name",
      PStr (ustr "Alice"));
                                 (ustr "course", PStr (ustr "Math")); (ustr "grade",
                                     PStr (ustr "A"));
                                 (ustr "issued_at", PInt 1700000000) ])).
  { cbn [map fst]. repeat constructor; cbn [In]; intuition discriminate. }
  assert (Hp : Permutation
                 [ (ustr "student_id", PStr (ustr "S1")); (ustr "name", PStr (ustr
                     "Alice"));
                   (ustr "course", PStr (ustr "Math")); (ustr "grade", PStr (ustr "A"));
                   (ustr "issued_at", PInt 1700000000) ]
                 [ (ustr "issued_at", PInt 1700000000); (ustr "grade", PStr (ustr "A"));
                   (ustr "student_id", PStr (ustr "S1")); (ustr "course", PStr (ustr
                       "Math"));
                   (ustr "name", PStr (ustr "Alice")) ]).
  { apply Permutation_sym.
    apply (Permutation_cons_app [_; _; _; _] []). cbn [app].
    apply (Permutation_cons_app [_; _; _] []). cbn [app].
    apply perm_skip. apply perm_swap. }
  split.
  - exact (Hperm _ _ Hnd Hp).
  - apply Hroot. constructor; [ | constructor; [ | constructor ] ].
    + eapply same_dict; [ exact Hnd | exact Hp | ].
      repeat constructor.
    + unfold cert_bob, certificate.
      eapply same_dict; [ | apply Permutation_refl | repeat constructor ].
      cbn [map fst]. repeat constructor; cbn [In]; intuition discriminate.
Defined.

(* ================================================================== *)
(** ** The ledger theorems on the sample ledger, with SHA-256 *)
(* ================================================================== *)

Section LedgerSamples.

#[local] Existing Instance hashlib_sha256.
#[local] Existing Instance whole_float_repr.

Import Blockchain.

(** Mining the two sample certificates at [mining_time]: the third nonce
    meets the target of three zeros. *)
Lemma sample_mining :
  exists blk bc',
    mine 5 mining_time pool_ledger = Returns ((true, Some blk), bc') /\
    Block.nonce blk = 2 /\
    Block.hash blk
    = "000c0565de044c5d74a34bf273286c9aa68bc928799dc81808b74975b2d01082".
Proof. vm_compute. eexists. eexists. repeat split. Qed.

Lemma mining_validity_witness :
  exists blk bc',
    mine 5 mining_time pool_ledger = Returns ((true, Some blk), bc') /\
    startswith (Block.hash blk) (str_mul "0" (difficulty pool_ledger)) = true /\
    (difficulty pool_ledger = DIFFICULTY -> startswith (Block.hash blk) "000" = true) /\
    Block.compute_hash blk = Block.hash blk /\
    sha256 (canonical (PDict [ (ustr "index", PInt (Block.index blk));
                               (ustr "transactions", PList (Block.transactions blk));
                               (ustr "timestamp", PFloat (Block.timestamp blk));
                               (ustr "previous_hash", PStr (ustr (Block.previous_hash
                                   blk)));
                               (ustr "nonce", PInt (Block.nonce blk));
                               (ustr "merkle_root", PStr (ustr (Block.merkle_root blk)))
                                   ]))
    = Block.hash blk.
Proof.
  destruct sample_mining as (blk & bc' & Hm & _).
  exists blk, bc'. split; [ exact Hm | ].
  exact (mining_validity 5 mining_time pool_ledger bc' blk Hm).
Defined.

(** The genesis block of the sample ledgers. *)
Lemma sample_last_block :
  last_block pool_ledger = Returns (Block.new 0 [] (clock 1700000000) "0" 0) /\
  unconfirmed_transactions pool_ledger = [cert_alice; cert_bob].
Proof. vm_compute. split; reflexivity. Qed.

Lemma mine_contract_witness :
  exists blk bc',
    mine 5 mining_time pool_ledger = Returns ((true, Some blk), bc') /\
    chain bc' = chain pool_ledger ++ [blk] /\
    Block.index blk = 0 + 1 /\
    Block.previous_hash blk = Block.hash (Block.new 0 [] (clock 1700000000) "0" 0) /\
    Block.transactions blk = [cert_alice; cert_bob] /\
    unconfirmed_transactions bc' = [] /\
    chain_json bc' = Some (PList (map Block.to_dict (chain pool_ledger ++ [blk]))).
Proof.
  destruct sample_last_block as [Hl Hp].
  pose proof (mine_contract 5 mining_time pool_ledger _ Hl)
    as (_ & _ & Hok & _ & Hterm).
  assert (Hne : unconfirmed_transactions pool_ledger <> [])
    by (rewrite Hp; discriminate).
  destruct (Hterm Hne 2%nat) as (blk & bc' & Hm);
    [ vm_compute; reflexivity | lia | ].
  destruct (Hok Hne _ _ Hm)
    as (blk' & Hres & Hc & Hi & Hprev & Htx & _ & _ & Hpool & _ & Hj).
  injection Hres as <-.
  exists blk, bc'. rewrite Hp in Htx. repeat split; assumption.
Defined.

(** The ledger after the sample block has been mined is reachable. *)
Lemma sample_reachable :
  exists blk bc',
    mine 5 mining_time pool_ledger = Returns ((true, Some blk), bc') /\
    reachable bc' /\ length (chain bc') = 2%nat.
Proof.
  destruct sample_mining as (blk & bc' & Hm & _).
  exists blk, bc'. split; [ exact Hm | ]. split.
  - apply (reach_mine pool_ledger bc' 5 mining_time _) with (2 := Hm).
    apply (reach_add
             (snd (true, mk DIFFICULTY [cert_alice] (chain pool_ledger)
                            (chain_json pool_ledger)))
             pool_ledger (ustr "S2") (ustr "Bob") (ustr "Math") (ustr "B") (clock
                 1700000001) true).
    + apply (reach_add (init DIFFICULTY (clock 1700000000)) _
               (ustr "S1") (ustr "Alice") (ustr "Math") (ustr "A") (clock 1700000000)
                   true).
      * apply reach_init.
      * vm_compute. reflexivity.
    + vm_compute. reflexivity.
  - destruct sample_mining as (blk2 & bc2 & Hm2 & _).
    revert Hm. vm_compute. intros [= <- <-]. reflexivity.
Qed.

Lemma chain_linkage_witness :
  exists bc,
    reachable bc /\ length (chain bc) = 2%nat /\
    (forall (k : nat) (b prev : Block.t),
       (1 <= k < length (chain bc))%nat ->
       nth_error (chain bc) k = Some b ->
       nth_error (chain bc) (k - 1) = Some prev ->
       Block.previous_hash b = Block.hash prev) /\
    (forall k : nat, (1 <= k < length (chain bc))%nat ->
       exists b prev, nth_error (chain bc) k = Some b /\
                      nth_error (chain bc) (k - 1) = Some prev) /\
    (exists genesis,
       nth_error (chain bc) 0 = Some genesis /\ Block.previous_hash genesis = "0").
Proof.
  destruct sample_reachable as (blk & bc & _ & Hr & Hlen).
  exists bc. split; [ exact Hr | ]. split; [ exact Hlen | ].
  exact (chain_linkage bc Hr).
Defined.

(** Alice's certificate is pending: a second submission for the pair
    (S1, Math) under another name and grade is refused; after mining it is
    accepted. *)
Lemma duplicate_rejection_witness :
  (exists ok bc',
     add_transaction (ustr "S1") (ustr "Alicia") (ustr "Math") (ustr "B") (clock
         1700000050) alice_ledger
     = Returns (ok, bc') /\
     (ok = false <->
      exists name' grade' issued_at',
        In (certificate (ustr "S1") name' (ustr "Math") grade' issued_at')
           (unconfirmed_transactions alice_ledger)) /\
     (ok = false -> bc' = alice_ledger) /\
     (ok = true ->
      unconfirmed_transactions bc'
      = unconfirmed_transactions alice_ledger
        ++ [certificate (ustr "S1") (ustr "Alicia") (ustr "Math") (ustr "B") 1700000050]
            /\
      chain bc' = chain alice_ledger /\ difficulty bc' = difficulty alice_ledger /\
      chain_json bc' = chain_json alice_ledger)) /\
  (forall fuel now' blk mined,
     mine fuel now' alice_ledger = Returns ((true, Some blk), mined) ->
     Block.transactions blk = unconfirmed_transactions alice_ledger /\
     In blk (chain mined) /\
     exists bc',
       add_transaction (ustr "S1") (ustr "Alicia") (ustr "Math") (ustr "B") (clock
           1700000050) mined
       = Returns (true, bc') /\
       unconfirmed_transactions bc'
       = [certificate (ustr "S1") (ustr "Alicia") (ustr "Math") (ustr "B") 1700000050]).
Proof.
  apply (duplicate_rejection (ustr "S1") (ustr "Alicia") (ustr "Math") (ustr "B") (clock
      1700000050)
           1700000050 alice_ledger).
  - reflexivity.
  - constructor; [ | constructor ].
    exists (ustr "S1"), (ustr "Alice"), (ustr "Math"), (ustr "A"), 1700000000.
        reflexivity.
Defined.

(** The second submission above is refused indeed. *)
Lemma sample_duplicate_refused :
  add_transaction (ustr "S1") (ustr "Alicia") (ustr "Math") (ustr "B") (clock
      1700000050) alice_ledger
  = Returns (false, alice_ledger).
Proof. vm_compute. reflexivity. Qed.

End LedgerSamples.

(* ================================================================== *)
(** ** Tamper sensitivity *)
(* ================================================================== *)

(** *** The encodings lose nothing *)




Lemma utf8_head_char (c : ascii) (rest : bytes) :
  utf8_head (utf8_char c ++ rest) = Some (c, rest).
Proof.
  destruct c as [[] [] [] [] [] [] [] []]; reflexivity.
Qed.

Lemma encode_inj (s1 s2 : str8) : encode s1 = encode s2 -> s1 = s2.
Proof.
  revert s2. induction s1 as [|c s1 IH]; intros [|c' s2] E; cbn [encode] in E.
  - reflexivity.
  - apply (f_equal utf8_head) in E. rewrite utf8_head_char in E. discriminate.
  - apply (f_equal utf8_head) in E. rewrite utf8_head_char in E. discriminate.
  - apply (f_equal utf8_head) in E. rewrite !utf8_head_char in E.
    injection E as -> E. f_equal. now apply IH.
Qed.

(** *** The escapes of a JSON string keep the UTF-16 code units *)

Lemma append_assoc (a b c : string) : (a +++ b) +++ c = a +++ (b +++ c).
Proof.
  induction a as [|x a IH]; cbn; [ reflexivity | now rewrite IH ].
Qed.

Lemma append_nil_r (a : string) : a +++ "" = a.
Proof.
  induction a as [|x a IH]; cbn; [ reflexivity | now rewrite IH ].
Qed.

Lemma lor_high (k y : N) : (y < 1024 -> N.lor (k * 1024) y = k * 1024 + y)%N.
Proof.
  intro Hy.
  assert (Hl : N.land (k * 1024) y = 0%N).
  { apply N.bits_inj. intro j. rewrite N.land_spec, N.bits_0.
    destruct (N.lt_ge_cases j 10) as [Hj|Hj].
    - change 1024%N with (2 ^ 10)%N.
      rewrite N.mul_pow2_bits_low by exact Hj. reflexivity.
    - rewrite andb_false_iff. right.
      destruct (N.eq_dec y 0) as [->|Hy0]; [ apply N.bits_0 | ].
      apply N.bits_above_log2.
      assert (N.log2 y < 10)%N; [ | lia ].
      apply N.log2_lt_pow2; [ lia | exact Hy ]. }
  rewrite N.add_nocarry_lxor by exact Hl.
  symmetry. apply N.lxor_lor. exact Hl.
Qed.

Lemma land_low (x : N) : N.land x 0x3FF = (x mod 1024)%N.
Proof. change 0x3FF%N with (N.ones 10). rewrite N.land_ones. reflexivity. Qed.

Lemma lor_high_bounds (k x : N) :
  (k * 1024 <= N.lor (k * 1024) (N.land x 0x3FF) < k * 1024 + 1024)%N.
Proof.
  rewrite land_low, lor_high by (apply N.mod_lt; lia).
  pose proof (N.mod_lt x 1024 ltac:(lia)) as H.
  revert H. generalize (x mod 1024)%N. intros y Hy. lia.
Qed.

(** The two surrogates of a code point from [0x10000] on, in arithmetic. *)
Lemma utf16_units_high (c : N) :
  (0x10000 <= c)%N ->
  utf16_units c
  = [ (0xD800 + (c - 0x10000) / 1024 mod 1024)%N;
      (0xDC00 + (c - 0x10000) mod 1024)%N ].
Proof.
  intro Hc. unfold utf16_units.
  destruct (N.ltb_spec c 0x10000) as [Hlt|_]; [ lia | ].
  cbv zeta. rewrite !land_low, N.shiftr_div_pow2.
  change (2 ^ 10)%N with 1024%N.
  change 0xD800%N with (54 * 1024)%N. change 0xDC00%N with (55 * 1024)%N.
  rewrite !lor_high by (apply N.mod_lt; lia). reflexivity.
Qed.

Lemma utf16_units_bounded (c u : N) : In u (utf16_units c) -> (u < 0x10000)%N.
Proof.
  destruct (N.lt_ge_cases c 0x10000) as [Hlo|Hhi].
  - unfold utf16_units. destruct (N.ltb_spec c 0x10000) as [_|Hge]; [ | lia ].
    intros [<-|[]]. exact Hlo.
  - rewrite utf16_units_high by exact Hhi.
    pose proof (N.mod_lt ((c - 0x10000) / 1024) 1024 ltac:(lia)) as H1.
    pose proof (N.mod_lt (c - 0x10000) 1024 ltac:(lia)) as H2.
    revert H1 H2.
    generalize ((c - 0x10000) / 1024 mod 1024)%N, ((c - 0x10000) mod 1024)%N.
    intros a b Ha Hb [<-|[<-|[]]]; lia.
Qed.

Lemma utf16_bounded (s : str) : Forall (fun u => (u < 0x10000)%N) (utf16 s).
Proof.
  apply Forall_forall. intros u Hu. unfold utf16 in Hu.
  apply in_flat_map in Hu. destruct Hu as (c & _ & Hc).
  now apply utf16_units_bounded in Hc.
Qed.

Lemma esc_units_app (a b : list N) : esc_units (a ++ b) = esc_units a +++ esc_units b.
Proof.
  induction a as [|u a IH]; cbn [app esc_units]; [ reflexivity | ].
  now rewrite IH, append_assoc.
Qed.

Lemma esc_char_units (c : N) : esc_char c = esc_units (utf16_units c).
Proof.
  unfold esc_char, utf16_units. destruct (c <? 0x10000)%N; cbn [esc_units].
  - now rewrite append_nil_r.
  - cbv zeta.
    set (s1 := N.lor 0xD800 (N.land (N.shiftr (c - 0x10000) 10) 0x3FF)).
    set (s2 := N.lor 0xDC00 (N.land (c - 0x10000) 0x3FF)).
    assert (H1 : (0xD800 <= s1)%N /\ (0xD800 <= s2)%N).
    { pose proof (lor_high_bounds 54 (N.shiftr (c - 0x10000) 10)) as B1.
      pose proof (lor_high_bounds 55 (c - 0x10000)) as B2.
      change (54 * 1024)%N with 0xD800%N in B1.
      change (55 * 1024)%N with 0xDC00%N in B2.
      fold s1 in B1. fold s2 in B2. clearbody s1 s2. lia. }
    assert (Hu : forall u, (0xD800 <= u)%N -> esc_unit u = "\u" +++ hex4 u).
    { intros u Hge. unfold esc_unit.
      repeat match goal with
      | |- context [N.eqb u ?k] => destruct (N.eqb_spec u k); [ lia | ]
      end.
      destruct (N.leb_spec u 126) as [|_]; [ lia | ].
      now rewrite andb_false_r. }
    destruct H1 as [B1 B2].
    rewrite (Hu s1 B1), (Hu s2 B2). cbn [String.append].
    now rewrite append_nil_r.
Qed.

Lemma esc_string_units (s : str) : esc_string s = esc_units (utf16 s).
Proof.
  induction s as [|c s IH]; cbn [esc_string utf16 flat_map]; [ reflexivity | ].
  fold (utf16 s). now rewrite esc_units_app, esc_char_units, IH.
Qed.

Lemma hex_value_lower (d : N) : (d < 16)%N -> hex_value (hex_lower d) = d.
Proof.
  intro Hd.
  destruct d as [|p]; [ reflexivity | ].
  do 4 (destruct p as [p|p|]; try reflexivity; try lia).
Qed.

Lemma hex4_value (n : N) :
  (n < 0x10000 ->
   4096 * (n / 4096 mod 16) + 256 * (n / 256 mod 16) + 16 * (n / 16 mod 16)
   + n mod 16 = n)%N.
Proof.
  intro Hn.
  replace (n / 4096)%N with (n / 16 / 16 / 16)%N
    by (rewrite !N.Div0.div_div; reflexivity).
  replace (n / 256)%N with (n / 16 / 16)%N
    by (rewrite !N.Div0.div_div; reflexivity).
  pose proof (N.div_mod n 16 ltac:(lia)) as H1.
  pose proof (N.div_mod (n / 16) 16 ltac:(lia)) as H2.
  pose proof (N.div_mod (n / 16 / 16) 16 ltac:(lia)) as H3.
  assert (H4 : (n / 16 / 16 / 16 < 16)%N).
  { rewrite !N.Div0.div_div. apply N.Div0.div_lt_upper_bound. exact Hn. }
  rewrite (N.mod_small _ _ H4). lia.
Qed.

Lemma unesc_head_unit_low (a : ascii) (rest : str8) :
  unesc_head (esc_unit (N_of_ascii a) +++ rest) = Some (N_of_ascii a, rest).
Proof.
  destruct a as [[] [] [] [] [] [] [] []]; reflexivity.
Qed.

Lemma unesc_head_unit (n : N) (rest : str8) :
  (n < 0x10000)%N -> unesc_head (esc_unit n +++ rest) = Some (n, rest).
Proof.
  intro Hn. destruct (N.lt_ge_cases n 256) as [Hlo|Hhi].
  - rewrite <- (N_ascii_embedding n) by exact Hlo. apply unesc_head_unit_low.
  - unfold esc_unit.
    repeat match goal with
    | |- context [N.eqb n ?k] => destruct (N.eqb_spec n k); [ lia | ]
    end.
    destruct (N.leb_spec n 126) as [|_]; [ lia | ].
    rewrite andb_false_r.
    unfold hex4. cbn [String.append unesc_head].
    change (Ascii.eqb "\" dquote) with false.
    change (Ascii.eqb "\" "\") with true.
    change (Ascii.eqb "u" dquote) with false.
    cbn [Ascii.eqb Bool.eqb andb].
    rewrite !hex_value_lower by (apply N.mod_lt; lia).
    f_equal. f_equal. apply hex4_value. exact Hn.
Qed.

Lemma unesc_head_quote (rest : str8) : unesc_head (String dquote rest) = None.
Proof. reflexivity. Qed.

(** Escaped code units followed by the closing quote determine the units
    and what follows the quote. *)
Lemma esc_units_terminated (a b : list N) (r r' : str8) :
  Forall (fun u => (u < 0x10000)%N) a ->
  Forall (fun u => (u < 0x10000)%N) b ->
  esc_units a +++ String dquote r = esc_units b +++ String dquote r' ->
  a = b /\ r = r'.
Proof.
  intro Ha. revert b. induction Ha as [|u a Hu Ha IH];
    intros b Hb E; destruct Hb as [|u' b Hu' Hb]; cbn [esc_units] in E;
    rewrite ?append_assoc in E.
  - cbn in E. injection E as ->. auto.
  - apply (f_equal unesc_head) in E. cbn [String.append] in E.
    rewrite unesc_head_quote, unesc_head_unit in E by exact Hu'. discriminate.
  - apply (f_equal unesc_head) in E. cbn [String.append] in E.
    rewrite unesc_head_quote, unesc_head_unit in E by exact Hu. discriminate.
  - apply (f_equal unesc_head) in E.
    rewrite !unesc_head_unit in E by assumption.
    injection E as -> E. destruct (IH b Hb E) as [-> ->]. auto.
Qed.

(** An escaped string followed by the closing quote determines the code
    units of the string and what follows the quote. *)
Lemma esc_string_terminated (a b : str) (r r' : str8) :
  esc_string a +++ String dquote r = esc_string b +++ String dquote r' ->
  utf16 a = utf16 b /\ r = r'.
Proof.
  rewrite !esc_string_units. apply esc_units_terminated; apply utf16_bounded.
Qed.

(** The first unit of a code point from [0x10000] on is a surrogate, and
    the two units determine a code point up to [0x10FFFF]. *)
Lemma high_unit_range (c : N) :
  (0xD800 <= 0xD800 + (c - 0x10000) / 1024 mod 1024 < 0xDC00)%N.
Proof.
  pose proof (N.mod_lt ((c - 0x10000) / 1024) 1024 ltac:(lia)) as H.
  revert H. generalize ((c - 0x10000) / 1024 mod 1024)%N. intros a Ha. lia.
Qed.

Lemma surrogate_pair_inj (x y : N) :
  (0x10000 <= x <= 0x10FFFF)%N -> (0x10000 <= y <= 0x10FFFF)%N ->
  (0xD800 + (x - 0x10000) / 1024 mod 1024
   = 0xD800 + (y - 0x10000) / 1024 mod 1024)%N ->
  (0xDC00 + (x - 0x10000) mod 1024 = 0xDC00 + (y - 0x10000) mod 1024)%N ->
  x = y.
Proof.
  intros Hx Hy E1 E2.
  assert (Qx : ((x - 0x10000) / 1024 < 1024)%N)
    by (apply N.Div0.div_lt_upper_bound; lia).
  assert (Qy : ((y - 0x10000) / 1024 < 1024)%N)
    by (apply N.Div0.div_lt_upper_bound; lia).
  rewrite (N.mod_small _ _ Qx), (N.mod_small _ _ Qy) in E1.
  pose proof (N.div_mod (x - 0x10000) 1024 ltac:(lia)) as Dx.
  pose proof (N.div_mod (y - 0x10000) 1024 ltac:(lia)) as Dy.
  revert E1 E2 Dx Dy.
  generalize ((x - 0x10000) / 1024)%N, ((x - 0x10000) mod 1024)%N,
             ((y - 0x10000) / 1024)%N, ((y - 0x10000) mod 1024)%N.
  intros a b a' b' E1 E2 Dx Dy. lia.
Qed.

(** Strings of scalar values with the same code units are the same. *)
Lemma utf16_scalar_inj (a b : str) :
  scalar_str a -> scalar_str b -> utf16 a = utf16 b -> a = b.
Proof.
  unfold scalar_str.
  assert (Hsc : forall c, is_scalar c = true ->
            (c < 0xD800 \/ 0xE000 <= c <= 0x10FFFF)%N).
  { intros c Hc. unfold is_scalar in Hc. apply orb_true_iff in Hc.
    destruct Hc as [Hc|Hc]; [ left; now apply N.ltb_lt | right ].
    apply andb_true_iff in Hc. destruct Hc as [H1 H2].
    apply N.leb_le in H1, H2. lia. }
  assert (Hlow : forall c, (c < 0x10000)%N -> utf16_units c = [c]).
  { intros c Hc. unfold utf16_units.
    destruct (N.ltb_spec c 0x10000); [ reflexivity | lia ]. }
  revert b. induction a as [|x a IH]; intros [|y b] Ha Hb E;
    cbn [utf16 flat_map forallb] in *.
  - reflexivity.
  - apply andb_true_iff in Hb. destruct Hb as [Hy _].
    destruct (N.lt_ge_cases y 0x10000) as [Hy'|Hy'];
      [ rewrite Hlow in E by exact Hy' | rewrite utf16_units_high in E by exact Hy' ];
      discriminate.
  - apply andb_true_iff in Ha. destruct Ha as [Hx _].
    destruct (N.lt_ge_cases x 0x10000) as [Hx'|Hx'];
      [ rewrite Hlow in E by exact Hx' | rewrite utf16_units_high in E by exact Hx' ];
      discriminate.
  - apply andb_true_iff in Ha, Hb. destruct Ha as [Hx Ha], Hb as [Hy Hb].
    apply Hsc in Hx, Hy.
    fold (utf16 a) in E. fold (utf16 b) in E.
    destruct (N.lt_ge_cases x 0x10000) as [Hx'|Hx'],
             (N.lt_ge_cases y 0x10000) as [Hy'|Hy'].
    + rewrite !Hlow in E by assumption. cbn [app] in E.
      injection E as -> E. f_equal. now apply IH.
    + rewrite Hlow in E by assumption.
      rewrite utf16_units_high in E by assumption.
      apply (f_equal (fun l => nth 0 l 0%N)) in E. cbn [nth app] in E.
      pose proof (high_unit_range y) as Hr. rewrite <- E in Hr. lia.
    + rewrite (Hlow y) in E by assumption.
      rewrite utf16_units_high in E by assumption.
      apply (f_equal (fun l => nth 0 l 0%N)) in E. cbn [nth app] in E.
      pose proof (high_unit_range x) as Hr. rewrite E in Hr. lia.
    + rewrite !utf16_units_high in E by assumption.
      pose proof (f_equal (fun l => nth 0 l 0%N) E) as E1.
      pose proof (f_equal (fun l => nth 1 l 0%N) E) as E2.
      apply (f_equal (skipn 2)) in E. cbn [nth skipn app] in E, E1, E2.
      assert (x = y) by (apply surrogate_pair_inj; (assumption || lia)).
      subst y. f_equal. now apply IH.
Qed.

Lemma uint_no_comma (d : Decimal.uint) (a b : str8) :
  NilEmpty.string_of_uint d <> a +++ String "," b.
Proof.
  revert a. induction d; intros [|c a] E; cbn in E; try discriminate;
    injection E as _ E; now apply IHd in E.
Qed.

Lemma int_repr_no_comma (n : Z) : no_comma (int_repr n).
Proof.
  intros a b E. unfold int_repr in E.
  destruct n as [|p|p]; cbn [Z.to_int NilZero.string_of_int] in E.
  - destruct a as [|c [|c' a]]; cbn in E; discriminate.
  - unfold NilZero.string_of_uint in E.
    destruct (Pos.to_uint p) eqn:Ep;
      try (rewrite <- Ep in E; now apply uint_no_comma in E).
    now apply DecimalPos.Unsigned.to_uint_nonnil in Ep.
  - unfold NilZero.string_of_uint in E.
    destruct a as [|c a]; cbn in E; [ discriminate | ]. injection E as _ E.
    destruct (Pos.to_uint p) eqn:Ep;
      try (rewrite <- Ep in E; now apply uint_no_comma in E).
    now apply DecimalPos.Unsigned.to_uint_nonnil in Ep.
Qed.

Lemma comma_terminated (a b r r' : str8) :
  no_comma a -> no_comma b ->
  a +++ String "," r = b +++ String "," r' -> a = b /\ r = r'.
Proof.
  revert b. induction a as [|c a IH]; intros [|c' b] Ha Hb E; cbn in E.
  - injection E as ->. auto.
  - injection E as <- E. now destruct (Hb "" b).
  - injection E as -> E. now destruct (Ha "" a).
  - injection E as -> E.
    destruct (IH b) as [-> ->]; auto.
    + intros x y Hx. apply (Ha (String c' x) y). cbn. now rewrite Hx.
    + intros x y Hx. apply (Hb (String c' x) y). cbn. now rewrite Hx.
Qed.

Lemma int_repr_inj (n m : Z) : int_repr n = int_repr m -> n = m.
Proof.
  unfold int_repr. intro E. apply to_int_inj.
  assert (Hnil : forall z, Z.to_int z <> Decimal.Pos Decimal.Nil /\
                           Z.to_int z <> Decimal.Neg Decimal.Nil).
  { intros [|p|p]; cbn; split; try discriminate;
      intros [= Ep]; now apply DecimalPos.Unsigned.to_uint_nonnil in Ep. }
  apply (f_equal NilZero.int_of_string) in E.
  rewrite !NilZero.isi in E by apply Hnil. now injection E.
Qed.



Section TamperTheorems.
Context {hasher : Hasher} {float_format : FloatFormat}.

(** The canonical text of a certificate. *)
Lemma dumps_certificate (s n c g : str) (i : Z) :
  dumps (certificate s n c g i)
  = "{" +++ json_key "course" +++ encode_basestring_ascii c +++ ","
        +++ json_key "grade" +++ encode_basestring_ascii g +++ ","
        +++ json_key "issued_at" +++ int_repr i +++ ","
        +++ json_key "name" +++ encode_basestring_ascii n +++ ","
        +++ json_key "student_id" +++ encode_basestring_ascii s +++ "}".
Proof.
  unfold certificate. cbn [dumps map fst snd].
  change (sort_items
            [ (ustr "student_id", encode_basestring_ascii s);
              (ustr "name", encode_basestring_ascii n);
              (ustr "course", encode_basestring_ascii c);
              (ustr "grade", encode_basestring_ascii g);
              (ustr "issued_at", int_repr i) ])
    with [ (ustr "course", encode_basestring_ascii c);
           (ustr "grade", encode_basestring_ascii g);
           (ustr "issued_at", int_repr i);
           (ustr "name", encode_basestring_ascii n);
           (ustr "student_id", encode_basestring_ascii s) ].
  unfold render_item. cbn [map fst snd String.concat].
  change (encode_basestring_ascii (ustr "course") +++ ":") with (json_key "course").
  change (encode_basestring_ascii (ustr "grade") +++ ":") with (json_key "grade").
  change (encode_basestring_ascii (ustr "issued_at") +++ ":")
    with (json_key "issued_at").
  change (encode_basestring_ascii (ustr "name") +++ ":") with (json_key "name").
  change (encode_basestring_ascii (ustr "student_id") +++ ":")
    with (json_key "student_id").
  unfold json_key.
  repeat first [ rewrite append_assoc | progress cbn [String.append] ].
  reflexivity.
Qed.

(** Certificates have the same canonical bytes exactly when their strings
    have the same UTF-16 code units and they were issued at the same
    time. *)
Lemma canonical_certificate_units (s n c g s' n' c' g' : str) (i i' : Z) :
  canonical (certificate s n c g i) = canonical (certificate s' n' c' g' i') <->
  utf16 s = utf16 s' /\ utf16 n = utf16 n' /\ utf16 c = utf16 c' /\
  utf16 g = utf16 g' /\ i = i'.
Proof.
  unfold canonical. rewrite !dumps_certificate. split.
  - intro E. apply encode_inj in E.
    unfold json_key, encode_basestring_ascii in E.
    repeat first [ rewrite append_assoc in E | progress cbn [String.append] in E ].
    injection E as E. apply esc_string_terminated in E. destruct E as [Hc E].
    injection E as E. apply esc_string_terminated in E. destruct E as [Hg E].
    injection E as E.
    apply comma_terminated in E; try apply int_repr_no_comma.
    destruct E as [Ei E]. apply int_repr_inj in Ei.
    injection E as E. apply esc_string_terminated in E. destruct E as [Hn E].
    injection E as E. apply esc_string_terminated in E. destruct E as [Hs _].
    auto.
  - intros (Hs & Hn & Hc & Hg & ->).
    unfold encode_basestring_ascii. rewrite !esc_string_units.
    now rewrite Hs, Hn, Hc, Hg.
Qed.

(** Certificates of strings of scalar values with the same canonical
    bytes are the same in every field. *)
Lemma canonical_certificate_inj (s n c g s' n' c' g' : str) (i i' : Z) :
  scalar_str s /\ scalar_str n /\ scalar_str c /\ scalar_str g ->
  scalar_str s' /\ scalar_str n' /\ scalar_str c' /\ scalar_str g' ->
  canonical (certificate s n c g i) = canonical (certificate s' n' c' g' i') ->
  s = s' /\ n = n' /\ c = c' /\ g = g' /\ i = i'.
Proof.
  intros (Hs & Hn & Hc & Hg) (Hs' & Hn' & Hc' & Hg') E.
  apply canonical_certificate_units in E.
  destruct E as (Es & En & Ec & Eg & Ei).
  repeat split; try (apply utf16_scalar_inj; assumption). exact Ei.
Qed.

(** *** Divergence of the running hash *)


















End TamperTheorems.

(** Alice's certificate among the two sample certificates, with SHA-256:
    the generated proof is accepted; it is rejected against another root,
    with one character of the sibling digest changed, and for the
    certificate with the grade changed from A to B. *)
Lemma sample_alice_proof :
  @merkle_proof hashlib_sha256 whole_float_repr [cert_alice; cert_bob] 0
  = Returns alice_proof /\
  @merkle_root hashlib_sha256 whole_float_repr [cert_alice; cert_bob]
  = alice_bob_root.
Proof. vm_compute. split; reflexivity. Qed.



(* ================================================================== *)
(** * Further properties of the code *)
(* ================================================================== *)

(** ** The shape of the layers and of a proof *)

Section MerkleShape.
Context {hasher : Hasher} {float_format : FloatFormat}.

Lemma pow2_succ (k : nat) : (2 ^ S k = 2 * 2 ^ k)%nat.
Proof. reflexivity. Qed.

Lemma pow2_pos (k : nat) : (1 <= 2 ^ k)%nat.
Proof. induction k as [|k IH]; [ cbn; lia | rewrite pow2_succ; lia ]. Qed.

(** The loop halves the layer, rounding up, until one digest is left; so
    the number of layers is logarithmic in the number of leaves. *)
Lemma grow_layers_shape (fuel : nat) (cur : list str8) :
  (1 <= length cur <= S fuel)%nat ->
  (forall k l l',
     nth_error (grow_layers fuel cur) k = Some l ->
     nth_error (grow_layers fuel cur) (S k) = Some l' ->
     (1 < length l)%nat /\ l' = pair_hashes (pad_even l) /\
     (2 * length l' = length l + length l mod 2)%nat) /\
  (length cur <= 2 ^ (length (grow_layers fuel cur) - 1))%nat /\
  (2 <= length (grow_layers fuel cur) ->
   2 ^ (length (grow_layers fuel cur) - 2) < length cur)%nat.
Proof.
  revert cur. induction fuel as [|fuel IH]; intros cur Hl.
  - rewrite grow_layers_stop by lia. cbn [length]. repeat split.
    + destruct k; cbn in *; [ discriminate | now destruct k ].
    + destruct k; cbn in *; [ discriminate | now destruct k ].
    + destruct k; cbn in *; [ discriminate | now destruct k ].
    + cbn. lia.
    + lia.
  - destruct (Nat.le_gt_cases (length cur) 1) as [Hs|Hg].
    + rewrite grow_layers_stop by lia. cbn [length]. repeat split.
      * destruct k; cbn in *; [ discriminate | now destruct k ].
      * destruct k; cbn in *; [ discriminate | now destruct k ].
      * destruct k; cbn in *; [ discriminate | now destruct k ].
      * cbn. lia.
      * lia.
    + rewrite grow_layers_step by lia.
      pose proof (next_layer_shrinks cur Hg) as Hn.
      pose proof (next_layer_length cur) as Hn2.
      rewrite pad_even_length in Hn2.
      assert (Hmod : (length cur mod 2 = if Nat.odd (length cur) then 1 else 0)%nat).
      { destruct (Nat.odd (length cur)) eqn:E.
        - apply Nat.odd_spec in E. destruct E as [m ->].
          rewrite Nat.add_comm, Nat.mul_comm, Nat.Div0.mod_add. reflexivity.
        - assert (Ev : Nat.even (length cur) = true)
            by (rewrite <- Nat.negb_odd, E; reflexivity).
          apply Nat.even_spec in Ev. destruct Ev as [m ->].
          rewrite Nat.mul_comm. apply Nat.Div0.mod_mul. }
      destruct (IH (next_layer cur) ltac:(lia)) as (Hstep & Hup & Hlow).
      pose proof (grow_layers_nonempty fuel (next_layer cur)) as Hne.
      destruct (grow_layers fuel (next_layer cur)) as [|l0 ls] eqn:E;
        [ congruence | ].
      assert (Hl0 : l0 = next_layer cur).
      { destruct fuel; cbn [grow_layers] in E.
        - now injection E.
        - destruct (1 <? length (next_layer cur))%nat; now injection E. }
      split; [ | split ].
      * intros [|k] l l' Hk Hk'.
        -- cbn in Hk, Hk'. injection Hk as <-. injection Hk' as <-.
           subst l0. unfold next_layer in *. rewrite Hmod. repeat split; lia.
        -- cbn [nth_error] in Hk, Hk'. exact (Hstep k l l' Hk Hk').
      * assert (E1 : (length (cur :: l0 :: ls) - 1
                      = S (length (l0 :: ls) - 1))%nat) by (cbn [length]; lia).
        rewrite E1, pow2_succ. destruct (Nat.odd (length cur)); lia.
      * intros _. destruct ls as [|l1 ls'].
        -- cbn. lia.
        -- assert (E2 : (length (cur :: l0 :: l1 :: ls') - 2
                         = S (length (l0 :: l1 :: ls') - 2))%nat)
             by (cbn [length]; lia).
           rewrite E2, pow2_succ.
           specialize (Hlow ltac:(cbn [length]; lia)).
           destruct (Nat.odd (length cur)); lia.
Qed.

(** The number of layers is logarithmic in the number of records. *)
Lemma merkle_layers_bounds (items : list pyobj) :
  (length items <= 2 ^ (length (merkle_layers items) - 1))%nat /\
  (2 <= length (merkle_layers items) ->
   2 ^ (length (merkle_layers items) - 2) < length items)%nat.
Proof.
  pose proof (leaf_hashes_length items) as Hlen.
  destruct (grow_layers_shape (length (leaf_hashes items)) (leaf_hashes items))
    as (_ & Hup & Hlow); [ lia | ].
  fold (merkle_layers items) in Hup, Hlow.
  split; [ lia | ].
  intro HL. specialize (Hlow HL).
  destruct items as [|x items]; [ | cbn [length] in *; lia ].
  rewrite merkle_layers_single in HL by (cbn; lia). cbn in HL. lia.
Qed.

(** X1. [merkle_layers] returns the layer of the leaf digests (one per
    record in order, or the digest of the empty bytes alone when there is
    no record), then layers that each hold the pair digests of the layer
    before, padded to even length, so half as many digests, rounded up; the
    last layer is the root alone.  With [n >= 1] records and [L] layers,
    [2^(L-2) < n <= 2^(L-1)]. *)
Theorem merkle_layers_shape (items : list pyobj) :
  nth_error (merkle_layers items) 0
  = Some (match items with
          | [] => [sha256 []]
          | _ :: _ => map (fun x => sha256 (canonical x)) items
          end) /\
  (forall k l l',
     nth_error (merkle_layers items) k = Some l ->
     nth_error (merkle_layers items) (S k) = Some l' ->
     (1 < length l)%nat /\ l' = pair_hashes (pad_even l) /\
     (2 * length l' = length l + length l mod 2)%nat) /\
  last (merkle_layers items) [] = [merkle_root items] /\
  (length items <= 2 ^ (length (merkle_layers items) - 1))%nat /\
  (2 <= length (merkle_layers items) ->
   2 ^ (length (merkle_layers items) - 2) < length items)%nat.
Proof.
  pose proof (leaf_hashes_length items) as Hlen.
  destruct (grow_layers_shape (length (leaf_hashes items)) (leaf_hashes items))
    as (Hstep & Hup & Hlow); [ lia | ].
  fold (merkle_layers items) in Hstep, Hup, Hlow.
  split; [ | split; [ exact Hstep | split; [ apply merkle_layers_top | split ] ] ].
  - unfold merkle_layers.
    assert (Hhd : forall fuel cur, nth_error (grow_layers fuel cur) 0 = Some cur).
    { intros [|fuel] cur; cbn [grow_layers]; [ reflexivity | ].
      now destruct (1 <? length cur)%nat. }
    rewrite Hhd. unfold leaf_hashes. now destruct items.
  - lia.
  - intro HL. specialize (Hlow HL).
    destruct items as [|x items]; [ | cbn [length] in *; lia ].
    rewrite merkle_layers_single in HL by (cbn; lia). cbn in HL. lia.
Qed.

(** The loop of [merkle_proof]: one entry per layer; the tag of entry [k]
    is the binary digit [k] of the index, and its digest is the neighbour
    of position [idx // 2^k] in the padded layer [k]. *)
Lemma proof_path_shape (layers : list (list str8)) (idx : Z)
    (proof : list (str8 * str8)) :
  proof_path layers idx = Returns proof ->
  length proof = length layers /\
  forall k s d,
    nth_error proof k = Some (s, d) ->
    d = (if Z.testbit idx (Z.of_nat k) then "L" else "R") /\
    exists layer,
      nth_error layers k = Some layer /\
      py_getitem (pad_even layer) (Z.lxor (idx / 2 ^ Z.of_nat k) 1) = Some s.
Proof.
  revert idx proof. induction layers as [|layer rest IH]; intros idx proof Hp;
    cbn [proof_path] in Hp.
  - injection Hp as <-. split; [ reflexivity | ]. intros [|k] s d Hk; discriminate.
  - destruct (py_getitem (pad_even layer) (Z.lxor idx 1)) as [s0|] eqn:Es;
      [ | discriminate ].
    destruct (proof_path rest (idx / 2)) as [p| |] eqn:Er; try discriminate.
    cbn [bind] in Hp. injection Hp as <-.
    destruct (IH _ _ Er) as [Hlen Hent].
    split; [ cbn [length]; now rewrite Hlen | ].
    intros [|k] s d Hk; cbn [nth_error] in Hk.
    + injection Hk as <- <-. split.
      * cbn [Z.of_nat]. rewrite Z.bit0_odd, lxor_one, <- Z.negb_even.
        destruct (Z.even idx); cbn [negb].
        -- destruct (idx + 1 <? idx) eqn:E; [ blia | reflexivity ].
        -- destruct (idx - 1 <? idx) eqn:E; [ reflexivity | blia ].
      * exists layer. split; [ reflexivity | ].
        cbn [Z.of_nat]. now rewrite Z.pow_0_r, Z.div_1_r.
    + destruct (Hent k s d Hk) as (Hd & l & Hl & Hs). split.
      * rewrite Hd, Nat2Z.inj_succ, Z.div2_bits by lia. reflexivity.
      * exists l. split; [ exact Hl | ].
        rewrite Nat2Z.inj_succ, Z.pow_succ_r by lia.
        rewrite <- Z.div_div by lia. exact Hs.
Qed.

(** X2. A proof that [merkle_proof] returns has one entry per layer below
    the root, which makes exactly [ceil(log2 n)] entries for [n >= 1]
    records: with [p] entries, [n <= 2^p], and [2^(p-1) < n] when [p >= 1];
    entry [k] carries the tag ['L'] when binary digit [k] of the index is 1
    and ['R'] when it is 0, and the digest at the neighbouring position
    [(index // 2^k) ^ 1] of layer [k] padded to even length. *)
Theorem merkle_proof_shape (items : list pyobj) (index : Z)
    (proof : list (str8 * str8)) :
  merkle_proof items index = Returns proof ->
  S (length proof) = length (merkle_layers items) /\
  (length items <= 2 ^ length proof)%nat /\
  (1 <= length proof -> 2 ^ (length proof - 1) < length items)%nat /\
  forall k s d,
    nth_error proof k = Some (s, d) ->
    d = (if Z.testbit index (Z.of_nat k) then "L" else "R") /\
    exists layer,
      nth_error (merkle_layers items) k = Some layer /\
      py_getitem (pad_even layer) (Z.lxor (index / 2 ^ Z.of_nat k) 1) = Some s.
Proof.
  unfold merkle_proof. intro Hp.
  destruct (proof_path_shape _ _ _ Hp) as [Hlen Hent].
  destruct (merkle_layers_bounds items) as (Hup & Hlow).
  assert (Hne : merkle_layers items <> []) by apply grow_layers_nonempty.
  destruct (exists_last Hne) as (front & top & Hl).
  rewrite Hl in *. rewrite removelast_last in Hlen, Hent.
  rewrite length_app in *. cbn [length] in *.
  split; [ lia | split; [ | split ] ].
  - replace (length front + 1 - 1)%nat with (length front) in Hup by lia.
    now rewrite Hlen.
  - intro Hp1.
    replace (length front + 1 - 2)%nat with (length front - 1)%nat in Hlow by lia.
    rewrite Hlen. apply Hlow. lia.
  - intros k s d Hk. destruct (Hent k s d Hk) as (Hd & layer & Hlayer & Hs).
    split; [ exact Hd | ]. exists layer. split; [ | exact Hs ].
    rewrite nth_error_app1; [ exact Hlayer | ].
    apply nth_error_Some. now rewrite Hlayer.
Qed.

(** X3. For an odd number [n >= 3] of records, [merkle_proof] at the index
    [n], one past the last record, returns the proof of the copy that pads
    the leaf layer: it starts with the digest of the last record tagged
    ['L'], and the last record verifies with it against the root. *)
Theorem padding_copy_proof (items : list pyobj) (final : pyobj) :
  Nat.odd (length items) = true ->
  (3 <= length items)%nat ->
  py_getitem items (-1) = Some final ->
  exists rest,
    merkle_proof items (Z.of_nat (length items))
    = Returns ((sha256 (canonical final), "L") :: rest) /\
    verify_merkle_proof final
      (ustr_proof ((sha256 (canonical final), "L") :: rest))
      (ustr (merkle_root items)) = Returns true.
Proof.
  intros Ho Hn Hlast.
  destruct (py_getitem_last items final (PList []) Hlast) as [Hl Hne].
  pose proof (leaf_hashes_nonempty items Hne) as Hleaves.
  assert (Hlen : length (leaf_hashes items) = length items)
    by (rewrite Hleaves; apply length_map).
  set (leaves := leaf_hashes items) in *.
  set (n := length items) in *.
  assert (Hlastd : last leaves "" = sha256 (canonical final)).
  { rewrite Hleaves.
    destruct (exists_last Hne) as (l' & y & E). rewrite E in Hl |- *.
    rewrite last_last in Hl. subst y. rewrite map_app. cbn [map].
    now rewrite last_last. }
  assert (Hodd : exists m, n = (2 * m + 1)%nat) by (now apply Nat.odd_spec).
  destruct Hodd as [m Hm].
  pose proof (next_layer_shrinks leaves ltac:(lia)) as Hshr.
  pose proof (next_layer_length leaves) as Hnl.
  rewrite pad_even_length, Hlen, Ho in Hnl.
  destruct (proof_path_folds (n - 1) (next_layer leaves) m) as (rest & Hpath & Hfold);
    [ lia | lia | ].
  exists rest.
  assert (Hsib : py_getitem (pad_even leaves) (Z.lxor (Z.of_nat n) 1)
                 = Some (sha256 (canonical final))).
  { rewrite lxor_one, even_of_nat, <- Nat.negb_odd, Ho. cbn [negb].
    replace (Z.of_nat n - 1) with (Z.of_nat (n - 1)) by lia.
    rewrite py_getitem_nat. unfold pad_even. rewrite Hlen, Ho.
    rewrite nth_error_app1 by lia.
    rewrite <- Hlastd.
    assert (Hnel : leaves <> []) by (intro E; rewrite E in Hlen; cbn in Hlen; lia).
    destruct (exists_last Hnel) as (l' & y & E). rewrite E in Hlen |- *.
    rewrite last_last. rewrite length_app in Hlen. cbn [length] in Hlen.
    rewrite nth_error_app2 by lia.
    replace (n - 1 - length l')%nat with 0%nat by lia. reflexivity. }
  assert (Hdir : (Z.lxor (Z.of_nat n) 1 <? Z.of_nat n) = true).
  { rewrite lxor_one, even_of_nat, <- Nat.negb_odd, Ho. cbn [negb].
    apply Z.ltb_lt. lia. }
  assert (Hhalf : Z.of_nat n / 2 = Z.of_nat m).
  { rewrite Hm. replace (Z.of_nat (2 * m + 1)) with (1 + Z.of_nat m * 2) by lia.
    rewrite Z.div_add by lia. reflexivity. }
  split.
  - unfold merkle_proof. rewrite merkle_layers_cons by lia.
    rewrite removelast_cons_grow. cbn [proof_path].
    fold leaves. fold n. rewrite Hsib, Hdir, Hhalf, Hpath. reflexivity.
  - rewrite verify_ustr_proof. f_equal. apply str_eqb_eq. f_equal.
    cbn [fold_left]. unfold step_digest at 2. cbn [step_input].
    change ("L" =? "L")%string with true. cbv iota.
    assert (Hpair : nth m (next_layer leaves) "" =
                    sha256 (encode (sha256 (canonical final)
                                    +++ sha256 (canonical final)))).
    { unfold next_layer. rewrite pair_hashes_nth.
      2:{ rewrite pad_even_length, Hlen, Ho. lia. }
      unfold pad_even. rewrite Hlen, Ho.
      assert (Hnel : leaves <> [])
        by (intro E; rewrite E in Hlen; cbn in Hlen; lia).
      destruct (exists_last Hnel) as (l' & y & E).
      rewrite E in Hlen, Hlastd |- *. rewrite last_last in Hlastd |- *.
      rewrite length_app in Hlen. cbn [length] in Hlen. subst y.
      rewrite <- app_assoc. cbn [app].
      rewrite !app_nth2 by lia.
      replace (2 * m - length l')%nat with 0%nat by lia.
      replace (2 * m + 1 - length l')%nat with 1%nat by lia.
      reflexivity. }
    rewrite <- Hpair, Hfold.
    unfold merkle_root. rewrite merkle_layers_cons by lia.
    rewrite last_cons_grow. reflexivity.
Qed.

End MerkleShape.

(** ** Proof of work: the least nonce *)

Section ProofOfWorkMore.
Context {hasher : Hasher} {float_format : FloatFormat}.

Import Blockchain.

(** The loop takes exactly as many turns as the least nonce that meets
    the target is away. *)
Lemma proof_of_work_exact (m : nat) (bc : t) (b : Block.t) :
  Block.hash b = Block.compute_hash b ->
  startswith (Block.hash (bump b (Z.of_nat m))) (str_mul "0" (difficulty bc)) = true ->
  (forall k : nat, (k < m)%nat ->
     startswith (Block.hash (bump b (Z.of_nat k))) (str_mul "0" (difficulty bc))
     = false) ->
  forall fuel : nat,
    proof_of_work fuel bc b
    = if (m <=? fuel)%nat then Returns (bump b (Z.of_nat m)) else OutOfFuel.
Proof.
  revert b. induction m as [|m IH]; intros b Hh Hst Hmin fuel;
    rewrite proof_of_work_unfold.
  - cbn [Z.of_nat] in Hst. rewrite bump_zero in Hst |- * by exact Hh.
    rewrite Hst. reflexivity.
  - pose proof (Hmin 0%nat ltac:(lia)) as H0. cbn [Z.of_nat] in H0.
    rewrite bump_zero in H0 by exact Hh. rewrite H0.
    destruct fuel as [|fuel]; [ reflexivity | ].
    rewrite (IH (bump b 1) eq_refl).
    + rewrite bump_bump.
      replace (1 + Z.of_nat m) with (Z.of_nat (S m)) by lia. reflexivity.
    + rewrite bump_bump.
      replace (1 + Z.of_nat m) with (Z.of_nat (S m)) by lia. exact Hst.
    + intros k Hk. rewrite bump_bump.
      replace (1 + Z.of_nat k) with (Z.of_nat (S k)) by lia.
      apply Hmin. lia.
Qed.

(** X4. Let [proof_of_work] start on a block whose hash is the digest of
    its fields, and let some nonce from the one of the block on give a
    digest that begins with ['0' * difficulty].  Then the loop ends: it
    takes as many turns as the least such nonce is away, and returns the
    block with that nonce, its hash the digest of its fields, and no other
    field touched.  (With less fuel than that number of turns the model of
    the loop is still running.) *)
Theorem proof_of_work_least_nonce (bc : t) (b : Block.t) (n : nat) :
  Block.hash b = Block.compute_hash b ->
  startswith
    (Block.compute_hash (Block.set_nonce b (Block.nonce b + Z.of_nat n)))
    (str_mul "0" (difficulty bc)) = true ->
  exists m : nat,
    (m <= n)%nat /\
    startswith
      (Block.compute_hash (Block.set_nonce b (Block.nonce b + Z.of_nat m)))
      (str_mul "0" (difficulty bc)) = true /\
    (forall k : nat, (k < m)%nat ->
       startswith
         (Block.compute_hash (Block.set_nonce b (Block.nonce b + Z.of_nat k)))
         (str_mul "0" (difficulty bc)) = false) /\
    (forall fuel : nat, (fuel < m)%nat -> proof_of_work fuel bc b = OutOfFuel) /\
    (forall fuel : nat, (m <= fuel)%nat ->
       exists b',
         proof_of_work fuel bc b = Returns b' /\
         Block.nonce b' = Block.nonce b + Z.of_nat m /\
         Block.hash b' = Block.compute_hash b' /\
         startswith (Block.hash b') (str_mul "0" (difficulty bc)) = true /\
         Block.index b' = Block.index b /\
         Block.transactions b' = Block.transactions b /\
         Block.timestamp b' = Block.timestamp b /\
         Block.previous_hash b' = Block.previous_hash b /\
         Block.merkle_root b' = Block.merkle_root b).
Proof.
  intros Hh Hn.
  destruct (proof_of_work_terminates n n bc b Hh Hn (Nat.le_refl n)) as [b0 Hr].
  destruct (proof_of_work_returns n bc b b0 Hh Hr) as (m & Hm & -> & Hst & Hmin).
  pose proof (proof_of_work_exact m bc b Hh Hst Hmin) as Hex.
  exists m. split; [ exact Hm | ]. split; [ exact Hst | ]. split; [ exact Hmin | ].
  split.
  - intros fuel Hf. rewrite Hex.
    destruct (Nat.leb_spec m fuel); [ lia | reflexivity ].
  - intros fuel Hf. exists (bump b (Z.of_nat m)). rewrite Hex.
    destruct (Nat.leb_spec m fuel); [ | lia ].
    destruct (bump_fields b (Z.of_nat m)) as (Hi & Ht & Hts & Hp & Hmr & Hnc & Hhash).
    repeat split; assumption.
Qed.

Lemma startswith_empty (s : str8) : startswith s "" = true.
Proof. unfold startswith. now destruct s. Qed.

Lemma str_mul_nonpositive (c : ascii) (n : Z) : n <= 0 -> str_mul c n = "".
Proof.
  intro Hn. unfold str_mul. destruct n; cbn; try reflexivity; lia.
Qed.

(** X5. With a difficulty of zero or less the target ['0' * difficulty] is
    the empty string, which every hash starts with: [proof_of_work] returns
    any block as it is without a turn of the loop, and [mine] seals the
    pending records with the nonce 0. *)
Theorem nonpositive_difficulty (fuel : nat) (now : spec_float) (bc : t)
    (last : Block.t) :
  difficulty bc <= 0 ->
  (forall b, proof_of_work fuel bc b = Returns b) /\
  (unconfirmed_transactions bc <> [] ->
   last_block bc = Returns last ->
   exists blk bc',
     mine fuel now bc = Returns ((true, Some blk), bc') /\
     Block.nonce blk = 0 /\
     blk = Block.new (Block.index last + 1) (unconfirmed_transactions bc)
                     now (Block.hash last) 0).
Proof.
  intro Hd.
  assert (Hpow : forall b, proof_of_work fuel bc b = Returns b).
  { intro b. rewrite proof_of_work_unfold, str_mul_nonpositive by exact Hd.
    now rewrite startswith_empty. }
  split; [ exact Hpow | ].
  intros Hp Hl. rewrite (mine_pending fuel now bc last Hp Hl).
  rewrite candidate_bump, bump_zero by reflexivity.
  rewrite Hpow. cbn [bind]. eexists. eexists. repeat split.
Qed.

End ProofOfWorkMore.
(** ** Blocks and chains read back from their dicts *)

(** Strings that [json.load] reads back as they were written: those
    without a high surrogate, among them the 8-bit strings and the strings
    of scalar values. *)
Lemma merge_surrogates_none (s : str) :
  Forall (fun c => is_high_surrogate c = false) s -> merge_surrogates s = s.
Proof.
  induction 1 as [|hi rest Hhi _ IH]; [ reflexivity | ].
  cbn [merge_surrogates]. destruct rest as [|lo rest']; [ reflexivity | ].
  rewrite Hhi. cbn [andb]. now rewrite IH.
Qed.

Lemma merge_surrogates_ustr (t : str8) : merge_surrogates (ustr t) = ustr t.
Proof.
  apply merge_surrogates_none. apply Forall_forall. intros c Hc.
  unfold ustr in Hc. apply in_map_iff in Hc. destruct Hc as (a & <- & _).
  pose proof (N_ascii_bounded a) as Ha. unfold is_high_surrogate.
  destruct (N.leb_spec 0xD800 (N_of_ascii a)); [ lia | reflexivity ].
Qed.

Lemma merge_surrogates_scalar (s : str) : scalar_str s -> merge_surrogates s = s.
Proof.
  intro Hs. apply merge_surrogates_none. apply Forall_forall. intros c Hc.
  unfold scalar_str in Hs. rewrite forallb_forall in Hs. specialize (Hs c Hc).
  unfold is_scalar in Hs. unfold is_high_surrogate.
  apply orb_true_iff in Hs. destruct Hs as [Hs|Hs].
  - apply N.ltb_lt in Hs. destruct (N.leb_spec 0xD800 c); [ lia | reflexivity ].
  - apply andb_true_iff in Hs. destruct Hs as [Hs _]. apply N.leb_le in Hs.
    destruct (N.leb_spec c 0xDBFF); [ lia | apply andb_false_r ].
Qed.

Lemma merge_surrogates_nonempty (c : N) (s : str) :
  exists c' s', merge_surrogates (c :: s) = c' :: s'.
Proof.
  cbn [merge_surrogates]. destruct s as [|lo rest]; [ eauto | ].
  destruct (is_high_surrogate c && is_low_surrogate lo); eauto.
Qed.

Lemma dict_setitem_nonempty (k : str) (v : pyobj) (items : list (str * pyobj)) :
  exists kv rest, dict_setitem k v items = kv :: rest.
Proof.
  destruct items as [|[k' v'] rest]; cbn [dict_setitem]; [ eauto | ].
  destruct (str_eqb k' k); eauto.
Qed.

Lemma dict_of_pairs_nonempty (p : str * pyobj) (pairs : list (str * pyobj)) :
  exists kv rest, dict_of_pairs (p :: pairs) = kv :: rest.
Proof.
  unfold dict_of_pairs. cbn [fold_left dict_setitem].
  generalize (fst p, snd p) as kv0, (@nil (str * pyobj)) as acc.
  induction pairs as [|q pairs IH]; intros kv0 acc; cbn [fold_left]; [ eauto | ].
  destruct (dict_setitem_nonempty (fst q) (snd q) (kv0 :: acc)) as (kv & rest & ->).
  apply IH.
Qed.

(** What [json.load] reads back for a certificate and for the dict of a
    block. *)
Lemma json_load_certificate (s n c g : str) (i : Z) :
  json_load (certificate s n c g i)
  = certificate (merge_surrogates s) (merge_surrogates n) (merge_surrogates c)
                (merge_surrogates g) i.
Proof. reflexivity. Qed.

Lemma json_load_to_dict (b : Block.t) :
  json_load (Block.to_dict b) = Block.to_dict (Block.reread b).
Proof.
  destruct b as [i txs ts ph n r h]. unfold Block.to_dict, Block.reread.
  cbn [Block.index Block.transactions Block.timestamp Block.previous_hash
       Block.nonce Block.merkle_root Block.hash].
  cbn [json_load map fst snd]. rewrite !merge_surrogates_ustr.
  reflexivity.
Qed.

Section LoadingTheorems.
Context {hasher : Hasher} {float_format : FloatFormat}.

Import Blockchain.

(** Reading the dict of a block. *)
Lemma from_dict_reads_to_dict (b : Block.t) :
  Block.from_dict (Block.to_dict b) = Some (Returns b).
Proof.
  destruct b as [i txs ts ph n r h]. unfold Block.from_dict, Block.to_dict.
  cbn [Block.index Block.transactions Block.timestamp Block.previous_hash
       Block.nonce Block.merkle_root Block.hash].
  change (dict_getitem _ (ustr "index")) with (Returns (PInt i)).
  change (dict_getitem _ (ustr "transactions")) with (Returns (PList txs)).
  change (dict_getitem _ (ustr "timestamp")) with (Returns (PFloat ts)).
  change (dict_getitem _ (ustr "previous_hash")) with (Returns (PStr (ustr ph))).
  cbn [bind Block.as_int Block.as_list Block.as_float Block.as_str].
  change (Block.get_default (ustr "nonce") _ _) with (PInt n).
  rewrite to_str8_ustr. cbn [Block.as_int].
  change (Block.get_default (ustr "merkle_root") _ _) with (PStr (ustr r)).
  cbn [Block.as_str]. rewrite to_str8_ustr.
  change (Block.get_default (ustr "hash") _ _) with (PStr (ustr h)).
  cbn [Block.as_str]. rewrite to_str8_ustr. reflexivity.
Qed.

(** X6. [Block.from_dict(b.to_dict())] is [b], for every block [b]: all
    seven fields are restored as they were stored, the hash and the Merkle
    root included, whether or not they are the digests of the contents. *)
Theorem from_dict_to_dict (b : Block.t) :
  Block.from_dict (Block.to_dict b) = Some (Returns b).
Proof. exact (from_dict_reads_to_dict b). Qed.

Lemma from_dict_not_dict (d : pyobj) :
  (forall items, d <> PDict items) ->
  Block.from_dict d = Some (Raises TypeError).
Proof.
  intro Hd. destruct d; try reflexivity. now destruct (Hd items).
Qed.

(** X7. What [Block.from_dict] does with less than a full dict: a value
    that is no dict raises [TypeError]; a dict without one of [index],
    [transactions], [timestamp], [previous_hash] raises [KeyError]; a dict
    with these four alone gives the block that the constructor builds with
    nonce 0; and when the Merkle root is stored and the hash is not, the
    hash is the digest of the fields with the stored root. *)
Theorem from_dict_partial :
  (forall d, (forall items, d <> PDict items) ->
     Block.from_dict d = Some (Raises TypeError)) /\
  (forall items k,
     In k [ustr "index"; ustr "transactions"; ustr "timestamp";
           ustr "previous_hash"] ->
     assoc k items = None ->
     Block.from_dict (PDict items) = Some (Raises KeyError)) /\
  (forall items i txs ts ph,
     assoc (ustr "index") items = Some (PInt i) ->
     assoc (ustr "transactions") items = Some (PList txs) ->
     assoc (ustr "timestamp") items = Some (PFloat ts) ->
     assoc (ustr "previous_hash") items = Some (PStr (ustr ph)) ->
     assoc (ustr "nonce") items = None ->
     assoc (ustr "merkle_root") items = None ->
     assoc (ustr "hash") items = None ->
     Block.from_dict (PDict items) = Some (Returns (Block.new i txs ts ph 0))) /\
  (forall items i txs ts ph n r,
     assoc (ustr "index") items = Some (PInt i) ->
     assoc (ustr "transactions") items = Some (PList txs) ->
     assoc (ustr "timestamp") items = Some (PFloat ts) ->
     assoc (ustr "previous_hash") items = Some (PStr (ustr ph)) ->
     assoc (ustr "nonce") items = Some (PInt n) ->
     assoc (ustr "merkle_root") items = Some (PStr (ustr r)) ->
     assoc (ustr "hash") items = None ->
     exists b,
       Block.from_dict (PDict items) = Some (Returns b) /\
       Block.merkle_root b = r /\ Block.nonce b = n /\
       Block.hash b = Block.compute_hash b).
Proof.
  split; [ exact from_dict_not_dict | ]. split; [ | split ].
  - intros items k Hk Hnone. unfold Block.from_dict. cbn [dict_getitem].
    destruct (assoc (ustr "index") items) eqn:E1; cbn [bind]; [ | reflexivity ].
    destruct (assoc (ustr "transactions") items) eqn:E2; cbn [bind]; [ | reflexivity ].
    destruct (assoc (ustr "timestamp") items) eqn:E3; cbn [bind]; [ | reflexivity ].
    destruct (assoc (ustr "previous_hash") items) eqn:E4; cbn [bind]; [ | reflexivity ].
    cbn [In] in Hk. destruct Hk as [<-|[<-|[<-|[<-|[]]]]]; congruence.
  - intros items i txs ts ph Hi Ht Hts Hp Hn Hm Hh.
    unfold Block.from_dict, Block.get_default. cbn [dict_getitem].
    rewrite Hi, Ht, Hts, Hp, Hn, Hm, Hh.
    cbn [bind Block.as_int Block.as_list Block.as_float Block.as_str].
    rewrite !to_str8_ustr. reflexivity.
  - intros items i txs ts ph n r Hi Ht Hts Hp Hn Hm Hh.
    unfold Block.from_dict, Block.get_default. cbn [dict_getitem].
    rewrite Hi, Ht, Hts, Hp, Hn, Hm, Hh.
    cbn [bind Block.as_int Block.as_list Block.as_float Block.as_str].
    rewrite !to_str8_ustr.
    eexists. split; [ reflexivity | ]. repeat split.
Qed.

Lemma from_dicts_to_dicts (blocks : list Block.t) :
  Block.from_dicts (map Block.to_dict blocks) = Some (Returns blocks).
Proof.
  induction blocks as [|b blocks IH]; [ reflexivity | ].
  cbn [map Block.from_dicts]. now rewrite from_dict_reads_to_dict, IH.
Qed.

(** The constructor on a file that holds the dicts of a chain. *)
Lemma construct_saved (difficulty' : Z) (now : spec_float) (blocks : list Block.t) :
  blocks <> [] ->
  construct difficulty' now (Some (PList (map Block.to_dict blocks)))
  = Some (Returns (mk difficulty' [] (map Block.reread blocks)
                      (Some (PList (map Block.to_dict blocks))))).
Proof.
  intro Hc. unfold construct, load_chain.
  cbn [chain_json json_load py_iter].
  rewrite map_map.
  rewrite (map_ext _ (fun b => Block.to_dict (Block.reread b)) json_load_to_dict).
  rewrite <- (map_map Block.reread Block.to_dict), from_dicts_to_dicts.
  cbn [difficulty unconfirmed_transactions chain_json].
  destruct blocks; [ contradiction | reflexivity ].
Qed.

Lemma reread_unchanged (blocks : list Block.t) :
  (forall b tx, In b blocks -> In tx (Block.transactions b) -> json_load tx = tx) ->
  map Block.reread blocks = blocks.
Proof.
  intro Hall. rewrite <- (map_id blocks) at 2. apply map_ext_in. intros b Hb.
  destruct b as [i txs ts ph n r h]. unfold Block.reread.
  cbn [Block.index Block.transactions Block.timestamp Block.previous_hash
       Block.nonce Block.merkle_root Block.hash]. f_equal.
  rewrite <- (map_id txs) at 2. apply map_ext_in. intros tx Htx.
  exact (Hall _ tx Hb Htx).
Qed.

(** X8. A chain that [save_chain] has written is read back block by block:
    a new [Blockchain] made while the file holds the saved chain of a
    ledger with at least one block has the blocks of that chain, in order,
    every field as it was but for the strings of the transactions, in
    which [json.load] has put one code point for each high surrogate that
    a low surrogate follows; where the transactions hold no such pair, as
    certificates of strings of scalar values do, it has that very chain.
    Its pool is empty whatever was pending, no genesis block is created,
    and the file is left as it is. *)
Theorem load_saved_chain (difficulty' : Z) (now : spec_float) (bc : t) :
  chain bc <> [] ->
  construct difficulty' now (chain_json (save_chain bc))
  = Some (Returns (mk difficulty' [] (map Block.reread (chain bc))
                      (chain_json (save_chain bc)))) /\
  ((forall b tx, In b (chain bc) -> In tx (Block.transactions b) ->
                 json_load tx = tx) ->
   construct difficulty' now (chain_json (save_chain bc))
   = Some (Returns (mk difficulty' [] (chain bc) (chain_json (save_chain bc))))) /\
  (forall s n c g i,
     scalar_str s -> scalar_str n -> scalar_str c -> scalar_str g ->
     json_load (certificate s n c g i) = certificate s n c g i).
Proof.
  intro Hc. unfold save_chain. cbn [chain_json].
  rewrite (construct_saved difficulty' now (chain bc) Hc).
  split; [ reflexivity | split ].
  - intro Hall. now rewrite (reread_unchanged (chain bc) Hall).
  - intros s n c g i Hs Hn Hcs Hg. rewrite json_load_certificate.
    now rewrite !merge_surrogates_scalar.
Qed.

(** X9. A new [Blockchain] made while there is no file, or while the file
    holds an empty list, an empty object or an empty string, is the ledger
    with a fresh genesis block, which is written to the file; a file that
    holds a number, a string with characters, an object with keys, or a
    list that starts with something that is no object, makes the
    constructor raise [TypeError]. *)
Theorem construct_without_blocks (difficulty : Z) (now : spec_float) :
  construct difficulty now None = Some (Returns (init difficulty now)) /\
  construct difficulty now (Some (PList [])) = Some (Returns (init difficulty now)) /\
  construct difficulty now (Some (PDict [])) = Some (Returns (init difficulty now)) /\
  construct difficulty now (Some (PStr [])) = Some (Returns (init difficulty now)) /\
  (forall n, construct difficulty now (Some (PInt n)) = Some (Raises TypeError)) /\
  (forall f, construct difficulty now (Some (PFloat f)) = Some (Raises TypeError)) /\
  (forall c s,
     construct difficulty now (Some (PStr (c :: s))) = Some (Raises TypeError)) /\
  (forall kv items,
     construct difficulty now (Some (PDict (kv :: items))) = Some (Raises TypeError)) /\
  (forall d rest,
     (forall items, d <> PDict items) ->
     construct difficulty now (Some (PList (d :: rest))) = Some (Raises TypeError)).
Proof.
  split; [ reflexivity | ]. split; [ reflexivity | ]. split; [ reflexivity | ].
  split; [ reflexivity | ]. split; [ reflexivity | ]. split; [ reflexivity | ].
  split; [ | split ].
  - intros c s. unfold construct, load_chain. cbn [chain_json json_load py_iter].
    destruct (merge_surrogates_nonempty c s) as (c' & s' & ->). reflexivity.
  - intros kv items. unfold construct, load_chain.
    cbn [chain_json json_load py_iter map].
    destruct (dict_of_pairs_nonempty
                (merge_surrogates (fst kv), json_load (snd kv))
                (map (fun kv => (merge_surrogates (fst kv), json_load (snd kv))) items))
      as (kv' & rest & ->).
    reflexivity.
  - intros d rest Hd. unfold construct, load_chain.
    cbn [chain_json json_load py_iter map Block.from_dicts].
    assert (Hd' : forall items, json_load d <> PDict items)
      by (intro items; destruct d; cbn [json_load]; try discriminate;
          now destruct (Hd items0)).
    now rewrite (from_dict_not_dict _ Hd').
Qed.

End LoadingTheorems.

(** ** Invariants of the ledgers that the code builds *)

Section LedgerInvariants.
Context {hasher : Hasher} {float_format : FloatFormat}.

Import Blockchain.

Lemma cert_key_certificate (s n c g : str) (i : Z) :
  cert_key (certificate s n c g i) = (Returns (PStr s), Returns (PStr c)).
Proof. reflexivity. Qed.

Lemma cert_key_in_pool (student_id course : str) (pending : list pyobj) :
  Forall is_certificate pending ->
  In (Returns (PStr student_id), Returns (PStr course)) (map cert_key pending) ->
  Exists (same_pair student_id course) pending.
Proof.
  intros Hall Hin. apply in_map_iff in Hin. destruct Hin as (t & Hk & Hin).
  apply Exists_exists. exists t. split; [ exact Hin | ].
  unfold cert_key in Hk. injection Hk as Hs Hc. split; assumption.
Qed.

(** All that [add_transaction] does when it returns. *)
Lemma add_transaction_returns (student_id name course grade : str)
    (now : spec_float) (bc bc' : t) (ok : bool) :
  add_transaction student_id name course grade now bc = Returns (ok, bc') ->
  chain bc' = chain bc /\ difficulty bc' = difficulty bc /\
  chain_json bc' = chain_json bc /\
  ((ok = false /\ bc' = bc) \/
   (ok = true /\
    pending_duplicate student_id course (unconfirmed_transactions bc) = Returns false /\
    exists issued_at,
      unconfirmed_transactions bc'
      = unconfirmed_transactions bc
        ++ [certificate student_id name course grade issued_at])).
Proof.
  unfold add_transaction. destruct (py_int now) as [i| |]; try discriminate.
  cbn [bind].
  destruct (pending_duplicate student_id course (unconfirmed_transactions bc))
    as [[|]| |] eqn:E; try discriminate; cbn [bind];
    intro Hr; injection Hr as <- <-; repeat split; auto.
  right. repeat split. exists i. reflexivity.
Qed.

Lemma block_ok_candidate (bc : t) (last : Block.t) (now : spec_float) (n k : nat) :
  Block.index last = Z.of_nat k ->
  unconfirmed_transactions bc <> [] ->
  Forall is_certificate (unconfirmed_transactions bc) ->
  distinct_pairs (unconfirmed_transactions bc) ->
  startswith (Block.hash (candidate last bc now (Z.of_nat n)))
             (str_mul "0" (difficulty bc)) = true ->
  block_ok (difficulty bc) (S k) (candidate last bc now (Z.of_nat n)).
Proof.
  intros Hi Hp Hall Hnd Hst. unfold block_ok.
  rewrite candidate_bump in *.
  destruct (bump_fields
              (Block.new (Block.index last + 1) (unconfirmed_transactions bc)
                         now (Block.hash last) 0) (Z.of_nat n))
    as (Ei & Et & _ & _ & Em & En & Eh).
  rewrite Ei, Et, Em, En. cbn [Block.new Block.set_hash Block.index
    Block.transactions Block.merkle_root Block.nonce].
  repeat split; try assumption; try lia; discriminate.
Qed.

(** The invariant behind the theorems of this section. *)
Lemma reachable_invariant (bc : t) :
  reachable bc ->
  chain_json bc = Some (PList (map Block.to_dict (chain bc))) /\
  (forall k b, nth_error (chain bc) k = Some b -> block_ok (difficulty bc) k b) /\
  Forall is_certificate (unconfirmed_transactions bc) /\
  distinct_pairs (unconfirmed_transactions bc).
Proof.
  induction 1 as [ d now
                 | bc bc' sid name course grade now ok Hr IH Hadd
                 | bc bc' fuel now res Hr IH Hmine ].
  - split; [ reflexivity | ]. split; [ | split; constructor ].
    intros [|k] b Hb; cbn in Hb; [ | destruct k; discriminate ].
    injection Hb as <-. unfold block_ok. cbn.
    repeat split; try constructor; try lia; try discriminate.
  - destruct IH as (Hfile & Hblocks & Hcert & Hnd).
    destruct (add_transaction_returns _ _ _ _ _ _ _ _ Hadd)
      as (Hc & Hd & Hj & [[_ ->]|(_ & Hdup & i & Hpool)]).
    + auto.
    + rewrite Hc, Hd, Hj, Hpool. split; [ exact Hfile | ].
      split; [ exact Hblocks | ]. split.
      * apply Forall_app. split; [ exact Hcert | ].
        constructor; [ | constructor ].
        exists sid, name, course, grade, i. reflexivity.
      * unfold distinct_pairs. rewrite map_app. cbn [map].
        apply NoDup_app_remove_l with (l := []). cbn [app].
        apply Permutation_NoDup with (l := cert_key (certificate sid name course grade i)
                                              :: map cert_key (unconfirmed_transactions
                                                  bc)).
        { apply Permutation_cons_append. }
        constructor; [ | exact Hnd ].
        rewrite cert_key_certificate. intro Hin.
        apply cert_key_in_pool in Hin; [ | exact Hcert ].
        apply (pending_duplicate_spec _ _ _ _ Hdup) in Hin. discriminate.
  - destruct IH as (Hfile & Hblocks & Hcert & Hnd).
    destruct (unconfirmed_transactions bc) as [|x p] eqn:Hp.
    + rewrite mine_empty in Hmine by exact Hp. injection Hmine as _ <-.
      rewrite Hp. auto.
    + assert (Hne : unconfirmed_transactions bc <> []) by (rewrite Hp; easy).
      destruct (reachable_chain bc Hr) as (_ & g & rest & Hc & _).
      destruct (last_block_some bc) as [last Hl]; [ rewrite Hc; easy | ].
      destruct (mine_success fuel now bc bc' last res Hne Hl Hmine)
        as (n & _ & _ & Hst & ->).
      destruct (last_block_last bc last Hl) as [front Hf].
      cbn [save_chain chain difficulty unconfirmed_transactions chain_json].
      split; [ reflexivity | ]. split; [ | split; constructor ].
      intros k b Hb.
      destruct (Nat.lt_ge_cases k (length (chain bc))) as [Hlt|Hge].
      * rewrite nth_error_app1 in Hb by exact Hlt. now apply Hblocks.
      * rewrite nth_error_app2 in Hb by exact Hge.
        destruct (k - length (chain bc))%nat as [|j] eqn:Ej;
          [ | cbn in Hb; destruct j; discriminate ].
        cbn in Hb. injection Hb as <-.
        assert (Hk : k = S (length front)).
        { rewrite Hf, length_app in *. cbn [length] in *. lia. }
        rewrite Hk. apply block_ok_candidate; try assumption.
        -- assert (Hlast : nth_error (chain bc) (length front) = Some last).
           { rewrite Hf, nth_error_app2, Nat.sub_diag by lia. reflexivity. }
           now destruct (Hblocks _ _ Hlast) as (Hi & _).
        -- rewrite Hp. exact Hcert.
        -- rewrite Hp. exact Hnd.
Qed.

(** X10. Every block of a ledger that the code has built from a fresh
    genesis block is sealed: the block at position [k] has index [k], its
    Merkle root is the root of its transactions, and its hash is the
    digest of its fields; the genesis block holds no transactions and the
    nonce 0, and every later block holds transactions and has a hash that
    starts with ['0' * difficulty]. *)
Theorem reachable_blocks_sealed (bc : t) (k : nat) (b : Block.t) :
  reachable bc ->
  nth_error (chain bc) k = Some b ->
  Block.index b = Z.of_nat k /\
  Block.merkle_root b = merkle_root (Block.transactions b) /\
  Block.hash b = Block.compute_hash b /\
  0 <= Block.nonce b /\
  (k = 0%nat -> Block.transactions b = [] /\ Block.nonce b = 0) /\
  ((1 <= k)%nat ->
   Block.transactions b <> [] /\
   startswith (Block.hash b) (str_mul "0" (difficulty bc)) = true).
Proof.
  intros Hr Hb. destruct (reachable_invariant bc Hr) as (_ & Hblocks & _).
  destruct (Hblocks k b Hb) as (Hi & Hm & Hh & Hn & _ & _ & H0 & H1).
  repeat split; try assumption.
  - now apply H0.
  - now apply H0.
  - now apply H1.
  - now apply H1.
Qed.

(** [get_block_by_index] on a chain in which the block at each position
    has the position, counted from [offset], as its index. *)
Lemma first_with_index_positions (blocks : list Block.t) (offset : nat) :
  (forall k b, nth_error blocks k = Some b -> Block.index b = Z.of_nat (offset + k)) ->
  forall i : Z,
    first_with_index i blocks
    = if (Z.of_nat offset <=? i) then nth_error blocks (Z.to_nat i - offset) else None.
Proof.
  revert offset. induction blocks as [|b blocks IH]; intros offset Hpos i;
    cbn [first_with_index].
  - destruct (Z.of_nat offset <=? i); [ | reflexivity ].
    now destruct (Z.to_nat i - offset)%nat.
  - pose proof (Hpos 0%nat b eq_refl) as Hb. rewrite Nat.add_0_r in Hb.
    rewrite Hb.
    assert (Hrest : forall k b', nth_error blocks k = Some b' ->
                                 Block.index b' = Z.of_nat (S offset + k)).
    { intros k b' Hk. rewrite (Hpos (S k) b' Hk). f_equal. lia. }
    rewrite (IH (S offset) Hrest i).
    destruct (Z.of_nat offset =? i) eqn:E.
    + apply Z.eqb_eq in E. subst i.
      destruct (Z.of_nat offset <=? Z.of_nat offset) eqn:E'; [ | blia ].
      replace (Z.to_nat (Z.of_nat offset) - offset)%nat with 0%nat by lia.
      reflexivity.
    + apply Z.eqb_neq in E.
      destruct (Z.of_nat (S offset) <=? i) eqn:E1,
               (Z.of_nat offset <=? i) eqn:E2; try blia; try reflexivity.
      prop_of_bool.
      replace (Z.to_nat i - offset)%nat with (S (Z.to_nat i - S offset)) by lia.
      reflexivity.
Qed.

(** X11. [get_block_by_index] returns the first block of the chain with
    the index, and [None] when no block has it; in a ledger that the code
    has built from a fresh genesis block this is the block at that
    position for [0 <= index < len(chain)], and [None] for every other
    index. *)
Theorem get_block_by_index_spec :
  (forall (bc : t) (i : Z) (b : Block.t),
     get_block_by_index i bc = Some b ->
     exists k,
       nth_error (chain bc) k = Some b /\ Block.index b = i /\
       forall j b', (j < k)%nat -> nth_error (chain bc) j = Some b' ->
                    Block.index b' <> i) /\
  (forall (bc : t) (i : Z),
     get_block_by_index i bc = None <->
     forall b, In b (chain bc) -> Block.index b <> i) /\
  (forall (bc : t) (i : Z),
     reachable bc ->
     get_block_by_index i bc
     = if (0 <=? i) && (i <? Z.of_nat (length (chain bc)))
       then nth_error (chain bc) (Z.to_nat i) else None).
Proof.
  split; [ | split ].
  - intros bc i. unfold get_block_by_index.
    induction (chain bc) as [|b0 blocks IH]; intros b Hg;
      cbn [first_with_index] in Hg; [ discriminate | ].
    destruct (Block.index b0 =? i) eqn:E.
    + injection Hg as <-. apply Z.eqb_eq in E. exists 0%nat.
      repeat split; [ exact E | ]. intros j b' Hj. lia.
    + destruct (IH b Hg) as (k & Hk & Hi & Hfirst). exists (S k).
      repeat split; [ exact Hk | exact Hi | ].
      intros [|j] b' Hj Hb'; cbn in Hb'.
      * injection Hb' as <-. now apply Z.eqb_neq.
      * apply (Hfirst j b'); [ lia | exact Hb' ].
  - intros bc i. unfold get_block_by_index.
    induction (chain bc) as [|b0 blocks IH]; cbn [first_with_index In].
    + split; [ intros _ b [] | reflexivity ].
    + destruct (Block.index b0 =? i) eqn:E.
      * split; [ discriminate | ]. intro Hall.
        apply Z.eqb_eq in E. now destruct (Hall b0 (or_introl eq_refl)).
      * rewrite IH. apply Z.eqb_neq in E. split.
        -- intros Hall b [<-|Hin]; [ exact E | now apply Hall ].
        -- intros Hall b Hin. apply Hall. now right.
  - intros bc i Hr. unfold get_block_by_index.
    destruct (reachable_invariant bc Hr) as (_ & Hblocks & _).
    rewrite (first_with_index_positions (chain bc) 0).
    2:{ intros k b Hb. now destruct (Hblocks k b Hb) as (Hi & _). }
    cbn [Z.of_nat]. rewrite Nat.sub_0_r.
    destruct (0 <=? i) eqn:E0; cbn [andb]; [ | reflexivity ].
    destruct (i <? Z.of_nat (length (chain bc))) eqn:E1; [ reflexivity | ].
    apply nth_error_None. blia.
Qed.

(** X12. In a ledger that the code has built from a fresh genesis block the
    file always holds the chain as it is.  A [Blockchain] made anew from
    the file (a restart) has the blocks of the chain with every field as
    it was but for the strings of the certificates, in which [json.load]
    has put one code point for each high surrogate that a low surrogate
    follows; where no certificate holds such a pair it has the same chain.
    The pool starts empty: records that were pending and not mined are
    gone. *)
Theorem restart_keeps_chain (difficulty' : Z) (now : spec_float) (bc : t) :
  reachable bc ->
  chain_json bc = Some (PList (map Block.to_dict (chain bc))) /\
  construct difficulty' now (chain_json bc)
  = Some (Returns (mk difficulty' [] (map Block.reread (chain bc)) (chain_json bc))) /\
  ((forall b tx, In b (chain bc) -> In tx (Block.transactions b) ->
                 json_load tx = tx) ->
   construct difficulty' now (chain_json bc)
   = Some (Returns (mk difficulty' [] (chain bc) (chain_json bc)))) /\
  (forall b tx,
     In b (chain bc) -> In tx (Block.transactions b) ->
     exists s n c g i,
       tx = certificate s n c g i /\
       json_load tx
       = certificate (merge_surrogates s) (merge_surrogates n)
                     (merge_surrogates c) (merge_surrogates g) i /\
       (scalar_str s -> scalar_str n -> scalar_str c -> scalar_str g ->
        json_load tx = tx)).
Proof.
  intro Hr. destruct (reachable_invariant bc Hr) as (Hfile & Hblocks & _).
  split; [ exact Hfile | ].
  destruct (reachable_chain bc Hr) as (_ & g & rest & Hc & _).
  assert (Hne : chain bc <> []) by (rewrite Hc; discriminate).
  rewrite Hfile, (construct_saved difficulty' now (chain bc) Hne).
  split; [ reflexivity | split ].
  - intro Hall. now rewrite (reread_unchanged (chain bc) Hall).
  - intros b tx Hb Htx. apply In_nth_error in Hb. destruct Hb as [k Hk].
    destruct (Hblocks k b Hk) as (_ & _ & _ & _ & Hcert & _).
    rewrite Forall_forall in Hcert.
    destruct (Hcert tx Htx) as (s & n & c & g0 & i & ->).
    exists s, n, c, g0, i. split; [ reflexivity | ].
    rewrite json_load_certificate. split; [ reflexivity | ].
    intros Hs Hn Hcs Hg. now rewrite !merge_surrogates_scalar.
Qed.

(** X13. In a ledger that the code has built from a fresh genesis block no
    two pending records have the same ([student_id], [course]), and no two
    transactions of one block have; all of them are certificates as
    [add_transaction] builds them. *)
Theorem no_duplicate_pairs (bc : t) :
  reachable bc ->
  distinct_pairs (unconfirmed_transactions bc) /\
  Forall is_certificate (unconfirmed_transactions bc) /\
  forall b, In b (chain bc) ->
    distinct_pairs (Block.transactions b) /\
    Forall is_certificate (Block.transactions b).
Proof.
  intro Hr. destruct (reachable_invariant bc Hr) as (_ & Hblocks & Hcert & Hnd).
  split; [ exact Hnd | ]. split; [ exact Hcert | ].
  intros b Hin. apply In_nth_error in Hin. destruct Hin as [k Hk].
  destruct (Hblocks k b Hk) as (_ & _ & _ & _ & Hc & Hd & _). auto.
Qed.

End LedgerInvariants.

(** ** Looking a certificate up and proving it *)

Section Lookup.
Context {hasher : Hasher} {float_format : FloatFormat}.

Import Blockchain.

(** The inner loop on a block of certificates: the first transaction with
    the pair, if there is one. *)
Lemma find_in_block_certificates (student_id course : str) (txs : list pyobj) :
  Forall is_certificate txs ->
  forall i0 : Z,
    (find_in_block student_id course txs i0 = Returns None /\
     ~ Exists (same_pair student_id course) txs) \/
    (exists j tx,
       find_in_block student_id course txs i0 = Returns (Some (i0 + Z.of_nat j)) /\
       nth_error txs j = Some tx /\ same_pair student_id course tx /\
       forall j' tx', (j' < j)%nat -> nth_error txs j' = Some tx' ->
                      ~ same_pair student_id course tx').
Proof.
  induction 1 as [|tx txs Hc Hall IH]; intro i0; cbn [find_in_block].
  - left. split; [ reflexivity | ]. intro He. inversion He.
  - destruct Hc as (s & n & c & g & i & ->).
    rewrite certificate_student_id, certificate_course. cbn [bind].
    assert (Hhere : eq_str (PStr s) student_id && eq_str (PStr c) course = true
                    <-> same_pair student_id course (certificate s n c g i)).
    { rewrite andb_true_iff, !eq_str_true. unfold same_pair.
      rewrite certificate_student_id, certificate_course.
      split; intros [H1 H2]; split; congruence. }
    destruct (eq_str (PStr s) student_id && eq_str (PStr c) course) eqn:E.
    + apply andb_true_iff in E. destruct E as [-> ->].
      right. exists 0%nat, (certificate s n c g i).
      rewrite Z.add_0_r. split; [ reflexivity | ]. split; [ reflexivity | ].
      split; [ now apply Hhere | ]. intros j' tx' Hj. lia.
    + assert (Hnot : ~ same_pair student_id course (certificate s n c g i)).
      { intro Hs. apply Hhere in Hs. discriminate. }
      assert (Hstep : (if eq_str (PStr s) student_id
                       then if eq_str (PStr c) course
                            then Returns (Some i0)
                            else find_in_block student_id course txs (i0 + 1)
                       else find_in_block student_id course txs (i0 + 1))
                      = find_in_block student_id course txs (i0 + 1)).
      { destruct (eq_str (PStr s) student_id); [ | reflexivity ].
        cbn [andb] in E. now rewrite E. }
      rewrite Hstep;
        (destruct (IH (i0 + 1)) as [[Hn Hex]|(j & tx & Hf & Hj & Hs & Hfirst)];
         [ left; split; [ exact Hn | ];
           intro He; inversion He; subst; [ now apply Hnot | now apply Hex ]
         | right; exists (S j), tx;
           replace (i0 + Z.of_nat (S j)) with (i0 + 1 + Z.of_nat j) by lia;
           split; [ exact Hf | ]; split; [ exact Hj | ]; split; [ exact Hs | ];
           intros [|j'] tx' Hlt Hn; cbn in Hn;
           [ injection Hn as <-; exact Hnot | apply (Hfirst j' tx'); [ lia | exact Hn ]
               ] ]).
Qed.

(** The outer loop on a chain of blocks of certificates. *)
Lemma find_in_chain_certificates (student_id course : str) (blocks : list Block.t) :
  (forall b, In b blocks -> Forall is_certificate (Block.transactions b)) ->
  (find_in_chain student_id course blocks = Returns (-1, -1) /\
   forall b, In b blocks -> ~ Exists (same_pair student_id course) (Block.transactions
       b)) \/
  (exists k b j tx,
     find_in_chain student_id course blocks = Returns (Block.index b, Z.of_nat j) /\
     nth_error blocks k = Some b /\
     nth_error (Block.transactions b) j = Some tx /\
     same_pair student_id course tx /\
     (forall j' tx', (j' < j)%nat -> nth_error (Block.transactions b) j' = Some tx' ->
                     ~ same_pair student_id course tx') /\
     (forall k' b', (k' < k)%nat -> nth_error blocks k' = Some b' ->
                    ~ Exists (same_pair student_id course) (Block.transactions b'))).
Proof.
  induction blocks as [|b blocks IH]; intro Hall; cbn [find_in_chain].
  - left. split; [ reflexivity | intros b [] ].
  - destruct (find_in_block_certificates student_id course (Block.transactions b)
                (Hall b (or_introl eq_refl)) 0)
      as [[Hn Hex]|(j & tx & Hf & Hj & Hs & Hfirst)].
    + rewrite Hn. cbn [bind].
      destruct IH as [[Hr Hnone]|(k & b' & j & tx & Hr & Hk & Hj & Hs & Hfirst &
          Hbefore)].
      * intros b' Hin. apply Hall. now right.
      * left. split; [ exact Hr | ]. intros b' [<-|Hin]; [ exact Hex | now apply Hnone ].
      * right. exists (S k), b', j, tx.
        split; [ exact Hr | ]. split; [ exact Hk | ]. split; [ exact Hj | ].
        split; [ exact Hs | ]. split; [ exact Hfirst | ].
        intros [|k'] b'' Hlt Hn'; cbn in Hn'.
        -- injection Hn' as <-. exact Hex.
        -- apply (Hbefore k' b''); [ lia | exact Hn' ].
    + rewrite Hf. cbn [bind]. right. exists 0%nat, b, j, tx.
      rewrite Z.add_0_l.
      split; [ reflexivity | ]. split; [ reflexivity | ]. split; [ exact Hj | ].
      split; [ exact Hs | ]. split; [ exact Hfirst | ].
      intros k' b' Hlt. lia.
Qed.

(** X14. On a chain whose blocks hold certificates,
    [find_certificate_location] always returns: [(-1, -1)] when no
    transaction of any block has the pair, and otherwise the index field
    of the first block that holds such a transaction together with the
    position of the first such transaction in it. The pool is not
    searched. *)
Theorem find_certificate_location_spec (student_id course : str) (bc : t) :
  (forall b, In b (chain bc) -> Forall is_certificate (Block.transactions b)) ->
  (find_certificate_location student_id course bc = Returns (-1, -1) /\
   forall b, In b (chain bc) ->
             ~ Exists (same_pair student_id course) (Block.transactions b)) \/
  (exists k b j tx,
     find_certificate_location student_id course bc
     = Returns (Block.index b, Z.of_nat j) /\
     nth_error (chain bc) k = Some b /\
     nth_error (Block.transactions b) j = Some tx /\
     same_pair student_id course tx /\
     (forall j' tx', (j' < j)%nat -> nth_error (Block.transactions b) j' = Some tx' ->
                     ~ same_pair student_id course tx') /\
     (forall k' b', (k' < k)%nat -> nth_error (chain bc) k' = Some b' ->
                    ~ Exists (same_pair student_id course) (Block.transactions b'))).
Proof.
  intro Hall. unfold find_certificate_location.
  exact (find_in_chain_certificates student_id course (chain bc) Hall).
Qed.

(** A proof for a position of the list is returned and accepted. *)
Lemma proof_at_position (items : list pyobj) (j : nat) (leaf : pyobj) :
  nth_error items j = Some leaf ->
  exists proof,
    merkle_proof items (Z.of_nat j) = Returns proof /\
    verify_merkle_proof leaf (ustr_proof proof) (ustr (merkle_root items))
    = Returns true.
Proof.
  intro Hleaf.
  assert (Hlt : (j < length items)%nat) by (apply nth_error_Some; congruence).
  assert (Hne : items <> []) by (destruct items; cbn in Hlt; [ lia | easy ]).
  pose proof (leaf_hashes_nonempty items Hne) as Hleaves.
  assert (Hlen : length (leaf_hashes items) = length items)
    by (rewrite Hleaves; apply length_map).
  destruct (proof_path_folds (length (leaf_hashes items)) (leaf_hashes items) j)
    as (proof & Hpath & Hfold); [ lia | lia | ].
  exists proof. split.
  - exact Hpath.
  - rewrite verify_ustr_proof. f_equal. apply str_eqb_eq. f_equal.
    unfold merkle_root, merkle_layers.
    rewrite <- Hfold. f_equal.
    rewrite Hleaves. symmetry.
    apply nth_error_nth. rewrite nth_error_map, Hleaf. reflexivity.
Qed.

(** Menu choice 4 on a ledger that the code has built. *)
Lemma menu_choice_4_reachable (sid course : str) (bc : t) :
  reachable bc ->
  (menu_choice_4 sid course bc = Returns NotInChain /\
   forall b, In b (chain bc) -> ~ Exists (same_pair sid course) (Block.transactions b)) \/
  (exists k b j tx proof,
     nth_error (chain bc) k = Some b /\
     nth_error (Block.transactions b) j = Some tx /\
     same_pair sid course tx /\
     (forall j' tx', (j' < j)%nat -> nth_error (Block.transactions b) j' = Some tx' ->
                     ~ same_pair sid course tx') /\
     (forall k' b', (k' < k)%nat -> nth_error (chain bc) k' = Some b' ->
                    ~ Exists (same_pair sid course) (Block.transactions b')) /\
     menu_choice_4 sid course bc
     = Returns (ProofSaved
                  ("merkle_proof_b" +++ int_repr (Z.of_nat k) +++ "_t"
                   +++ int_repr (Z.of_nat j) +++ ".json")
                  (mk_proof_object (Z.of_nat k) (Z.of_nat j) tx
                                   (Block.merkle_root b) proof)) /\
     verify_merkle_proof tx (ustr_proof proof) (ustr (Block.merkle_root b))
     = Returns true).
Proof.
  intro Hr. destruct (reachable_invariant bc Hr) as (_ & Hblocks & _).
  assert (Hall : forall b, In b (chain bc) -> Forall is_certificate (Block.transactions
      b)).
  { intros b Hin. apply In_nth_error in Hin. destruct Hin as [k Hk].
    now destruct (Hblocks k b Hk) as (_ & _ & _ & _ & Hc & _). }
  unfold menu_choice_4, find_certificate_location.
  destruct (find_in_chain_certificates sid course (chain bc) Hall)
    as [[Hf Hnone]|(k & b & j & tx & Hf & Hk & Hj & Hs & Hfirst & Hbefore)];
    rewrite Hf; cbn [bind].
  - left. split; [ reflexivity | exact Hnone ].
  - right. exists k, b, j, tx.
    destruct (Hblocks k b Hk) as (Hi & Hm & _).
    destruct (proof_at_position (Block.transactions b) j tx Hj) as (proof & Hp & Hv).
    exists proof. rewrite Hi.
    destruct (Z.of_nat k =? -1) eqn:E; [ blia | ].
    assert (Hget : get_block_by_index (Z.of_nat k) bc = Some b).
    { unfold get_block_by_index.
      rewrite (first_with_index_positions (chain bc) 0).
      - cbn [Z.of_nat]. destruct (0 <=? Z.of_nat k) eqn:E0; [ | blia ].
        rewrite Nat.sub_0_r, Nat2Z.id. exact Hk.
      - intros k' b' Hb'. now destruct (Hblocks k' b' Hb') as (Hi' & _). }
    rewrite Hget, Hp. cbn [bind]. rewrite py_getitem_nat, Hj, Hi.
    split; [ exact Hk | ]. split; [ reflexivity | ]. split; [ exact Hs | ].
    split; [ exact Hfirst | ]. split; [ exact Hbefore | ].
    split; [ reflexivity | ]. rewrite Hm. exact Hv.
Qed.

(** X15. Menu choice 4 on a ledger that the code has built from a fresh
    genesis block never raises and never meets a missing block: either no
    block holds a certificate with the pair, and nothing is written, or
    the proof object of the first such certificate (the first in the first
    block of the chain that holds one) is written to
    [merkle_proof_b<k>_t<j>.json], and the check of menu choice 5 on the
    fields of that object (its transaction, its proof and its root)
    accepts it. *)
Theorem proof_object_verifies (sid course : str) (bc : t) :
  reachable bc ->
  (menu_choice_4 sid course bc = Returns NotInChain /\
   forall b, In b (chain bc) -> ~ Exists (same_pair sid course) (Block.transactions b)) \/
  (exists k b j fname obj,
     menu_choice_4 sid course bc = Returns (ProofSaved fname obj) /\
     fname = "merkle_proof_b" +++ int_repr (Z.of_nat k) +++ "_t"
             +++ int_repr (Z.of_nat j) +++ ".json" /\
     nth_error (chain bc) k = Some b /\
     nth_error (Block.transactions b) j = Some (po_transaction obj) /\
     same_pair sid course (po_transaction obj) /\
     (forall k' b', (k' < k)%nat -> nth_error (chain bc) k' = Some b' ->
                    ~ Exists (same_pair sid course) (Block.transactions b')) /\
     (forall j' tx', (j' < j)%nat -> nth_error (Block.transactions b) j' = Some tx' ->
                     ~ same_pair sid course tx') /\
     po_block_index obj = Z.of_nat k /\ po_tx_index obj = Z.of_nat j /\
     po_merkle_root obj = merkle_root (Block.transactions b) /\
     verify_merkle_proof (po_transaction obj) (ustr_proof (po_proof obj))
       (ustr (po_merkle_root obj)) = Returns true).
Proof.
  intro Hr.
  destruct (menu_choice_4_reachable sid course bc Hr)
    as [Hnone|(k & b & j & tx & proof & Hk & Hj & Hs & Hfirst & Hbefore & Hm & Hv)];
    [ left; exact Hnone | right ].
  destruct (reachable_invariant bc Hr) as (_ & Hblocks & _).
  destruct (Hblocks k b Hk) as (_ & Hroot & _).
  exists k, b, j. eexists. eexists. split; [ exact Hm | ].
  cbn [po_transaction po_proof po_merkle_root po_block_index po_tx_index].
  split; [ reflexivity | ]. split; [ exact Hk | ]. split; [ exact Hj | ].
  split; [ exact Hs | ]. split; [ exact Hbefore | ]. split; [ exact Hfirst | ].
  split; [ reflexivity | ]. split; [ reflexivity | ].
  split; [ exact Hroot | exact Hv ].
Qed.

(** X16. Mining makes the pending certificates provable: after a [mine]
    that has appended a block, menu choice 4 writes, for the pair of each
    record that was pending, a proof object of a certificate with that
    pair, and the object passes the check of menu choice 5. Before the
    block is mined the pool is not searched. *)
Theorem mined_certificates_provable (fuel : nat) (now : spec_float)
    (bc bc' : t) (blk : Block.t) (tx : pyobj) (sid course : str) :
  reachable bc ->
  mine fuel now bc = Returns (true, Some blk, bc') ->
  In tx (unconfirmed_transactions bc) ->
  same_pair sid course tx ->
  exists fname obj,
    menu_choice_4 sid course bc' = Returns (ProofSaved fname obj) /\
    same_pair sid course (po_transaction obj) /\
    verify_merkle_proof (po_transaction obj) (ustr_proof (po_proof obj))
      (ustr (po_merkle_root obj)) = Returns true.
Proof.
  intros Hr Hmine Hin Hs.
  assert (Hr' : reachable bc') by (eapply reach_mine; eassumption).
  assert (Hne : unconfirmed_transactions bc <> []).
  { intro He. rewrite He in Hin. destruct Hin. }
  destruct (reachable_chain bc Hr) as (_ & g & rest & Hc & _).
  destruct (last_block_some bc) as [last Hl]; [ rewrite Hc; easy | ].
  destruct (mine_success fuel now bc bc' last _ Hne Hl Hmine)
    as (n & _ & _ & _ & Hbc').
  destruct (menu_choice_4_reachable sid course bc' Hr')
    as [[_ Hnone]|(k & b & j & tx' & proof & _ & _ & Hs' & _ & _ & Hm & Hv)].
  - exfalso.
    apply (Hnone (candidate last bc now (Z.of_nat n))).
    + rewrite Hbc'. cbn [save_chain chain]. apply in_or_app. right. now left.
    + rewrite candidate_bump.
      destruct (bump_fields
                  (Block.new (Block.index last + 1) (unconfirmed_transactions bc)
                             now (Block.hash last) 0) (Z.of_nat n))
        as (_ & Et & _).
      rewrite Et. cbn [Block.new Block.set_hash Block.transactions].
      apply Exists_exists. exists tx. split; assumption.
  - eexists. eexists. split; [ exact Hm | ].
    cbn [po_transaction po_proof po_merkle_root]. split; assumption.
Qed.

(** X17. Two certificates have the same canonical bytes exactly when their
    four strings have the same UTF-16 code units and the two were issued
    at the same time.  For strings of scalar values (no surrogate among
    the code points) that is when they are the same certificate; a
    surrogate pair and the character that it stands for are written
    alike. *)
Theorem certificate_encoding_injective (s n c g s' n' c' g' : str) (i i' : Z) :
  (canonical (certificate s n c g i) = canonical (certificate s' n' c' g' i')
   <-> utf16 s = utf16 s' /\ utf16 n = utf16 n' /\ utf16 c = utf16 c' /\
       utf16 g = utf16 g' /\ i = i') /\
  (scalar_str s /\ scalar_str n /\ scalar_str c /\ scalar_str g ->
   scalar_str s' /\ scalar_str n' /\ scalar_str c' /\ scalar_str g' ->
   (canonical (certificate s n c g i) = canonical (certificate s' n' c' g' i')
    <-> certificate s n c g i = certificate s' n' c' g' i')) /\
  canonical cert_emoji_pair = canonical cert_emoji.
Proof.
  split; [ apply canonical_certificate_units | split ].
  - intros Hsc Hsc'. split.
    + intro E. apply canonical_certificate_inj in E; try assumption.
      destruct E as (-> & -> & -> & -> & ->). reflexivity.
    + intro E. now rewrite E.
  - apply canonical_certificate_units. repeat split; reflexivity.
Qed.

End Lookup.

(** ** The further properties on the sample ledgers, with SHA-256 *)

Section FurtherSamples.

#[local] Existing Instance hashlib_sha256.
#[local] Existing Instance whole_float_repr.

Import Blockchain.

(** The sample ledgers are built by the code. *)
Lemma pool_ledger_reachable : reachable pool_ledger.
Proof.
  apply (reach_add
           (snd (true, mk DIFFICULTY [cert_alice] (chain pool_ledger)
                          (chain_json pool_ledger)))
           pool_ledger (ustr "S2") (ustr "Bob") (ustr "Math") (ustr "B") (clock
               1700000001) true).
  - apply (reach_add (init DIFFICULTY (clock 1700000000)) _
             (ustr "S1") (ustr "Alice") (ustr "Math") (ustr "A") (clock 1700000000) true).
    + apply reach_init.
    + vm_compute. reflexivity.
  - vm_compute. reflexivity.
Qed.

Lemma mined_ledger_mined :
  exists blk, mine 5 mining_time pool_ledger = Returns ((true, Some blk), mined_ledger).
Proof. vm_compute. eexists. reflexivity. Qed.

Lemma mined_ledger_reachable : reachable mined_ledger.
Proof.
  destruct mined_ledger_mined as [blk Hm].
  exact (reach_mine pool_ledger mined_ledger 5 mining_time _ pool_ledger_reachable Hm).
Qed.

Lemma merkle_proof_shape_witness :
  exists proof,
    merkle_proof three_certs 2 = Returns proof /\
    S (length proof) = length (merkle_layers three_certs) /\
    (length three_certs <= 2 ^ length proof)%nat /\
    (1 <= length proof -> 2 ^ (length proof - 1) < length three_certs)%nat /\
    forall k s d,
      nth_error proof k = Some (s, d) ->
      d = (if Z.testbit 2 (Z.of_nat k) then "L" else "R") /\
      exists layer,
        nth_error (merkle_layers three_certs) k = Some layer /\
        py_getitem (pad_even layer) (Z.lxor (2 / 2 ^ Z.of_nat k) 1) = Some s.
Proof.
  eexists. split; [ vm_compute; reflexivity | ].
  apply (merkle_proof_shape three_certs 2). vm_compute. reflexivity.
Defined.

Lemma padding_copy_proof_witness :
  exists rest,
    merkle_proof three_certs (Z.of_nat (length three_certs))
    = Returns ((sha256 (canonical cert_carol), "L") :: rest) /\
    verify_merkle_proof cert_carol
      (ustr_proof ((sha256 (canonical cert_carol), "L") :: rest))
      (ustr (merkle_root three_certs)) = Returns true.
Proof.
  apply (padding_copy_proof three_certs cert_carol).
  - reflexivity.
  - cbn [three_certs length]. lia.
  - reflexivity.
Defined.

Lemma proof_of_work_least_nonce_witness :
  exists m : nat,
    (m <= 2)%nat /\
    (forall fuel : nat, (fuel < m)%nat ->
       proof_of_work fuel pool_ledger
         (Block.new 1 [cert_alice; cert_bob] mining_time
            (Block.hash (Block.new 0 [] (clock 1700000000) "0" 0)) 0)
       = OutOfFuel) /\
    (forall fuel : nat, (m <= fuel)%nat ->
       exists b',
         proof_of_work fuel pool_ledger
           (Block.new 1 [cert_alice; cert_bob] mining_time
              (Block.hash (Block.new 0 [] (clock 1700000000) "0" 0)) 0)
         = Returns b' /\
         Block.nonce b' = 0 + Z.of_nat m /\
         Block.hash b' = Block.compute_hash b' /\
         startswith (Block.hash b') (str_mul "0" (difficulty pool_ledger)) = true).
Proof.
  destruct (proof_of_work_least_nonce pool_ledger
              (Block.new 1 [cert_alice; cert_bob] mining_time
                 (Block.hash (Block.new 0 [] (clock 1700000000) "0" 0)) 0)
              2 (new_hash_fresh _ _ _ _ _))
    as (m & Hm & _ & _ & Hlow & Hret).
  - vm_compute. reflexivity.
  - exists m. split; [ exact Hm | ]. split; [ exact Hlow | ].
    intros fuel Hf. destruct (Hret fuel Hf) as (b' & Hr & Hn & Hh & Hst & _).
    exists b'. split; [ exact Hr | ]. split; [ exact Hn | ].
    split; [ exact Hh | exact Hst ].
Defined.

Lemma nonpositive_difficulty_witness :
  difficulty free_ledger <= 0 /\
  (forall b, proof_of_work 0 free_ledger b = Returns b) /\
  (unconfirmed_transactions free_ledger <> [] ->
   last_block free_ledger = Returns (Block.new 0 [] (clock 1700000000) "0" 0) ->
   exists blk bc',
     mine 0 mining_time free_ledger = Returns ((true, Some blk), bc') /\
     Block.nonce blk = 0 /\
     blk = Block.new (Block.index (Block.new 0 [] (clock 1700000000) "0" 0) + 1)
                     (unconfirmed_transactions free_ledger) mining_time
                     (Block.hash (Block.new 0 [] (clock 1700000000) "0" 0)) 0).
Proof.
  assert (Hd : difficulty free_ledger <= 0) by (cbn; lia).
  split; [ exact Hd | ].
  exact (nonpositive_difficulty 0 mining_time free_ledger
           (Block.new 0 [] (clock 1700000000) "0" 0) Hd).
Defined.

(** The certificates of the mined sample ledger are read back as they
    were written. *)
Lemma mined_ledger_unchanged (b : Block.t) (tx : pyobj) :
  In b (chain mined_ledger) -> In tx (Block.transactions b) -> json_load tx = tx.
Proof.
  intros Hb Htx. vm_compute in Hb. destruct Hb as [<-|[<-|[]]].
  - destruct Htx.
  - cbn [Block.transactions In] in Htx.
    destruct Htx as [<-|[<-|[]]]; reflexivity.
Qed.

(** The ledger with the name of two surrogates is built by the code. *)
Lemma pair_ledger_reachable : reachable pair_ledger.
Proof.
  apply (reach_mine
           (mk 0 [cert_emoji_pair] (chain (init 0 (clock 1700000000)))
               (chain_json (init 0 (clock 1700000000))))
           pair_ledger 0 mining_time
           (true, Some (Block.new 1 [cert_emoji_pair] mining_time
                          (Block.hash (Block.new 0 [] (clock 1700000000) "0" 0)) 0))).
  - apply (reach_add (init 0 (clock 1700000000)) _
             (ustr "S4") emoji_pair_name (ustr "Math") (ustr "A")
             (clock 1700000003) true).
    + apply reach_init.
    + vm_compute. reflexivity.
  - vm_compute. reflexivity.
Qed.

Lemma load_saved_chain_witness :
  (chain mined_ledger <> [] /\
   length (chain mined_ledger) = 2%nat /\
   construct DIFFICULTY (clock 1700002000) (chain_json (save_chain mined_ledger))
   = Some (Returns (mk DIFFICULTY [] (chain mined_ledger)
                       (chain_json (save_chain mined_ledger))))) /\
  (chain pair_ledger <> [] /\
   construct 0 (clock 1700002000) (chain_json (save_chain pair_ledger))
   = Some (Returns (mk 0 [] (map Block.reread (chain pair_ledger))
                       (chain_json (save_chain pair_ledger)))) /\
   map Block.transactions (chain pair_ledger) = [[]; [cert_emoji_pair]] /\
   map Block.transactions (map Block.reread (chain pair_ledger))
   = [[]; [cert_emoji]]).
Proof.
  assert (Hc : chain mined_ledger <> []) by (vm_compute; discriminate).
  assert (Hp : chain pair_ledger <> []) by (vm_compute; discriminate).
  split.
  - split; [ exact Hc | ]. split; [ vm_compute; reflexivity | ].
    exact (proj1 (proj2 (load_saved_chain DIFFICULTY (clock 1700002000)
                           mined_ledger Hc))
             mined_ledger_unchanged).
  - split; [ exact Hp | ]. split.
    + exact (proj1 (load_saved_chain 0 (clock 1700002000) pair_ledger Hp)).
    + split; vm_compute; reflexivity.
Defined.

Lemma reachable_blocks_sealed_witness :
  exists b,
    reachable mined_ledger /\
    nth_error (chain mined_ledger) 1 = Some b /\
    Block.index b = Z.of_nat 1 /\
    Block.merkle_root b = merkle_root (Block.transactions b) /\
    Block.hash b = Block.compute_hash b /\
    0 <= Block.nonce b /\
    (1%nat = 0%nat -> Block.transactions b = [] /\ Block.nonce b = 0) /\
    ((1 <= 1)%nat ->
     Block.transactions b <> [] /\
     startswith (Block.hash b) (str_mul "0" (difficulty mined_ledger)) = true).
Proof.
  eexists. split; [ exact mined_ledger_reachable | ].
  split; [ vm_compute; reflexivity | ].
  apply (reachable_blocks_sealed mined_ledger 1 _ mined_ledger_reachable).
  vm_compute. reflexivity.
Defined.

Lemma restart_keeps_chain_witness :
  (reachable mined_ledger /\
   chain_json mined_ledger = Some (PList (map Block.to_dict (chain mined_ledger))) /\
   construct DIFFICULTY (clock 1700002000) (chain_json mined_ledger)
   = Some (Returns (mk DIFFICULTY [] (chain mined_ledger) (chain_json mined_ledger)))) /\
  (reachable pair_ledger /\
   construct 0 (clock 1700002000) (chain_json pair_ledger)
   = Some (Returns (mk 0 [] (map Block.reread (chain pair_ledger))
                       (chain_json pair_ledger))) /\
   map Block.reread (chain pair_ledger) <> chain pair_ledger).
Proof.
  pose proof (restart_keeps_chain DIFFICULTY (clock 1700002000) mined_ledger
                mined_ledger_reachable) as (Hfile & _ & Hsame & _).
  pose proof (restart_keeps_chain 0 (clock 1700002000) pair_ledger
                pair_ledger_reachable) as (_ & Hre & _).
  split.
  - split; [ exact mined_ledger_reachable | ]. split; [ exact Hfile | ].
    exact (Hsame mined_ledger_unchanged).
  - split; [ exact pair_ledger_reachable | ]. split; [ exact Hre | ].
    vm_compute. discriminate.
Defined.

Lemma no_duplicate_pairs_witness :
  reachable pool_ledger /\
  unconfirmed_transactions pool_ledger = [cert_alice; cert_bob] /\
  distinct_pairs (unconfirmed_transactions pool_ledger) /\
  Forall is_certificate (unconfirmed_transactions pool_ledger) /\
  forall b, In b (chain pool_ledger) ->
    distinct_pairs (Block.transactions b) /\
    Forall is_certificate (Block.transactions b).
Proof.
  split; [ exact pool_ledger_reachable | ]. split; [ reflexivity | ].
  exact (no_duplicate_pairs pool_ledger pool_ledger_reachable).
Defined.

(** The blocks of the mined sample ledger hold certificates. *)
Lemma mined_ledger_certificates (b : Block.t) :
  In b (chain mined_ledger) -> Forall is_certificate (Block.transactions b).
Proof.
  intro Hin. vm_compute in Hin. destruct Hin as [<-|[<-|[]]].
  - constructor.
  - constructor; [ | constructor; [ | constructor ] ].
    + exists (ustr "S1"), (ustr "Alice"), (ustr "Math"), (ustr "A"), 1700000000.
        reflexivity.
    + exists (ustr "S2"), (ustr "Bob"), (ustr "Math"), (ustr "B"), 1700000001.
        reflexivity.
Qed.

Lemma find_certificate_location_spec_witness :
  find_certificate_location (ustr "S2") (ustr "Math") mined_ledger = Returns (1, 1) /\
  ((find_certificate_location (ustr "S2") (ustr "Math") mined_ledger = Returns (-1, -1) /\
    forall b, In b (chain mined_ledger) ->
              ~ Exists (same_pair (ustr "S2") (ustr "Math")) (Block.transactions b)) \/
   (exists k b j tx,
      find_certificate_location (ustr "S2") (ustr "Math") mined_ledger
      = Returns (Block.index b, Z.of_nat j) /\
      nth_error (chain mined_ledger) k = Some b /\
      nth_error (Block.transactions b) j = Some tx /\
      same_pair (ustr "S2") (ustr "Math") tx /\
      (forall j' tx', (j' < j)%nat -> nth_error (Block.transactions b) j' = Some tx' ->
                      ~ same_pair (ustr "S2") (ustr "Math") tx') /\
      (forall k' b', (k' < k)%nat -> nth_error (chain mined_ledger) k' = Some b' ->
                     ~ Exists (same_pair (ustr "S2") (ustr "Math")) (Block.transactions
                         b')))).
Proof.
  split; [ vm_compute; reflexivity | ].
  exact (find_certificate_location_spec (ustr "S2") (ustr "Math") mined_ledger
           mined_ledger_certificates).
Defined.

Lemma proof_object_verifies_witness :
  reachable mined_ledger /\
  (exists obj,
     menu_choice_4 (ustr "S2") (ustr "Math") mined_ledger
     = Returns (ProofSaved "merkle_proof_b1_t1.json" obj) /\
     po_transaction obj = cert_bob) /\
  ((menu_choice_4 (ustr "S2") (ustr "Math") mined_ledger = Returns NotInChain /\
    forall b, In b (chain mined_ledger) ->
              ~ Exists (same_pair (ustr "S2") (ustr "Math")) (Block.transactions b)) \/
   (exists k b j fname obj,
      menu_choice_4 (ustr "S2") (ustr "Math") mined_ledger = Returns (ProofSaved fname
          obj) /\
      fname = "merkle_proof_b" +++ int_repr (Z.of_nat k) +++ "_t"
              +++ int_repr (Z.of_nat j) +++ ".json" /\
      nth_error (chain mined_ledger) k = Some b /\
      nth_error (Block.transactions b) j = Some (po_transaction obj) /\
      same_pair (ustr "S2") (ustr "Math") (po_transaction obj) /\
      (forall k' b', (k' < k)%nat -> nth_error (chain mined_ledger) k' = Some b' ->
                     ~ Exists (same_pair (ustr "S2") (ustr "Math"))
                         (Block.transactions b')) /\
      (forall j' tx', (j' < j)%nat -> nth_error (Block.transactions b) j' = Some tx' ->
                      ~ same_pair (ustr "S2") (ustr "Math") tx') /\
      po_block_index obj = Z.of_nat k /\ po_tx_index obj = Z.of_nat j /\
      po_merkle_root obj = merkle_root (Block.transactions b) /\
      verify_merkle_proof (po_transaction obj) (ustr_proof (po_proof obj))
        (ustr (po_merkle_root obj)) = Returns true)).
Proof.
  split; [ exact mined_ledger_reachable | ].
  split; [ eexists; split; vm_compute; reflexivity | ].
  exact (proof_object_verifies (ustr "S2") (ustr "Math") mined_ledger
      mined_ledger_reachable).
Defined.

Lemma mined_certificates_provable_witness :
  exists blk,
    reachable pool_ledger /\
    mine 5 mining_time pool_ledger = Returns ((true, Some blk), mined_ledger) /\
    In cert_alice (unconfirmed_transactions pool_ledger) /\
    same_pair (ustr "S1") (ustr "Math") cert_alice /\
    exists fname obj,
      menu_choice_4 (ustr "S1") (ustr "Math") mined_ledger = Returns (ProofSaved fname
          obj) /\
      same_pair (ustr "S1") (ustr "Math") (po_transaction obj) /\
      verify_merkle_proof (po_transaction obj) (ustr_proof (po_proof obj))
        (ustr (po_merkle_root obj)) = Returns true.
Proof.
  destruct mined_ledger_mined as [blk Hm].
  assert (Hin : In cert_alice (unconfirmed_transactions pool_ledger))
    by (left; reflexivity).
  assert (Hs : same_pair (ustr "S1") (ustr "Math") cert_alice) by (split; reflexivity).
  exists blk. split; [ exact pool_ledger_reachable | ]. split; [ exact Hm | ].
  split; [ exact Hin | ]. split; [ exact Hs | ].
  exact (mined_certificates_provable 5 mining_time pool_ledger mined_ledger blk
           cert_alice (ustr "S1") (ustr "Math") pool_ledger_reachable Hm Hin Hs).
Defined.

End FurtherSamples.
